(** * VirtualClock: a shallow embedding of [src/virtual-clock.js]

    The clock maps wall-clock samples to a virtual time under a rate, two
    bounds and a loop flag, and keeps one real-time timer per registered
    time listener.

    Numbers.  A JavaScript [number] is a rational or one of [+Infinity],
    [-Infinity] and [NaN]; the doubles are among the rationals.
    Comparisons, [Math.min], [Math.max], [Math.abs], [Math.ceil] and [%]
    are exact in the language and follow it here.  The arithmetic of the
    delay of a timer (lines 189-206) is the arithmetic of binary64, each
    operation rounded to the nearest double, ties to even ([Double]).  The
    arithmetic of the time getter (lines 284-307) is kept exact in [time]
    ([JS.add], [JS.sub], [JS.mul]), where the code rounds.  The code and
    [time] read the same where the getter adds [rate * 0] to its reference
    time, compares, clamps or takes a remainder, or adds and subtracts a
    span of 0; the properties of [time] are stated on those paths or for a
    reading that is given.  The range of the getter is stated over any
    arithmetic ([bound_time_with]), that of doubles ([bound_time64])
    included.  The sign of zero is not modelled.

    State.  The fields of the object form the record [clock].  What the
    object reads and writes outside itself (the wall clock, the table of
    pending [setTimeout] timers, the counters that hand out identities) is
    kept next to it in the record [world].  Wall-clock time stands still
    while a method runs.

    Effects.  A method is a function from worlds to outcomes: it returns,
    throws an [Error], or never returns (a loop of the time getter that does
    not end).  An outcome carries the trace of what the call did for an
    observer.  Functions passed to the clock are named by numbers; what
    calling one does to the world is a parameter, [behave], of everything
    that calls listeners.

    Layout.  The embedding of the source comes first, then the notions the
    specification is stated with, then the properties, then their
    counterexamples and instances. *)

From Stdlib Require Import QArith Qround Qabs Lqa ZArith Lia Bool List String SpecFloat.
Import ListNotations.

Set Implicit Arguments.

(** ** JavaScript numbers *)

Inductive num : Type :=
| NaN
| NegInf
| Fin (q : Q)
| PosInf.

Module JS.

Definition zero : num := Fin 0.
Definition one : num := Fin 1.

Definition Qltb (a b : Q) : bool := negb (Qle_bool b a).

(** [a < b], [a <= b], [a > b], [a >= b]: false as soon as a side is NaN. *)
Definition lt (a b : num) : bool :=
  match a, b with
  | NaN, _ | _, NaN => false
  | NegInf, NegInf => false
  | NegInf, _ => true
  | Fin _, NegInf => false
  | Fin x, Fin y => Qltb x y
  | Fin _, PosInf => true
  | PosInf, _ => false
  end.

Definition le (a b : num) : bool :=
  match a, b with
  | NaN, _ | _, NaN => false
  | NegInf, _ => true
  | Fin _, NegInf => false
  | Fin x, Fin y => Qle_bool x y
  | Fin _, PosInf => true
  | PosInf, PosInf => true
  | PosInf, _ => false
  end.

Definition gt (a b : num) : bool := lt b a.
Definition ge (a b : num) : bool := le b a.

(** [a === b] (and [a == b], the same on two numbers). *)
Definition eq (a b : num) : bool :=
  match a, b with
  | NegInf, NegInf => true
  | PosInf, PosInf => true
  | Fin x, Fin y => Qeq_bool x y
  | _, _ => false
  end.

(** [a !== b] (and [a != b]). *)
Definition ne (a b : num) : bool := negb (eq a b).

Definition neg (a : num) : num :=
  match a with
  | NaN => NaN
  | NegInf => PosInf
  | Fin x => Fin (- x)
  | PosInf => NegInf
  end.

Definition add (a b : num) : num :=
  match a, b with
  | NaN, _ | _, NaN => NaN
  | PosInf, NegInf | NegInf, PosInf => NaN
  | PosInf, _ | _, PosInf => PosInf
  | NegInf, _ | _, NegInf => NegInf
  | Fin x, Fin y => Fin (x + y)
  end.

Definition sub (a b : num) : num := add a (neg b).

(** Sign of a rational as a comparison with zero. *)
Definition Qsign (x : Q) : comparison := (x ?= 0)%Q.

Definition signed_inf (positive : bool) : num :=
  if positive then PosInf else NegInf.

Definition mul (a b : num) : num :=
  match a, b with
  | NaN, _ | _, NaN => NaN
  | Fin x, Fin y => Fin (x * y)
  | Fin x, PosInf | PosInf, Fin x =>
      match Qsign x with Eq => NaN | Gt => PosInf | Lt => NegInf end
  | Fin x, NegInf | NegInf, Fin x =>
      match Qsign x with Eq => NaN | Gt => NegInf | Lt => PosInf end
  | PosInf, PosInf | NegInf, NegInf => PosInf
  | PosInf, NegInf | NegInf, PosInf => NegInf
  end.

Definition div (a b : num) : num :=
  match a, b with
  | NaN, _ | _, NaN => NaN
  | Fin x, Fin y =>
      match Qsign y with
      | Eq => match Qsign x with Eq => NaN | Gt => PosInf | Lt => NegInf end
      | _ => Fin (x / y)
      end
  | Fin _, _ => Fin 0
  | PosInf, Fin y => signed_inf (Qle_bool 0 y)
  | NegInf, Fin y => signed_inf (negb (Qle_bool 0 y))
  | _, _ => NaN
  end.

(** [Math.abs], [Math.ceil], [Math.max], [Math.min]. *)
Definition abs (a : num) : num :=
  match a with
  | NaN => NaN
  | Fin x => Fin (Qabs x)
  | _ => PosInf
  end.

Definition ceil (a : num) : num :=
  match a with
  | Fin x => Fin (inject_Z (Qceiling x))
  | _ => a
  end.

Definition max (a b : num) : num :=
  match a, b with
  | NaN, _ | _, NaN => NaN
  | _, _ => if lt a b then b else a
  end.

Definition min (a b : num) : num :=
  match a, b with
  | NaN, _ | _, NaN => NaN
  | _, _ => if lt b a then b else a
  end.

(** Rounding toward zero, as [%] uses it. *)
Definition Qtrunc (x : Q) : Z :=
  if Qle_bool 0 x then Qfloor x else Qceiling x.

(** [a % b]: the remainder has the sign of the dividend. *)
Definition rem (a b : num) : num :=
  match a, b with
  | Fin x, Fin y =>
      match Qsign y with
      | Eq => NaN
      | _ => Fin (x - y * inject_Z (Qtrunc (x / y)))
      end
  | Fin x, PosInf | Fin x, NegInf => Fin x
  | _, _ => NaN
  end.

Definition is_finite (a : num) : bool :=
  match a with Fin _ => true | _ => false end.

Definition is_nan (a : num) : bool :=
  match a with NaN => true | _ => false end.

(** The same number, up to the representation of the rational. *)
Definition same (a b : num) : Prop :=
  match a, b with
  | NaN, NaN => True
  | NegInf, NegInf => True
  | PosInf, PosInf => True
  | Fin x, Fin y => (x == y)%Q
  | _, _ => False
  end.

End JS.

(** ** Binary64 arithmetic *)

(** The four operations on doubles, as IEEE 754 defines them and
    [SpecFloat] specifies them: the exact result rounded to the nearest
    double, ties to even, overflow to an infinity.  A double is read as the
    rational it is and a result is handed back as one.  A rational that is
    no double, which no number of the program is, is replaced by a double
    next to it before the operation. *)
Module Double.

Definition prec : Z := 53.
Definition emax : Z := 1024.

(** [Some j] when [d] is [2 ^ j]. *)
Fixpoint log2_exact (d : positive) : option Z :=
  match d with
  | xH => Some 0%Z
  | xO p => option_map Z.succ (log2_exact p)
  | xI _ => None
  end.

Definition of_Z (z : Z) : spec_float := binary_normalize prec emax z 0 false.

(** The double [n * 2 ^ (- j)] rounds to; a quotient of two doubles
    otherwise. *)
Definition of_Q (q : Q) : spec_float :=
  let q := Qred q in
  match log2_exact (Qden q) with
  | Some j => binary_normalize prec emax (Qnum q) (- j) false
  | None => SFdiv prec emax (of_Z (Qnum q)) (of_Z (Zpos (Qden q)))
  end.

Definition of_num (a : num) : spec_float :=
  match a with
  | NaN => S754_nan
  | NegInf => S754_infinity true
  | Fin q => of_Q q
  | PosInf => S754_infinity false
  end.

Definition to_num (x : spec_float) : num :=
  match x with
  | S754_nan => NaN
  | S754_infinity s => if s then NegInf else PosInf
  | S754_zero _ => Fin 0
  | S754_finite s m e => Fin (inject_Z (cond_Zopp s (Zpos m)) * Qpower 2 e)
  end.

Definition add (a b : num) : num := to_num (SFadd prec emax (of_num a) (of_num b)).
Definition sub (a b : num) : num := to_num (SFsub prec emax (of_num a) (of_num b)).
Definition mul (a b : num) : num := to_num (SFmul prec emax (of_num a) (of_num b)).
Definition div (a b : num) : num := to_num (SFdiv prec emax (of_num a) (of_num b)).

End Double.

(** ** The clock object and its environment *)

(** A time listener is the array [[time, callback]]; the [Map] compares keys
    by object identity, which [l_id] stands for.  Functions are named by
    natural numbers. *)
Record listener : Type := {
  l_id : nat;
  l_time : num;
  l_callback : nat
}.

(** The value the [Map] holds for a listener: [[timeoutId, lastCalled, once]]. *)
Record listenerData : Type := {
  timeoutId : nat;
  lastCalled : num;
  once : bool
}.

(** What a pending timer runs when it fires: the retry closure of line 180
    or the firing closure of line 209; both capture the listener, the second
    one its callback too. *)
Inductive closure : Type :=
| Retry (l : listener)
| Fire (l : listener).

Record timer : Type := {
  t_id : nat;
  t_delay : num;
  t_run : closure
}.

Record clock : Type := {
  _previousTime : num;
  _previousNow : num;
  _rate : num;
  _running : bool;
  _minimum : num;
  _maximum : num;
  _loop : bool;
  _eventListeners : list (string * list nat);
  _timeListeners : list (listener * listenerData)
}.

(** The clock together with what it reads and writes outside itself: the
    reading of [this._now()], the pending [setTimeout] timers, the next timer
    identifier (identifiers start at 1; 0 names no timer) and the next object
    identity. *)
Record world : Type := {
  this : clock;
  now : Q;
  timers : list timer;
  next_timeout : nat;
  next_object : nat
}.

Definition with_clock (c : clock) (w : world) : world :=
  {| this := c; now := now w; timers := timers w;
     next_timeout := next_timeout w; next_object := next_object w |}.

Definition with_previousTime (v : num) (c : clock) : clock :=
  {| _previousTime := v; _previousNow := _previousNow c; _rate := _rate c;
     _running := _running c; _minimum := _minimum c; _maximum := _maximum c;
     _loop := _loop c; _eventListeners := _eventListeners c;
     _timeListeners := _timeListeners c |}.

Definition with_previousNow (v : num) (c : clock) : clock :=
  {| _previousTime := _previousTime c; _previousNow := v; _rate := _rate c;
     _running := _running c; _minimum := _minimum c; _maximum := _maximum c;
     _loop := _loop c; _eventListeners := _eventListeners c;
     _timeListeners := _timeListeners c |}.

Definition with_rate (v : num) (c : clock) : clock :=
  {| _previousTime := _previousTime c; _previousNow := _previousNow c; _rate := v;
     _running := _running c; _minimum := _minimum c; _maximum := _maximum c;
     _loop := _loop c; _eventListeners := _eventListeners c;
     _timeListeners := _timeListeners c |}.

Definition with_running (v : bool) (c : clock) : clock :=
  {| _previousTime := _previousTime c; _previousNow := _previousNow c; _rate := _rate c;
     _running := v; _minimum := _minimum c; _maximum := _maximum c;
     _loop := _loop c; _eventListeners := _eventListeners c;
     _timeListeners := _timeListeners c |}.

Definition with_minimum (v : num) (c : clock) : clock :=
  {| _previousTime := _previousTime c; _previousNow := _previousNow c; _rate := _rate c;
     _running := _running c; _minimum := v; _maximum := _maximum c;
     _loop := _loop c; _eventListeners := _eventListeners c;
     _timeListeners := _timeListeners c |}.

Definition with_maximum (v : num) (c : clock) : clock :=
  {| _previousTime := _previousTime c; _previousNow := _previousNow c; _rate := _rate c;
     _running := _running c; _minimum := _minimum c; _maximum := v;
     _loop := _loop c; _eventListeners := _eventListeners c;
     _timeListeners := _timeListeners c |}.

Definition with_loop (v : bool) (c : clock) : clock :=
  {| _previousTime := _previousTime c; _previousNow := _previousNow c; _rate := _rate c;
     _running := _running c; _minimum := _minimum c; _maximum := _maximum c;
     _loop := v; _eventListeners := _eventListeners c;
     _timeListeners := _timeListeners c |}.

Definition with_eventListeners (v : list (string * list nat)) (c : clock) : clock :=
  {| _previousTime := _previousTime c; _previousNow := _previousNow c; _rate := _rate c;
     _running := _running c; _minimum := _minimum c; _maximum := _maximum c;
     _loop := _loop c; _eventListeners := v;
     _timeListeners := _timeListeners c |}.

Definition with_timeListeners (v : list (listener * listenerData)) (c : clock) : clock :=
  {| _previousTime := _previousTime c; _previousNow := _previousNow c; _rate := _rate c;
     _running := _running c; _minimum := _minimum c; _maximum := _maximum c;
     _loop := _loop c; _eventListeners := _eventListeners c;
     _timeListeners := v |}.

(** ** The time getter (lines 283-317) *)

(** [this._loop && this._minimum > -Infinity && this._maximum < Infinity] *)
Definition can_loop (c : clock) : bool :=
  _loop c && JS.gt (_minimum c) NegInf && JS.lt (_maximum c) PosInf.

(** [this._maximum - this._minimum] *)
Definition span (c : clock) : num := JS.sub (_maximum c) (_minimum c).

(** [do { currentTime += span } while (currentTime < this._minimum)];
    [None] when the fuel runs out. *)
Fixpoint append_laps (fuel : nat) (c : clock) (currentTime : num) : option num :=
  match fuel with
  | O => None
  | S fuel' =>
      let currentTime := JS.add currentTime (span c) in
      if JS.lt currentTime (_minimum c)
      then append_laps fuel' c currentTime
      else Some currentTime
  end.

(** [while (currentTime >= this._maximum) { currentTime -= span }] *)
Fixpoint substract_laps (fuel : nat) (c : clock) (currentTime : num) : option num :=
  match fuel with
  | O => None
  | S fuel' =>
      if JS.ge currentTime (_maximum c)
      then substract_laps fuel' c (JS.sub currentTime (span c))
      else Some currentTime
  end.

(** The time before bounds are applied: [_previousTime], plus
    [_rate * (_now() - _previousNow)] when running. *)
Definition raw_time (c : clock) (wall : Q) : num :=
  if _running c
  then JS.add (_previousTime c)
              (JS.mul (_rate c) (JS.sub (Fin wall) (_previousNow c)))
  else _previousTime c.

(** Lines 293-314: fold into the loop, or clamp. *)
Definition bound_time (fuel : nat) (c : clock) (currentTime : num) : option num :=
  if can_loop c then
    if JS.lt currentTime (_minimum c) then append_laps fuel c currentTime
    else if JS.eq (_minimum c) JS.zero then Some (JS.rem currentTime (_maximum c))
    else substract_laps fuel c currentTime
  else Some (JS.min (JS.max (_minimum c) currentTime) (_maximum c)).

(** The same lines over any addition and subtraction: [plus] is the [+=]
    of line 297 and [minus] the [-=] of line 305 and the [-] of the span.
    With [JS.add] and [JS.sub] they are [bound_time]; with [Double.add] and
    [Double.sub] they are the lines as they run on doubles. *)
Section AnyArithmetic.

Variables plus minus : num -> num -> num.

Fixpoint append_laps_with (fuel : nat) (c : clock) (currentTime : num) : option num :=
  match fuel with
  | O => None
  | S fuel' =>
      let currentTime := plus currentTime (minus (_maximum c) (_minimum c)) in
      if JS.lt currentTime (_minimum c)
      then append_laps_with fuel' c currentTime
      else Some currentTime
  end.

Fixpoint substract_laps_with (fuel : nat) (c : clock) (currentTime : num) : option num :=
  match fuel with
  | O => None
  | S fuel' =>
      if JS.ge currentTime (_maximum c)
      then substract_laps_with fuel' c (minus currentTime (minus (_maximum c) (_minimum c)))
      else Some currentTime
  end.

Definition bound_time_with (fuel : nat) (c : clock) (currentTime : num) : option num :=
  if can_loop c then
    if JS.lt currentTime (_minimum c) then append_laps_with fuel c currentTime
    else if JS.eq (_minimum c) JS.zero then Some (JS.rem currentTime (_maximum c))
    else substract_laps_with fuel c currentTime
  else Some (JS.min (JS.max (_minimum c) currentTime) (_maximum c)).

End AnyArithmetic.

(** Lines 293-314 on doubles. *)
Definition bound_time64 : nat -> clock -> num -> option num :=
  bound_time_with Double.add Double.sub.

Definition time_fuel (fuel : nat) (c : clock) (wall : Q) : option num :=
  bound_time fuel c (raw_time c wall).

(** A number of iterations after which both loops have ended if they end at
    all: the distance to the minimum counted in laps, plus two. *)
Definition laps (c : clock) (currentTime : num) : nat :=
  match currentTime, _minimum c, _maximum c with
  | Fin x, Fin lo, Fin hi =>
      S (S (Z.to_nat (Qceiling (Qabs (x - lo) / (hi - lo)))))
  | _, _, _ => 2
  end.

(** [get time()], its arithmetic exact: [Some t] when the getter returns
    [t], [None] when its loop never ends ([time_stable] and
    [time_fuel_mono] below justify [laps]). *)
Definition time (c : clock) (wall : Q) : option num :=
  bound_time (laps c (raw_time c wall)) c (raw_time c wall).

(** ** Outcomes and sequencing *)

(** What a method call leaves behind for an observer: the recomputation of
    all timers, an event handed to the event bus, a time listener's callback
    called by a timer. *)
Inductive action : Type :=
| Recalculated
| Triggered (event : string)
| Called (callback : nat).

Inductive outcome (A : Type) : Type :=
| Returns (a : A) (w : world) (tr : list action)
| Throws (message : string) (w : world) (tr : list action)
| Hangs.

Arguments Returns {A} a w tr.
Arguments Throws {A} message w tr.
Arguments Hangs {A}.

Definition M (A : Type) : Type := world -> outcome A.

Definition ret {A} (a : A) : M A := fun w => Returns a w [].

(** The outcome [o], reached after the actions [tr]. *)
Definition after {A} (tr : list action) (o : outcome A) : outcome A :=
  match o with
  | Returns a w tr' => Returns a w (tr ++ tr')
  | Throws e w tr' => Throws e w (tr ++ tr')
  | Hangs => Hangs
  end.

Definition bind {A B} (m : M A) (f : A -> M B) : M B :=
  fun w =>
    match m w with
    | Returns a w1 tr1 => after tr1 (f a w1)
    | Throws e w1 tr1 => Throws e w1 tr1
    | Hangs => Hangs
    end.

Declare Scope clock_scope.
Delimit Scope clock_scope with clock.
Notation "x <- m ;; k" := (bind m (fun x => k))
  (at level 61, m at next level, right associativity) : clock_scope.
Notation "m ;; k" := (bind m (fun _ => k))
  (at level 61, right associativity) : clock_scope.
Open Scope clock_scope.

Definition throw {A} (message : string) : M A := fun w => Throws message w [].

Definition record (a : action) : M unit := fun w => Returns tt w [a].

Definition update (f : clock -> clock) : M unit :=
  fun w => Returns tt (with_clock (f (this w)) w) [].

Definition read {A} (f : clock -> A) : M A := fun w => Returns (f (this w)) w [].

(** [this._now()] *)
Definition _now : M num := fun w => Returns (Fin (now w)) w [].

(** [this.time] *)
Definition get_time : M num :=
  fun w =>
    match time (this w) (now w) with
    | Some t => Returns t w []
    | None => Hangs
    end.

Definition when (b : bool) (m : M unit) : M unit := if b then m else ret tt.

(** ** The two maps *)

(** Both maps iterate in insertion order and replace a value in place, so
    they are kept as association lists.  The keys of [_timeListeners] are
    arrays, compared by identity. *)

Definition same_listener (a b : listener) : bool := Nat.eqb (l_id a) (l_id b).

(** [this._timeListeners.get(listener)] *)
Fixpoint tl_get (l : listener) (m : list (listener * listenerData)) : option listenerData :=
  match m with
  | [] => None
  | (k, d) :: m' => if same_listener k l then Some d else tl_get l m'
  end.

(** [this._timeListeners.set(listener, data)]: in place when the key is
    there, at the end when it is new. *)
Fixpoint tl_set (l : listener) (d : listenerData) (m : list (listener * listenerData))
  : list (listener * listenerData) :=
  match m with
  | [] => [(l, d)]
  | (k, d0) :: m' => if same_listener k l then (k, d) :: m' else (k, d0) :: tl_set l d m'
  end.

(** [this._timeListeners.delete(listener)] *)
Definition tl_delete (l : listener) (m : list (listener * listenerData))
  : list (listener * listenerData) :=
  filter (fun kd => negb (same_listener (fst kd) l)) m.

(** [this._eventListeners.get(event)] *)
Fixpoint el_get (event : string) (m : list (string * list nat)) : option (list nat) :=
  match m with
  | [] => None
  | (k, fs) :: m' => if String.eqb k event then Some fs else el_get event m'
  end.

Fixpoint el_set (event : string) (fs : list nat) (m : list (string * list nat))
  : list (string * list nat) :=
  match m with
  | [] => [(event, fs)]
  | (k, fs0) :: m' =>
      if String.eqb k event then (k, fs) :: m' else (k, fs0) :: el_set event fs m'
  end.

(** [listeners.indexOf(callback)] *)
Fixpoint indexOf (callback : nat) (fs : list nat) : option nat :=
  match fs with
  | [] => None
  | f :: fs' =>
      if Nat.eqb f callback then Some O
      else option_map S (indexOf callback fs')
  end.

(** [listeners.splice(i, 1)] *)
Fixpoint splice1 (i : nat) (fs : list nat) : list nat :=
  match fs, i with
  | [], _ => []
  | _ :: fs', O => fs'
  | f :: fs', S i' => f :: splice1 i' fs'
  end.

(** ** Timers of the host *)

(** The pending timers without the timer [id]. *)
Definition cancel (id : nat) (ts : list timer) : list timer :=
  filter (fun t => negb (Nat.eqb (t_id t) id)) ts.

Definition with_timers (ts : list timer) (w : world) : world :=
  {| this := this w; now := now w; timers := ts;
     next_timeout := next_timeout w; next_object := next_object w |}.

(** [clearTimeout(id)] *)
Definition clearTimeout (id : nat) : M unit :=
  fun w => Returns tt (with_timers (cancel id (timers w)) w) [].

(** [setTimeout(closure, delay)]: returns the new identifier. *)
Definition setTimeout (run : closure) (delay : num) : M nat :=
  fun w =>
    Returns (next_timeout w)
      {| this := this w; now := now w;
         timers := timers w ++ [{| t_id := next_timeout w; t_delay := delay; t_run := run |}];
         next_timeout := S (next_timeout w); next_object := next_object w |} [].

(** A fresh array [[time, callback]]. *)
Definition new_listener (time : num) (callback : nat) : M listener :=
  fun w =>
    Returns {| l_id := next_object w; l_time := time; l_callback := callback |}
      {| this := this w; now := now w; timers := timers w;
         next_timeout := next_timeout w; next_object := S (next_object w) |} [].

Definition timeListeners_set (l : listener) (d : listenerData) : M unit :=
  update (fun c => with_timeListeners (tl_set l d (_timeListeners c)) c).

Definition timeListeners_delete (l : listener) : M unit :=
  update (fun c => with_timeListeners (tl_delete l (_timeListeners c)) c).

(** ** The listener scheduler (lines 151-277) *)

(** The clock time until the listener is due, before looping is taken into
    account (lines 189-193). *)
Definition until_direct (c : clock) (time currentTime : num) : num :=
  if JS.gt (_rate c) JS.zero
  then Double.sub time currentTime
  else Double.sub currentTime time.

(** Lines 198-206: one more lap when the target lies behind, the rate
    factored in by its reciprocal, the result rounded up. *)
Definition until_delay (c : clock) (until : num) : num :=
  let until := if JS.lt until JS.zero
               then Double.add until (Double.sub (_maximum c) (_minimum c))
               else until in
  let until := Double.mul until (Double.div JS.one (JS.abs (_rate c))) in
  JS.ceil until.

(** Line 171. *)
Definition reachable (c : clock) (time : num) : bool :=
  _running c && JS.ne (_rate c) JS.zero
  && JS.ge time (_minimum c) && JS.le time (_maximum c).

Definition _recalculateTimeListener (l : listener) : M unit :=
  listenerData <- read (fun c => tl_get l (_timeListeners c)) ;;
  match listenerData with
  | None => ret tt
  | Some d =>
      let time := l_time l in
      clearTimeout (timeoutId d) ;;
      c <- read (fun c => c) ;;
      if reachable c time then
        currentTime <- get_time ;;
        if JS.eq currentTime (lastCalled d) then
          if _loop c
             || (JS.ne currentTime (_minimum c) && JS.ne currentTime (_maximum c))
          then
            id <- setTimeout (Retry l) (Fin 1) ;;
            timeListeners_set l
              {| timeoutId := id; lastCalled := lastCalled d; once := once d |}
          else ret tt
        else
          let until := until_direct c time currentTime in
          if JS.ge until JS.zero || can_loop c then
            id <- setTimeout (Fire l) (until_delay c until) ;;
            timeListeners_set l
              {| timeoutId := id; lastCalled := NaN; once := once d |}
          else ret tt
      else ret tt
  end.

Fixpoint for_each {A} (f : A -> M unit) (xs : list A) : M unit :=
  match xs with
  | [] => ret tt
  | x :: xs' => f x ;; for_each f xs'
  end.

(** No key is added or removed while the loop runs, so the keys are those
    at its start. *)
Definition _recalculateTimeListeners : M unit :=
  keys <- read (fun c => map fst (_timeListeners c)) ;;
  for_each _recalculateTimeListener keys ;;
  record Recalculated.

Definition onceAt (time : num) (callback : nat) : M unit :=
  listener <- new_listener time callback ;;
  timeListeners_set listener {| timeoutId := 0; lastCalled := NaN; once := true |} ;;
  _recalculateTimeListener listener.

Definition alwaysAt (time : num) (callback : nat) : M unit :=
  listener <- new_listener time callback ;;
  timeListeners_set listener {| timeoutId := 0; lastCalled := NaN; once := false |} ;;
  _recalculateTimeListener listener.

(** Line 270. *)
Definition matches (time : num) (callback : nat) (l : listener) : bool :=
  JS.eq (l_time l) time && Nat.eqb (l_callback l) callback.

Definition removeAt (time : num) (callback : nat) : M unit :=
  keys <- read (fun c => map fst (_timeListeners c)) ;;
  for_each (fun listener =>
              if matches time callback listener
              then timeListeners_delete listener
              else ret tt) keys.

(** ** Construction, events and the public operations *)

(** [new VirtualClock()], given the reading of the wall clock. *)
Definition constructor (wall : Q) : clock :=
  {| _previousTime := Fin 0; _previousNow := Fin wall; _rate := Fin 1;
     _running := false; _minimum := NegInf; _maximum := PosInf; _loop := false;
     _eventListeners := []; _timeListeners := [] |}.

(** [on(event, callback)] *)
Definition on (event : string) (callback : nat) : M unit :=
  listeners <- read (fun c => el_get event (_eventListeners c)) ;;
  match listeners with
  | Some fs =>
      update (fun c => with_eventListeners
                         (el_set event (fs ++ [callback]) (_eventListeners c)) c)
  | None =>
      update (fun c => with_eventListeners
                         (el_set event [callback] (_eventListeners c)) c)
  end.

(** [off(event, callback)] *)
Definition off (event : string) (callback : nat) : M unit :=
  listeners <- read (fun c => el_get event (_eventListeners c)) ;;
  match listeners with
  | Some fs =>
      match indexOf callback fs with
      | Some i =>
          update (fun c => with_eventListeners
                             (el_set event (splice1 i fs) (_eventListeners c)) c)
      | None => throw "Event listener not found"
      end
  | None => throw "Event listener not found"
  end.

Section Callbacks.

(** What calling function [f] with the clock as [this] does: any change of
    the clock and of the host's timers, decided outside the clock.  A
    callback that throws or loops is outside the model. *)
Variable behave : nat -> world -> world.

Definition apply (f : nat) : M unit := fun w => Returns tt (behave f w) [].

(** [trigger(event)]: the listeners of the event as they are when the call
    starts, each called in turn. *)
Definition trigger (event : string) : M unit :=
  record (Triggered event) ;;
  listeners <- read (fun c => el_get event (_eventListeners c)) ;;
  match listeners with
  | Some fs => for_each apply fs
  | None => ret tt
  end.

Definition start : M unit :=
  running <- read _running ;;
  when (negb running)
    (wall <- _now ;;
     update (with_previousNow wall) ;;
     update (with_running true) ;;
     _recalculateTimeListeners ;;
     trigger "start") ;;
  trigger "setrunning".

Definition stop : M unit :=
  running <- read _running ;;
  when running
    (t <- get_time ;;
     update (with_previousTime t) ;;
     update (with_running false) ;;
     _recalculateTimeListeners ;;
     trigger "stop") ;;
  trigger "setrunning".

(** [Math.min(Math.max(this._minimum, t), this._maximum)] *)
Definition clamp (c : clock) (t : num) : num :=
  JS.min (JS.max (_minimum c) t) (_maximum c).

Definition set_time (time : num) : M unit :=
  update (fun c => with_previousTime (clamp c time) c) ;;
  wall <- _now ;;
  update (with_previousNow wall) ;;
  _recalculateTimeListeners ;;
  trigger "settime".

Definition set_running (running : bool) : M unit :=
  if running then start else stop.

Definition set_rate (rate : num) : M unit :=
  running <- read _running ;;
  when running
    (t <- get_time ;;
     update (with_previousTime t) ;;
     wall <- _now ;;
     update (with_previousNow wall)) ;;
  update (with_rate rate) ;;
  _recalculateTimeListeners ;;
  trigger "setrate".

Definition set_minimum (minimum : num) : M unit :=
  previousTime <- get_time ;;
  maximum <- read _maximum ;;
  if JS.gt minimum maximum || JS.eq minimum PosInf
  then throw "Cannot set minimum above maximum"
  else
    update (with_minimum minimum) ;;
    update (fun c => with_previousTime (clamp c previousTime) c) ;;
    wall <- _now ;;
    update (with_previousNow wall) ;;
    _recalculateTimeListeners ;;
    trigger "setminimum".

Definition set_maximum (maximum : num) : M unit :=
  previousTime <- get_time ;;
  minimum <- read _minimum ;;
  if JS.lt maximum minimum || JS.eq maximum NegInf
  then throw "Cannot set maximum below minimum"
  else
    update (with_maximum maximum) ;;
    update (fun c => with_previousTime (clamp c previousTime) c) ;;
    wall <- _now ;;
    update (with_previousNow wall) ;;
    _recalculateTimeListeners ;;
    trigger "setmaximum".

Definition set_loop (loop : bool) : M unit :=
  t <- get_time ;;
  update (with_previousTime t) ;;
  wall <- _now ;;
  update (with_previousNow wall) ;;
  update (with_loop loop) ;;
  _recalculateTimeListeners ;;
  trigger "setloop".

(** ** Timers firing *)

(** The body of a pending timer's closure: the retry of line 181 or the
    firing of lines 210-229. *)
Definition run (cl : closure) : M unit :=
  match cl with
  | Retry l => _recalculateTimeListener l
  | Fire l =>
      listenerData <- read (fun c => tl_get l (_timeListeners c)) ;;
      match listenerData with
      | None => ret tt
      | Some d =>
          t <- get_time ;;
          timeListeners_set l {| timeoutId := 0; lastCalled := t; once := once d |} ;;
          record (Called (l_callback l)) ;;
          apply (l_callback l) ;;
          if once d
          then timeListeners_delete l
          else _recalculateTimeListener l
      end
  end.

(** The host fires the pending timer [id]: the timer leaves the table and
    its closure runs.  Nothing happens when no such timer is pending. *)
Definition fire (id : nat) : M unit :=
  fun w =>
    match find (fun t => Nat.eqb (t_id t) id) (timers w) with
    | None => Returns tt w []
    | Some t => (clearTimeout id ;; run (t_run t)) w
    end.

End Callbacks.

(** ** The getters of the configuration (lines 322-352) *)

Definition get_running : M bool := read _running.

Definition get_rate : M num := read _rate.

Definition get_minimum : M num := read _minimum.

Definition get_maximum : M num := read _maximum.

Definition get_loop : M bool := read _loop.

(** * Notions of the specification *)

(** ** Bounds and well-formed clocks *)

(** [t] within the closed bounds of [c]. *)
Definition within (c : clock) (t : num) : bool :=
  JS.le (_minimum c) t && JS.le t (_maximum c).

(** [t] inside the range the getter of [c] returns values in: the closed
    bounds, without the maximum when the clock loops. *)
Definition inside (c : clock) (t : num) : bool :=
  JS.le (_minimum c) t
  && (if can_loop c then JS.lt t (_maximum c) else JS.le t (_maximum c)).

(** The reference time of the clock lies within its bounds. *)
Definition calibrated (c : clock) : bool := within c (_previousTime c).



(** The loops of the getter never end when the span is not a positive
    number. *)
Definition flat_span (c : clock) : Prop :=
  match span c with
  | NegInf => True
  | Fin s => (s <= 0)%Q
  | _ => False
  end.


Arguments time : simpl never.
Arguments bound_time : simpl never.

(** ** Worlds after a step of the scheduler *)

(** The world once the timer [id] is cleared. *)
Definition cleared (id : nat) (w : world) : world :=
  with_timers (cancel id (timers w)) w.

(** The world once the listener's entry holds a new timer: [setTimeout]
    followed by [this._timeListeners.set]. *)
Definition armed (run : closure) (delay : num) (l : listener) (last : num)
           (one_shot : bool) (w : world) : world :=
  {| this := with_timeListeners
               (tl_set l {| timeoutId := next_timeout w; lastCalled := last;
                            once := one_shot |}
                       (_timeListeners (this w))) (this w);
     now := now w;
     timers := timers w ++ [{| t_id := next_timeout w; t_delay := delay; t_run := run |}];
     next_timeout := S (next_timeout w);
     next_object := next_object w |}.


(** Registration, as [onceAt] and [alwaysAt] both do it. *)
Definition register (time : num) (callback : nat) (one_shot : bool) : M unit :=
  listener <- new_listener time callback ;;
  timeListeners_set listener {| timeoutId := 0; lastCalled := NaN; once := one_shot |} ;;
  _recalculateTimeListener listener.

(** The listener a closure was made for. *)
Definition target (cl : closure) : listener :=
  match cl with Retry l | Fire l => l end.

(** The timer identifiers held by the entries of the given keys. *)
Definition held (m : list (listener * listenerData)) (keys : list listener) : list nat :=
  flat_map (fun l => match tl_get l m with
                     | Some d => [timeoutId d]
                     | None => []
                     end) keys.

(** The pending timers without the timers [ids]. *)
Definition cancel_all (ids : list nat) (ts : list timer) : list timer :=
  filter (fun t => negb (existsb (Nat.eqb (t_id t)) ids)) ts.

(** The configuration of a clock: all its fields but the time listeners. *)
Definition config (c : clock) : clock := with_timeListeners [] c.

(** What a recomputation leaves alone. *)
Definition kept (w w' : world) : Prop :=
  config (this w') = config (this w) /\ now w' = now w /\
  map fst (_timeListeners (this w')) = map fst (_timeListeners (this w)) /\
  next_object w' = next_object w.

(** Whether the loop of [removeAt] over [keys] deletes the entry [kd]. *)
Definition deleted (time : num) (callback : nat) (keys : list listener)
           (kd : listener * listenerData) : bool :=
  existsb (fun l => matches time callback l && same_listener (fst kd) l) keys.

(** The claim that [removeAt] clears the timer of each entry it removes. *)
Definition removal_cancels (w : world) (time : num) (callback : nat) : Prop :=
  forall w', removeAt time callback w = Returns tt w' [] ->
  forall l d t,
    In (l, d) (_timeListeners (this w)) -> matches time callback l = true ->
    In t (timers w') -> t_id t <> timeoutId d.

(** ** The invariant of the timer table *)

(** Every pending timer made for a registered listener is the one the
    listener's entry holds. *)
Definition owned (w : world) : Prop :=
  forall t d,
    In t (timers w) ->
    tl_get (target (t_run t)) (_timeListeners (this w)) = Some d ->
    timeoutId d = t_id t.

(** No pending timer was made for a registered listener. *)
Definition quiet (w : world) : Prop :=
  forall t, In t (timers w) ->
            tl_get (target (t_run t)) (_timeListeners (this w)) = None.

(** Timers and listeners carry identities that were handed out already, and
    the pending timers are owned. *)
Definition tidy (w : world) : Prop :=
  owned w /\
  (forall t, In t (timers w) ->
             (t_id t < next_timeout w)%nat /\
             (l_id (target (t_run t)) < next_object w)%nat) /\
  (forall k, In k (map fst (_timeListeners (this w))) -> (l_id k < next_object w)%nat).

(** Callbacks that keep the invariant, as the public operations do. *)
Definition well_behaved (behave : nat -> world -> world) : Prop :=
  forall f w, tidy w -> tidy (behave f w).

(** ** Events *)

(** The callbacks attached to an event. *)
Definition attached (event : string) (c : clock) : list nat :=
  match el_get event (_eventListeners c) with
  | Some fs => fs
  | None => []
  end.

Section Observers.

Variable behave : nat -> world -> world.

(** The world after the listeners attached to [event] have run in turn. *)
Definition dispatch (event : string) (w : world) : world :=
  fold_left (fun w f => behave f w) (attached event (this w)) w.

Definition dispatch_all (events : list string) (w : world) : world :=
  fold_left (fun w event => dispatch event w) events w.

End Observers.

(** Callbacks that do nothing. *)
Definition idle (f : nat) (w : world) : world := w.

(** ** The operations as a state update, a recomputation and events *)

Inductive operation : Type :=
| Start
| Stop
| SetTime (time : num)
| SetRate (rate : num)
| SetMinimum (minimum : num)
| SetMaximum (maximum : num)
| SetLoop (loop : bool).

(** The events an operation announces after its state update, in order. *)
Definition announced (op : operation) : list string :=
  match op with
  | Start => ["start"; "setrunning"]
  | Stop => ["stop"; "setrunning"]
  | SetTime _ => ["settime"]
  | SetRate _ => ["setrate"]
  | SetMinimum _ => ["setminimum"]
  | SetMaximum _ => ["setmaximum"]
  | SetLoop _ => ["setloop"]
  end%string.

(** Calibration: the reference pair set to [(t, wall)]. *)
Definition calibrate (t : num) (wall : Q) (c : clock) : clock :=
  with_previousNow (Fin wall) (with_previousTime t c).

(** The state update of an operation, following section 4.1 of the
    specification; [None] when the operation updates nothing: [start] on a
    running clock, [stop] on a stopped one, a rejected bound, or a getter
    that does not return. *)
Definition updated (op : operation) (c : clock) (wall : Q) : option clock :=
  match op with
  | Start =>
      if _running c then None
      else Some (with_running true (with_previousNow (Fin wall) c))
  | Stop =>
      if _running c
      then option_map (fun t => with_running false (with_previousTime t c)) (time c wall)
      else None
  | SetTime t => Some (calibrate (clamp c t) wall c)
  | SetRate r =>
      if _running c
      then option_map (fun t => with_rate r (calibrate t wall c)) (time c wall)
      else Some (with_rate r c)
  | SetMinimum m =>
      match time c wall with
      | None => None
      | Some t =>
          if JS.gt m (_maximum c) || JS.eq m PosInf then None
          else let c1 := with_minimum m c in Some (calibrate (clamp c1 t) wall c1)
      end
  | SetMaximum m =>
      match time c wall with
      | None => None
      | Some t =>
          if JS.lt m (_minimum c) || JS.eq m NegInf then None
          else let c1 := with_maximum m c in Some (calibrate (clamp c1 t) wall c1)
      end
  | SetLoop b => option_map (fun t => with_loop b (calibrate t wall c)) (time c wall)
  end.

(** The number an operation is given, if any, is not [NaN]. *)
Definition takes_number (op : operation) : bool :=
  match op with
  | SetTime x | SetMinimum x | SetMaximum x => negb (JS.is_nan x)
  | _ => true
  end.

Section Operations.

Variable behave : nat -> world -> world.

Definition perform (op : operation) : M unit :=
  match op with
  | Start => start behave
  | Stop => stop behave
  | SetTime t => set_time behave t
  | SetRate r => set_rate behave r
  | SetMinimum m => set_minimum behave m
  | SetMaximum m => set_maximum behave m
  | SetLoop b => set_loop behave b
  end.

(** A sequence of operations, up to the first that does not return. *)
Fixpoint perform_all (ops : list operation) : M unit :=
  match ops with
  | [] => ret tt
  | op :: ops' => perform op ;; perform_all ops'
  end.


End Operations.

Arguments trigger : simpl never.
Arguments _recalculateTimeListeners : simpl never.
Arguments _recalculateTimeListener : simpl never.

(** ** Sample worlds *)

(** A world that holds the clock [c] and nothing else. *)
Definition bare (c : clock) (wall : Q) : world :=
  {| this := c; now := wall; timers := []; next_timeout := 1; next_object := 0 |}.

(** A stopped clock with the given bounds and loop flag, at time [prev]. *)
Definition stopped_clock (lo hi : num) (loop : bool) (prev : num) : clock :=
  {| _previousTime := prev; _previousNow := Fin 0; _rate := Fin 1;
     _running := false; _minimum := lo; _maximum := hi; _loop := loop;
     _eventListeners := []; _timeListeners := [] |}.

(** A repeating listener for time 5 with callback 7, and an entry before
    any timer was armed. *)
Definition at_five : listener := {| l_id := 0; l_time := Fin 5; l_callback := 7 |}.

Definition fresh_entry (one_shot : bool) : listenerData :=
  {| timeoutId := 0; lastCalled := NaN; once := one_shot |}.

(** A clock looping over [0, 10) at rate 2, started at wall-clock time 0 on
    time 0, with [at_five] registered and a listener 3 attached to [stop];
    the world reads it at wall-clock time 1. *)
Definition lap_clock : clock :=
  {| _previousTime := Fin 0; _previousNow := Fin 0; _rate := Fin 2;
     _running := true; _minimum := Fin 0; _maximum := Fin 10; _loop := true;
     _eventListeners := [("stop"%string, [3%nat])];
     _timeListeners := [(at_five, fresh_entry false)] |}.

Definition lap_world : world :=
  {| this := lap_clock; now := 1; timers := []; next_timeout := 1; next_object := 1 |}.

(** The same world once the listener's timer is armed. *)
Definition lap_world_armed : world :=
  {| this := with_timeListeners
               [(at_five, {| timeoutId := 1; lastCalled := NaN; once := false |})]
               lap_clock;
     now := 1;
     timers := [{| t_id := 1; t_delay := Fin 2; t_run := Fire at_five |}];
     next_timeout := 2; next_object := 1 |}.

(** [lap_world_armed] with the clock stopped at time 2. *)
Definition lap_world_parked : world :=
  with_clock (with_running false (with_previousTime (Fin 2) (this lap_world_armed)))
             lap_world_armed.

(** * Further notions *)

(** ** Lists of event listeners *)

(** [fs] without the first occurrence of [f]. *)
Fixpoint remove_first (f : nat) (fs : list nat) : list nat :=
  match fs with
  | [] => []
  | g :: fs' => if Nat.eqb g f then fs' else g :: remove_first f fs'
  end.

(** ** Readings of the getter *)

(** Two readings of the getter agree: the same number, or no return on
    either side. *)
Definition same_reading (a b : option num) : Prop :=
  match a, b with
  | Some x, Some y => JS.same x y
  | None, None => True
  | _, _ => False
  end.

(** ** Worlds around the call of a time listener *)

(** The world in which the callback of a fired listener runs: the timer
    [id] is out of the table and the entry holds the time of the call. *)
Definition stamped (id : nat) (l : listener) (t : num) (one_shot : bool)
           (w : world) : world :=
  with_clock
    (with_timeListeners
       (tl_set l {| timeoutId := 0; lastCalled := t; once := one_shot |}
               (_timeListeners (this w))) (this w))
    (cleared id w).

(** The world without the entry of the listener. *)
Definition unregistered (l : listener) (w : world) : world :=
  with_clock (with_timeListeners (tl_delete l (_timeListeners (this w))) (this w)) w.

(** ** Registration *)

(** The listener that a registration in [w] creates. *)
Definition newcomer (due : num) (callback : nat) (w : world) : listener :=
  {| l_id := next_object w; l_time := due; l_callback := callback |}.

(** The world once the entry of the new listener is in the table, before
    its timer is computed. *)
Definition entered (due : num) (callback : nat) (one_shot : bool) (w : world) : world :=
  {| this := with_timeListeners
               (tl_set (newcomer due callback w)
                       {| timeoutId := 0; lastCalled := NaN; once := one_shot |}
                       (_timeListeners (this w))) (this w);
     now := now w; timers := timers w;
     next_timeout := next_timeout w; next_object := S (next_object w) |}.

(** ** Histories of a clock *)

(** The wall clock reads [wall] from now on. *)
Definition elapse (wall : Q) : M unit :=
  fun w =>
    Returns tt {| this := this w; now := wall; timers := timers w;
                  next_timeout := next_timeout w; next_object := next_object w |} [].

(** What can happen to a clock: a call of its interface, a pending timer
    firing, or the wall clock moving. *)
Inductive call : Type :=
| Operate (op : operation)
| SetRunning (running : bool)
| On (event : string) (callback : nat)
| Off (event : string) (callback : nat)
| OnceAt (due : num) (callback : nat)
| AlwaysAt (due : num) (callback : nat)
| RemoveAt (due : num) (callback : nat)
| Fires (id : nat)
| Elapses (wall : Q).

Section Histories.

Variable behave : nat -> world -> world.

Definition run_call (c : call) : M unit :=
  match c with
  | Operate op => perform behave op
  | SetRunning running => set_running behave running
  | On event callback => on event callback
  | Off event callback => off event callback
  | OnceAt due callback => onceAt due callback
  | AlwaysAt due callback => alwaysAt due callback
  | RemoveAt due callback => removeAt due callback
  | Fires id => fire behave id
  | Elapses wall => elapse wall
  end.

(** A history, up to the first call that does not return. *)
Fixpoint run_calls (cs : list call) : M unit :=
  match cs with
  | [] => ret tt
  | c :: cs' => run_call c ;; run_calls cs'
  end.

End Histories.

(** ** The timer table in order *)

(** Identifiers are handed out from 1 on and held once: no two pending
    timers share an identifier and none has the identifier 0, no two
    entries share an identity, an entry holds 0 or an identifier handed out
    already, and a pending timer whose identifier an entry holds was made
    for the listener of that entry. *)
Definition numbered (w : world) : Prop :=
  (0 < next_timeout w)%nat /\
  NoDup (map t_id (timers w)) /\
  (forall t, In t (timers w) -> t_id t <> 0%nat) /\
  NoDup (map l_id (map fst (_timeListeners (this w)))) /\
  (forall k d, In (k, d) (_timeListeners (this w)) ->
               (timeoutId d < next_timeout w)%nat) /\
  (forall t k d, In t (timers w) -> In (k, d) (_timeListeners (this w)) ->
                 timeoutId d = t_id t -> l_id (target (t_run t)) = l_id k).

Definition orderly (w : world) : Prop := tidy w /\ numbered w.

(** Callbacks that leave the timer table in order, as the calls of the
    interface do. *)
Definition considerate (behave : nat -> world -> world) : Prop :=
  forall f w, orderly w -> orderly (behave f w).

(** At most one pending timer was made for each registered listener, and
    it is the one the entry of the listener holds. *)
Definition single_timers (w : world) : Prop :=
  forall t d,
    In t (timers w) ->
    tl_get (target (t_run t)) (_timeListeners (this w)) = Some d ->
    timeoutId d = t_id t /\
    forall t', In t' (timers w) ->
               l_id (target (t_run t')) = l_id (target (t_run t)) -> t' = t.

(** ** What a recomputation decides *)



(** ** Errors *)

(** A computation that returns or never returns, and throws nothing. *)
Definition never_throws {A} (m : M A) : Prop :=
  forall w message w' tr, m w <> Throws message w' tr.

(** ** More sample worlds *)


(** [lap_world_armed] with the listener registered by [onceAt]. *)
Definition lap_world_once : world :=
  {| this := with_timeListeners
               [(at_five, {| timeoutId := 1; lastCalled := NaN; once := true |})]
               lap_clock;
     now := 1;
     timers := [{| t_id := 1; t_delay := Fin 2; t_run := Fire at_five |}];
     next_timeout := 2; next_object := 1 |}.


Definition above_three : num := Fin (6755399441055745 # 2251799813685248).

Definition at_above_three : listener :=
  {| l_id := 0; l_time := above_three; l_callback := 7 |}.

(** The double nearest to one tenth. *)
Definition tenth : num := Fin (3602879701896397 # 36028797018963968).

(** A listener for time 5 is registered on a new clock, the clock is
    started, five milliseconds pass and the timer of the listener fires. *)
Definition sample_history : list call :=
  [OnceAt (Fin 5) 7; Operate Start; Elapses 5; Fires 1].

(** * Properties *)

(** ** Numbers *)

(** The boolean comparisons of rationals as propositions. *)
Lemma Qle_bool_false (a b : Q) : Qle_bool a b = false <-> (b < a)%Q.
Proof.
  split; intros H.
  - apply Qnot_le_lt. intros L. apply Qle_bool_iff in L. congruence.
  - destruct (Qle_bool a b) eqn:E; [ | reflexivity ].
    apply Qle_bool_iff in E. lra.
Qed.

Lemma Qltb_true (a b : Q) : JS.Qltb a b = true <-> (a < b)%Q.
Proof.
  unfold JS.Qltb. rewrite negb_true_iff. apply Qle_bool_false.
Qed.

Lemma Qltb_false (a b : Q) : JS.Qltb a b = false <-> (b <= a)%Q.
Proof.
  unfold JS.Qltb. rewrite negb_false_iff. apply Qle_bool_iff.
Qed.

Lemma Qeq_bool_false (a b : Q) : Qeq_bool a b = false <-> ~ (a == b)%Q.
Proof.
  split.
  - apply Qeq_bool_neq.
  - intros H. destruct (Qeq_bool a b) eqn:E; [ | reflexivity ].
    apply Qeq_bool_iff in E. contradiction.
Qed.

Ltac qprop :=
  repeat match goal with
  | H : Qle_bool _ _ = true |- _ => apply Qle_bool_iff in H
  | H : Qle_bool _ _ = false |- _ => apply Qle_bool_false in H
  | H : JS.Qltb _ _ = true |- _ => apply Qltb_true in H
  | H : JS.Qltb _ _ = false |- _ => apply Qltb_false in H
  | H : Qeq_bool _ _ = true |- _ => apply Qeq_bool_iff in H
  | H : Qeq_bool _ _ = false |- _ => apply Qeq_bool_false in H
  | |- Qle_bool _ _ = true => apply Qle_bool_iff
  | |- Qle_bool _ _ = false => apply Qle_bool_false
  | |- JS.Qltb _ _ = true => apply Qltb_true
  | |- JS.Qltb _ _ = false => apply Qltb_false
  | |- Qeq_bool _ _ = true => apply Qeq_bool_iff
  | |- Qeq_bool _ _ = false => apply Qeq_bool_false
  end.

Lemma inject_succ (n : nat) :
  inject_Z (Z.of_nat (S n)) = (inject_Z (Z.of_nat n) + 1)%Q.
Proof.
  rewrite Nat2Z.inj_succ. unfold Z.succ. rewrite inject_Z_plus. reflexivity.
Qed.

(** [JS.same] is an equivalence. *)
Lemma same_refl (a : num) : JS.same a a.
Proof. destruct a; simpl; auto. reflexivity. Qed.

Lemma same_sym (a b : num) : JS.same a b -> JS.same b a.
Proof. destruct a, b; simpl; auto. intros H. symmetry. exact H. Qed.

Lemma same_trans (a b c : num) : JS.same a b -> JS.same b c -> JS.same a c.
Proof.
  destruct a, b, c; simpl; auto; try contradiction.
  intros H1 H2. rewrite H1. exact H2.
Qed.

Ltac qcases :=
  repeat match goal with
  | |- context [JS.Qltb ?a ?b] => destruct (JS.Qltb a b) eqn:?; simpl
  | |- context [Qle_bool ?a ?b] => destruct (Qle_bool a b) eqn:?; simpl
  | |- context [Qeq_bool ?a ?b] => destruct (Qeq_bool a b) eqn:?; simpl
  end.

(** [Math.min(Math.max(lo, t), hi)] lies within ordered bounds. *)
Lemma clamp_within (lo hi t : num) :
  JS.le lo hi = true -> JS.is_nan t = false ->
  JS.le lo (JS.min (JS.max lo t) hi) = true /\
  JS.le (JS.min (JS.max lo t) hi) hi = true.
Proof.
  intros Hle Hnan.
  destruct lo as [| |lo|], hi as [| |hi|], t as [| |t|]; try discriminate;
    simpl in *; auto;
    repeat match goal with
    | |- context [JS.Qltb ?a ?b] => destruct (JS.Qltb a b) eqn:?; simpl
    end; qprop; split; qprop; try reflexivity; try lra.
Qed.

(** A value within the bounds is its own clamp. *)
Lemma clamp_fixed (lo hi u t : num) :
  JS.same u t -> JS.le lo t = true -> JS.le t hi = true ->
  JS.same (JS.min (JS.max lo u) hi) t.
Proof.
  destruct lo as [| |lo|], hi as [| |hi|], u as [| |u|], t as [| |t|];
    simpl; intros Hs H1 H2; try discriminate; try contradiction; auto;
    qcases; simpl; qprop; try lra; try exact I.
Qed.

(** Clamping respects the number and changes nothing the second time. *)
Lemma clamp_same (lo hi u v : num) :
  JS.same u v -> JS.same (JS.min (JS.max lo u) hi) (JS.min (JS.max lo v) hi).
Proof.
  destruct lo as [| |lo|], hi as [| |hi|], u as [| |u|], v as [| |v|];
    simpl; intros Hs; try contradiction; auto;
    qcases; simpl; qprop; try lra; try exact I.
Qed.

Lemma clamp_twice (lo hi t : num) :
  JS.same (JS.min (JS.max lo (JS.min (JS.max lo t) hi)) hi) (JS.min (JS.max lo t) hi).
Proof.
  destruct lo as [| |lo|], hi as [| |hi|], t as [| |t|];
    simpl; auto; qcases; simpl; qcases; simpl; qprop; try lra; try exact I.
Qed.

(** Signs, remainders and floors. *)
Lemma Qsign_pos (a : Q) : (0 < a)%Q -> JS.Qsign a = Gt.
Proof. intros H. apply Qgt_alt. exact H. Qed.


Lemma Qfloor_unit (q : Q) : (0 <= q)%Q -> (q < 1)%Q -> Qfloor q = 0%Z.
Proof.
  intros H0 H1.
  pose proof (Qfloor_le q) as Hf. pose proof (Qlt_floor q) as Hc.
  assert (A : (inject_Z (Qfloor q) < inject_Z 1)%Q) by (change (inject_Z 1) with 1%Q; lra).
  assert (B : (inject_Z (-1) < inject_Z (Qfloor q))%Q).
  { rewrite inject_Z_plus in Hc. change (inject_Z 1) with 1%Q in Hc.
    change (inject_Z (-1)) with (-1 # 1)%Q. lra. }
  rewrite <- Zlt_Qlt in A. rewrite <- Zlt_Qlt in B. lia.
Qed.

Lemma rem_fixed (x hi : Q) :
  (0 <= x)%Q -> (x < hi)%Q -> JS.same (JS.rem (Fin x) (Fin hi)) (Fin x).
Proof.
  intros Hx Hhi. unfold JS.rem. rewrite Qsign_pos by lra.
  assert (Hq0 : (0 <= x / hi)%Q) by (apply Qle_shift_div_l; lra).
  assert (Hq1 : (x / hi < 1)%Q) by (apply Qlt_shift_div_r; lra).
  unfold JS.Qtrunc. apply Qle_bool_iff in Hq0. rewrite Hq0. apply Qle_bool_iff in Hq0.
  rewrite (Qfloor_unit Hq0 Hq1). simpl. ring.
Qed.


(** ** The time getter *)

(** More fuel never changes the result of a loop. *)
Lemma append_laps_mono (c : clock) (n : nat) :
  forall m t r, (n <= m)%nat -> append_laps n c t = Some r -> append_laps m c t = Some r.
Proof.
  induction n as [|n IH]; intros m t r Hle H; [ discriminate | ].
  destruct m as [|m]; [ lia | ].
  simpl in *. destruct (JS.lt (JS.add t (span c)) (_minimum c)); [ | exact H ].
  apply IH; [ lia | exact H ].
Qed.

Lemma substract_laps_mono (c : clock) (n : nat) :
  forall m t r, (n <= m)%nat -> substract_laps n c t = Some r -> substract_laps m c t = Some r.
Proof.
  induction n as [|n IH]; intros m t r Hle H; [ discriminate | ].
  destruct m as [|m]; [ lia | ].
  simpl in *. destruct (JS.ge t (_maximum c)); [ | exact H ].
  apply IH; [ lia | exact H ].
Qed.

(** Over finite bounds that are apart both loops of [time], whose
    arithmetic is exact, end within the bounds after a number of laps that
    [laps] covers. *)
Section FiniteLoop.
Variable c : clock.
Variables lo hi : Q.
Hypothesis Hmin : _minimum c = Fin lo.
Hypothesis Hmax : _maximum c = Fin hi.
Hypothesis Hspan : (lo < hi)%Q.

Lemma span_finite : span c = Fin (hi + - lo).
Proof. unfold span. rewrite Hmin, Hmax. reflexivity. Qed.

Lemma append_laps_ends (n : nat) :
  forall x, (x < lo)%Q ->
    (lo - x <= inject_Z (Z.of_nat n) * (hi - lo))%Q ->
    exists y, append_laps n c (Fin x) = Some (Fin y) /\ (lo <= y)%Q /\ (y < hi)%Q.
Proof.
  induction n as [|n IH]; intros x Hx Hn.
  - change (inject_Z (Z.of_nat 0)) with 0%Q in Hn. lra.
  - simpl append_laps. rewrite span_finite, Hmin. simpl.
    destruct (JS.Qltb (x + (hi + - lo)) lo) eqn:E; qprop.
    + apply IH; [ exact E | ].
      rewrite inject_succ in Hn. lra.
    + exists (x + (hi + - lo))%Q. split; [ reflexivity | lra ].
Qed.

Lemma substract_laps_ends (n : nat) :
  forall x, (lo <= x)%Q ->
    (x - lo < inject_Z (Z.of_nat n) * (hi - lo))%Q ->
    exists y, substract_laps n c (Fin x) = Some (Fin y) /\ (lo <= y)%Q /\ (y < hi)%Q.
Proof.
  induction n as [|n IH]; intros x Hx Hn.
  - change (inject_Z (Z.of_nat 0)) with 0%Q in Hn. lra.
  - simpl substract_laps. rewrite Hmax. simpl.
    destruct (Qle_bool hi x) eqn:E; qprop.
    + rewrite span_finite. simpl. apply IH; [ lra | ].
      rewrite inject_succ in Hn. lra.
    + exists x. split; [ reflexivity | lra ].
Qed.

Lemma laps_cover (x : Q) :
  (Qabs (x - lo) < inject_Z (Z.of_nat (laps c (Fin x))) * (hi - lo))%Q.
Proof.
  unfold laps. rewrite Hmin, Hmax.
  set (q := (Qabs (x - lo) / (hi - lo))%Q).
  assert (Hq : (0 <= q)%Q).
  { unfold q. apply Qle_shift_div_l; [ lra | ]. 
    pose proof (Qabs_nonneg (x - lo)). lra. }
  assert (Hc : (0 <= Qceiling q)%Z).
  { rewrite <- (Qceiling_Z 0). apply Qceiling_resp_le. exact Hq. }
  rewrite !inject_succ, Z2Nat.id by exact Hc.
  pose proof (Qle_ceiling q) as Hle.
  assert (Hm : (q * (hi - lo) == Qabs (x - lo))%Q).
  { unfold q. field. lra. }
  assert (Hs : (q * (hi - lo) <= inject_Z (Qceiling q) * (hi - lo))%Q).
  { apply Qmult_le_compat_r; lra. }
  lra.
Qed.
End FiniteLoop.

(** Divergence by an invariant of the loop. *)
Lemma append_laps_diverges (c : clock) (P : num -> Prop) :
  (forall u, P u ->
     P (JS.add u (span c)) /\ JS.lt (JS.add u (span c)) (_minimum c) = true) ->
  forall n t, P t -> append_laps n c t = None.
Proof.
  intros Hinv. induction n as [|n IH]; intros t Ht; [ reflexivity | ].
  simpl. destruct (Hinv t Ht) as [HP Hlt]. rewrite Hlt. apply IH, HP.
Qed.

Lemma substract_laps_diverges (c : clock) (P : num -> Prop) :
  (forall u, P u ->
     JS.ge u (_maximum c) = true /\ P (JS.sub u (span c))) ->
  forall n t, P t -> substract_laps n c t = None.
Proof.
  intros Hinv. induction n as [|n IH]; intros t Ht; [ reflexivity | ].
  simpl. destruct (Hinv t Ht) as [Hge HP]. rewrite Hge. apply IH, HP.
Qed.

(** A span that is not positive keeps the first loop below the minimum and
    the second at or above the maximum for ever. *)
Lemma append_laps_flat (c : clock) (n : nat) (t : num) :
  flat_span c -> JS.lt t (_minimum c) = true -> append_laps n c t = None.
Proof.
  intros Hflat Ht.
  apply (@append_laps_diverges c (fun u => JS.lt u (_minimum c) = true)); [ | exact Ht ].
  intros u Hu. unfold flat_span in Hflat.
  assert (H : JS.lt (JS.add u (span c)) (_minimum c) = true); [ | split; exact H ].
  destruct (span c) as [| |s|]; try contradiction;
    destruct u as [| |x|]; try discriminate;
    destruct (_minimum c) as [| |lo|]; try discriminate; try reflexivity.
  simpl in *. qprop. lra.
Qed.

Lemma substract_laps_flat (c : clock) (n : nat) (t : num) :
  flat_span c -> JS.ge t (_maximum c) = true -> t <> NegInf ->
  substract_laps n c t = None.
Proof.
  intros Hflat Ht Hneg.
  apply (@substract_laps_diverges c
           (fun u => JS.ge u (_maximum c) = true /\ u <> NegInf)); [ | auto ].
  intros u [Hu Hn]. unfold flat_span in Hflat.
  split; [ exact Hu | ].
  destruct (span c) as [| |s|]; try contradiction;
    destruct u as [| |x|]; try discriminate; try congruence;
    destruct (_maximum c) as [| |hi|]; try discriminate;
    (split; [ try reflexivity | simpl; congruence ]).
  unfold JS.ge in *. simpl in *. qprop. lra.
Qed.

(** So does an infinite time. *)
Lemma append_laps_from_NegInf (c : clock) (n : nat) :
  can_loop c = true -> append_laps n c NegInf = None.
Proof.
  intros Hloop. unfold can_loop in Hloop.
  apply andb_prop in Hloop as [Hloop Hhi]. apply andb_prop in Hloop as [_ Hlo].
  apply (@append_laps_diverges c (fun u => u = NegInf)); [ | reflexivity ].
  intros u ->. unfold span.
  destruct (_minimum c) as [| |lo|]; try discriminate;
    destruct (_maximum c) as [| |hi|]; try discriminate; split; reflexivity.
Qed.

Lemma substract_laps_from_PosInf (c : clock) (n : nat) :
  can_loop c = true -> substract_laps n c PosInf = None.
Proof.
  intros Hloop. unfold can_loop in Hloop.
  apply andb_prop in Hloop as [Hloop Hhi]. apply andb_prop in Hloop as [_ Hlo].
  apply (@substract_laps_diverges c (fun u => u = PosInf)); [ | reflexivity ].
  intros u ->. unfold span.
  destruct (_minimum c) as [| |lo|]; try discriminate;
    destruct (_maximum c) as [| |hi|]; try discriminate; split; reflexivity.
Qed.

(** Under [can_loop] the span is a positive number or the loops are flat. *)
Lemma span_cases (c : clock) :
  can_loop c = true ->
  flat_span c \/
  exists lo hi, _minimum c = Fin lo /\ _maximum c = Fin hi /\ (lo < hi)%Q.
Proof.
  intros Hloop. unfold can_loop in Hloop.
  apply andb_prop in Hloop as [Hloop Hhi]. apply andb_prop in Hloop as [_ Hlo].
  unfold flat_span, span.
  destruct (_minimum c) as [| |lo|]; try discriminate;
    destruct (_maximum c) as [| |hi|]; try discriminate; simpl; auto.
  destruct (Qlt_le_dec lo hi) as [L|L].
  - right. exists lo, hi. auto.
  - left. lra.
Qed.

(** A loop that ends with some fuel ends with the fuel [laps] gives. *)
Lemma append_laps_stable (c : clock) (t r : num) (n : nat) :
  can_loop c = true -> JS.lt t (_minimum c) = true ->
  append_laps n c t = Some r -> append_laps (laps c t) c t = Some r.
Proof.
  intros Hloop Hlt Hn.
  destruct (span_cases c Hloop) as [Hflat | (lo & hi & Hmin & Hmax & Hspan)].
  - rewrite append_laps_flat in Hn by assumption. discriminate.
  - destruct t as [| |x|]; try (rewrite Hmin in Hlt; discriminate).
    + rewrite append_laps_from_NegInf in Hn by assumption. discriminate.
    + rewrite Hmin in Hlt. simpl in Hlt. qprop.
      pose proof (@laps_cover c lo hi Hmin Hmax Hspan x) as Hcover.
      assert (Hends : exists y, append_laps (laps c (Fin x)) c (Fin x) = Some (Fin y)
                                /\ (lo <= y)%Q /\ (y < hi)%Q).
      { eapply append_laps_ends; eauto.
        pose proof (Qle_Qabs (- (x - lo))) as Ha. rewrite Qabs_opp in Ha. lra. }
      destruct Hends as (y & Hy & _).
      destruct (Nat.le_ge_cases n (laps c (Fin x))) as [L|L].
      * eapply append_laps_mono; eassumption.
      * assert (E : append_laps n c (Fin x) = Some (Fin y))
          by (eapply append_laps_mono; eassumption).
        congruence.
Qed.

Lemma substract_laps_stable (c : clock) (t r : num) (n : nat) :
  can_loop c = true -> JS.lt t (_minimum c) = false ->
  substract_laps n c t = Some r -> substract_laps (laps c t) c t = Some r.
Proof.
  intros Hloop Hlt Hn.
  assert (H2 : exists k, laps c t = S k).
  { unfold laps. destruct t, (_minimum c), (_maximum c); eauto. }
  destruct H2 as (k & Hk).
  destruct (JS.ge t (_maximum c)) eqn:Hge.
  2:{ rewrite Hk. simpl. rewrite Hge. destruct n; [ discriminate | ].
      simpl in Hn. rewrite Hge in Hn. exact Hn. }
  destruct (span_cases c Hloop) as [Hflat | (lo & hi & Hmin & Hmax & Hspan)].
  - rewrite substract_laps_flat in Hn; [ discriminate | assumption .. | ].
    intros ->. unfold can_loop in Hloop.
    apply andb_prop in Hloop as [Hloop _]. apply andb_prop in Hloop as [_ Hlo].
    destruct (_minimum c); discriminate.
  - destruct t as [| |x|]; try (rewrite Hmax in Hge; discriminate).
    + rewrite Hmin in Hlt. simpl in Hlt. qprop.
      pose proof (@laps_cover c lo hi Hmin Hmax Hspan x) as Hcover.
      assert (Hends : exists y, substract_laps (laps c (Fin x)) c (Fin x) = Some (Fin y)
                                /\ (lo <= y)%Q /\ (y < hi)%Q).
      { eapply substract_laps_ends; eauto.
        pose proof (Qle_Qabs (x - lo)) as Ha. lra. }
      destruct Hends as (y & Hy & _).
      destruct (Nat.le_ge_cases n (laps c (Fin x))) as [L|L].
      * eapply substract_laps_mono; eassumption.
      * assert (E : substract_laps n c (Fin x) = Some (Fin y))
          by (eapply substract_laps_mono; eassumption).
        congruence.
    + rewrite substract_laps_from_PosInf in Hn by assumption. discriminate.
Qed.

Lemma bound_time_mono (c : clock) (n m : nat) (t r : num) :
  (n <= m)%nat -> bound_time n c t = Some r -> bound_time m c t = Some r.
Proof.
  intros L. unfold bound_time.
  destruct (can_loop c); [ | auto ].
  destruct (JS.lt t (_minimum c)); [ apply append_laps_mono; exact L | ].
  destruct (JS.eq (_minimum c) JS.zero); [ auto | ].
  apply substract_laps_mono; exact L.
Qed.

Lemma bound_time_stable (c : clock) (n : nat) (t r : num) :
  bound_time n c t = Some r -> bound_time (laps c t) c t = Some r.
Proof.
  unfold bound_time.
  destruct (can_loop c) eqn:Hloop; [ | auto ].
  destruct (JS.lt t (_minimum c)) eqn:Hlt; [ apply append_laps_stable; assumption | ].
  destruct (JS.eq (_minimum c) JS.zero); [ auto | ].
  apply substract_laps_stable; assumption.
Qed.

(** The getter with explicit fuel and [time] agree: more fuel never changes
    a result, and a result reached with any fuel is the one [time] gives. *)
Lemma time_fuel_mono (c : clock) (wall : Q) (n m : nat) (r : num) :
  (n <= m)%nat -> time_fuel n c wall = Some r -> time_fuel m c wall = Some r.
Proof. apply bound_time_mono. Qed.

Lemma time_stable (c : clock) (wall : Q) (n : nat) (r : num) :
  time_fuel n c wall = Some r -> time c wall = Some r.
Proof. apply bound_time_stable. Qed.

Lemma time_hangs (c : clock) (wall : Q) :
  time c wall = None <-> forall n, time_fuel n c wall = None.
Proof.
  split.
  - intros H n. destruct (time_fuel n c wall) as [r|] eqn:E; [ | reflexivity ].
    apply time_stable in E. congruence.
  - intros H. apply H.
Qed.

(** A value inside the range of the getter is returned as it is. *)
Lemma bound_time_fixed (c : clock) (u t : num) (fuel : nat) :
  JS.same u t -> inside c t = true ->
  exists t', bound_time (S fuel) c u = Some t' /\ JS.same t' t.
Proof.
  intros Hs Hin. unfold inside in Hin. apply andb_prop in Hin as [Hlo Hhi].
  unfold bound_time. destruct (can_loop c) eqn:Hloop.
  - unfold can_loop in Hloop.
    apply andb_prop in Hloop as [Hloop Hfin]. apply andb_prop in Hloop as [_ Hinf].
    destruct (_minimum c) as [| |lo|] eqn:Hmin; try discriminate;
      destruct (_maximum c) as [| |hi|] eqn:Hmax; try discriminate;
      destruct t as [| |x|]; try discriminate;
      destruct u as [| |y|]; try contradiction.
    simpl in Hs, Hlo, Hhi. qprop.
    simpl JS.lt. assert (E : JS.Qltb y lo = false) by (qprop; lra). rewrite E.
    simpl JS.eq. destruct (Qeq_bool lo 0) eqn:Hz; qprop.
    + exists (JS.rem (Fin y) (Fin hi)). split; [ reflexivity | ].
      eapply same_trans; [ apply rem_fixed; lra | exact Hs ].
    + exists (Fin y). split; [ | exact Hs ].
      simpl. rewrite Hmax. unfold JS.ge. simpl.
      assert (E2 : Qle_bool hi y = false) by (qprop; lra). rewrite E2. reflexivity.
  - eexists. split; [ reflexivity | ]. apply clamp_fixed; assumption.
Qed.

(** [bound_time] is [bound_time_with] over the addition and subtraction of
    the numbers. *)
Lemma append_laps_with_exact (c : clock) (n : nat) :
  forall t, append_laps_with JS.add JS.sub n c t = append_laps n c t.
Proof.
  induction n as [|n IH]; intros t; [ reflexivity | ].
  simpl. fold (span c). destruct (JS.lt (JS.add t (span c)) (_minimum c)); auto.
Qed.

Lemma substract_laps_with_exact (c : clock) (n : nat) :
  forall t, substract_laps_with JS.sub n c t = substract_laps n c t.
Proof.
  induction n as [|n IH]; intros t; [ reflexivity | ].
  simpl. fold (span c). destruct (JS.ge t (_maximum c)); auto.
Qed.

Lemma bound_time_with_exact (c : clock) (n : nat) (t : num) :
  bound_time_with JS.add JS.sub n c t = bound_time n c t.
Proof.
  unfold bound_time_with, bound_time.
  rewrite append_laps_with_exact, substract_laps_with_exact. reflexivity.
Qed.

Section AnyArithmeticBounds.
Variables plus minus : num -> num -> num.



(** A loop whose step keeps its test true never ends. *)
Lemma substract_laps_with_diverges (c : clock) (P : num -> Prop) :
  (forall u, P u ->
     JS.ge u (_maximum c) = true /\ P (minus u (minus (_maximum c) (_minimum c)))) ->
  forall n t, P t -> substract_laps_with minus n c t = None.
Proof.
  intros Hinv. induction n as [|n IH]; intros t Ht; [ reflexivity | ].
  simpl. destruct (Hinv t Ht) as [Hge HP]. rewrite Hge. apply IH, HP.
Qed.

End AnyArithmeticBounds.


(** With equal bounds other than 0 the getter of a looping clock never
    returns, whatever the fuel. *)
Lemma time_equal_bounds_hangs (b : Q) (prev : Q) (wall : Q) :
  ~ (b == 0)%Q ->
  forall fuel, time_fuel fuel (stopped_clock (Fin b) (Fin b) true (Fin prev)) wall = None.
Proof.
  intros Hb fuel. unfold time_fuel, bound_time. simpl.
  destruct (JS.Qltb prev b) eqn:E; qprop.
  - apply append_laps_flat; [ unfold flat_span; simpl; lra | simpl; qprop; lra ].
  - apply Qeq_bool_false in Hb. rewrite Hb.
    apply substract_laps_flat; [ unfold flat_span; simpl; lra | | discriminate ].
    unfold JS.ge. simpl. qprop. lra.
Qed.

(** ** Rejected bounds *)

Section RejectedBounds.
Variable behave : nat -> world -> world.

(** Where the clock displays a time [t], setting the minimum above the
    maximum or to [+Infinity], or the maximum below the minimum or to
    [-Infinity], throws and leaves the world as it was: the bounds, the
    reference pair and so the displayed time are those of before, and
    nothing was recomputed or announced. *)
Lemma invalid_bound_rejected (w : world) (t bound : num) :
  time (this w) (now w) = Some t ->
  (JS.gt bound (_maximum (this w)) = true \/ bound = PosInf ->
   set_minimum behave bound w = Throws "Cannot set minimum above maximum" w []) /\
  (JS.lt bound (_minimum (this w)) = true \/ bound = NegInf ->
   set_maximum behave bound w = Throws "Cannot set maximum below minimum" w []).
Proof.
  intros Ht. split; intros H.
  - unfold set_minimum, bind, get_time, read. rewrite Ht. simpl.
    destruct H as [H | ->]; [ rewrite H | rewrite orb_true_r ]; reflexivity.
  - unfold set_maximum, bind, get_time, read. rewrite Ht. simpl.
    destruct H as [H | ->]; [ rewrite H | rewrite orb_true_r ]; reflexivity.
Qed.

(** Without the assumption on the getter: an invalid bound is never
    accepted, a throw leaves the world as it was, and the setter fails to
    return only where the getter does. *)
Lemma invalid_minimum_never_set (w : world) (bound : num) :
  JS.gt bound (_maximum (this w)) = true \/ bound = PosInf ->
  match set_minimum behave bound w with
  | Returns _ _ _ => False
  | Throws _ w' tr => w' = w /\ tr = []
  | Hangs => time (this w) (now w) = None
  end.
Proof.
  intros H. unfold set_minimum, bind, get_time, read.
  destruct (time (this w) (now w)); [ | reflexivity ]. simpl.
  destruct H as [H | ->]; [ rewrite H | rewrite orb_true_r ]; simpl; auto.
Qed.

Lemma invalid_maximum_never_set (w : world) (bound : num) :
  JS.lt bound (_minimum (this w)) = true \/ bound = NegInf ->
  match set_maximum behave bound w with
  | Returns _ _ _ => False
  | Throws _ w' tr => w' = w /\ tr = []
  | Hangs => time (this w) (now w) = None
  end.
Proof.
  intros H. unfold set_maximum, bind, get_time, read.
  destruct (time (this w) (now w)); [ | reflexivity ]. simpl.
  destruct H as [H | ->]; [ rewrite H | rewrite orb_true_r ]; simpl; auto.
Qed.

(** C4, failing input.  From a new clock, [minimum = 5], [maximum = 5] and
    [loop = true] all return.  Then [minimum = 20], above the maximum, and
    [maximum = 1], below the minimum, throw nothing: each setter reads the
    time first, and the getter subtracts a span of 0 for ever, whatever
    the fuel. *)
Theorem invalid_bound_never_returns :
  exists w tr,
    perform_all behave [SetMinimum (Fin 5); SetMaximum (Fin 5); SetLoop true]
                (bare (constructor 0) 0) = Returns tt w tr /\
    JS.gt (Fin 20) (_maximum (this w)) = true /\
    JS.lt (Fin 1) (_minimum (this w)) = true /\
    (forall fuel, time_fuel fuel (this w) (now w) = None) /\
    set_minimum behave (Fin 20) w = Hangs /\
    set_maximum behave (Fin 1) w = Hangs.
Proof.
  eexists. eexists. split; [ vm_compute; reflexivity | ].
  split; [ reflexivity | ]. split; [ reflexivity | ].
  split; [ | split; reflexivity ].
  intros fuel. apply (@time_equal_bounds_hangs 5 5 0). discriminate.
Qed.
End RejectedBounds.

(** ** Removing listeners that are not there *)

Lemma indexOf_absent (callback : nat) (fs : list nat) :
  ~ In callback fs -> indexOf callback fs = None.
Proof.
  induction fs as [|f fs IH]; intros H; [ reflexivity | ].
  simpl. destruct (Nat.eqb f callback) eqn:E.
  - apply Nat.eqb_eq in E. subst. exfalso. apply H. left. reflexivity.
  - rewrite IH; [ reflexivity | ]. intros Hin. apply H. right. exact Hin.
Qed.

Lemma for_each_skip {A} (f : A -> M unit) (xs : list A) (w : world) :
  (forall x, In x xs -> f x w = Returns tt w []) ->
  for_each f xs w = Returns tt w [].
Proof.
  induction xs as [|x xs IH]; intros H; [ reflexivity | ].
  simpl. unfold bind. rewrite (H x (or_introl eq_refl)). simpl.
  rewrite IH; [ reflexivity | ].
  intros y Hy. apply H. right. exact Hy.
Qed.

(** C9.  [off] for a callback that is not attached to the event throws and
    leaves the world as it was; [removeAt] for a time and callback that
    match no registration returns and leaves the world as it was. *)
Theorem off_throws_removeAt_silent (w : world) (event : string) (time : num) (callback : nat) :
  (~ In callback (attached event (this w)) ->
   off event callback w = Throws "Event listener not found" w []) /\
  ((forall l d, In (l, d) (_timeListeners (this w)) -> matches time callback l = false) ->
   removeAt time callback w = Returns tt w []).
Proof.
  split.
  - unfold attached, off, bind, read. simpl.
    destruct (el_get event (_eventListeners (this w))) as [fs|]; intros H.
    + rewrite (indexOf_absent _ _ H). reflexivity.
    + reflexivity.
  - intros H. unfold removeAt, bind, read. simpl.
    rewrite for_each_skip; [ reflexivity | ].
    intros l Hl. apply in_map_iff in Hl as ([l' d] & <- & Hin).
    simpl. rewrite (H l' d Hin). reflexivity.
Qed.

(** The scheduler's step as a function of the world. *)
Lemma recalculate_unfold (l : listener) (w : world) :
  _recalculateTimeListener l w =
  match tl_get l (_timeListeners (this w)) with
  | None => Returns tt w []
  | Some d =>
      let c := this w in
      let w0 := cleared (timeoutId d) w in
      if reachable c (l_time l) then
        match time c (now w) with
        | None => Hangs
        | Some currentTime =>
            if JS.eq currentTime (lastCalled d) then
              if _loop c || (JS.ne currentTime (_minimum c)
                             && JS.ne currentTime (_maximum c))
              then Returns tt (armed (Retry l) (Fin 1) l (lastCalled d) (once d) w0) []
              else Returns tt w0 []
            else
              let until := until_direct c (l_time l) currentTime in
              if JS.ge until JS.zero || can_loop c
              then Returns tt (armed (Fire l) (until_delay c until) l NaN (once d) w0) []
              else Returns tt w0 []
        end
      else Returns tt w0 []
  end.
Proof.
  unfold _recalculateTimeListener, bind, read, clearTimeout, get_time. simpl.
  destruct (tl_get l (_timeListeners (this w))) as [d|]; [ | reflexivity ].
  simpl.
  destruct (reachable (this w) (l_time l)); [ | reflexivity ].
  simpl. destruct (time (this w) (now w)) as [cur|]; [ | reflexivity ].
  simpl.
  destruct (JS.eq cur (lastCalled d)).
  - match goal with |- context [if ?b then _ else _] => destruct b end; reflexivity.
  - match goal with |- context [if ?b then _ else _] => destruct b end; reflexivity.
Qed.




(** Worlds and outcomes up to eta. *)
Lemma after_nil {A} (o : outcome A) : after [] o = o.
Proof. destruct o; reflexivity. Qed.

Lemma with_timers_same (w : world) : with_timers (timers w) w = w.
Proof. destruct w; reflexivity. Qed.

Section Dispatch.
Variable behave : nat -> world -> world.

Lemma for_each_apply (fs : list nat) (w : world) :
  for_each (apply behave) fs w =
  Returns tt (fold_left (fun w f => behave f w) fs w) [].
Proof.
  revert w. induction fs as [|f fs IH]; intros w; [ reflexivity | ].
  simpl. unfold bind, apply at 1. rewrite IH. reflexivity.
Qed.

Lemma trigger_dispatch (event : string) (w : world) :
  trigger behave event w = Returns tt (dispatch behave event w) [Triggered event].
Proof.
  unfold trigger, bind, record, read, dispatch, attached. simpl.
  destruct (el_get event (_eventListeners (this w))) as [fs|]; simpl.
  - rewrite for_each_apply. reflexivity.
  - reflexivity.
Qed.
End Dispatch.

(** ** Recomputation keeps the configuration *)

(** The getter reads the configuration only. *)
Lemma append_laps_config (c c' : clock) (n : nat) :
  _minimum c = _minimum c' -> _maximum c = _maximum c' ->
  forall t, append_laps n c t = append_laps n c' t.
Proof.
  intros Hmin Hmax. induction n as [|n IH]; intros t; [ reflexivity | ].
  simpl. unfold span. rewrite Hmin, Hmax, IH. reflexivity.
Qed.

Lemma substract_laps_config (c c' : clock) (n : nat) :
  _minimum c = _minimum c' -> _maximum c = _maximum c' ->
  forall t, substract_laps n c t = substract_laps n c' t.
Proof.
  intros Hmin Hmax. induction n as [|n IH]; intros t; [ reflexivity | ].
  simpl. unfold span. rewrite Hmin, Hmax, IH. reflexivity.
Qed.

Lemma time_ignores_listeners (c : clock) (wall : Q) :
  time (config c) wall = time c wall.
Proof.
  unfold time, bound_time.
  change (raw_time (config c) wall) with (raw_time c wall).
  change (can_loop (config c)) with (can_loop c).
  change (laps (config c)) with (laps c).
  change (_minimum (config c)) with (_minimum c).
  change (_maximum (config c)) with (_maximum c).
  rewrite (@append_laps_config (config c) c), (@substract_laps_config (config c) c);
    reflexivity.
Qed.

Lemma time_config (c c' : clock) (wall : Q) :
  config c = config c' -> time c wall = time c' wall.
Proof.
  intros H. rewrite <- (time_ignores_listeners c), <- (time_ignores_listeners c'), H.
  reflexivity.
Qed.

Lemma tl_set_keys (l : listener) (d d' : listenerData) (m : list (listener * listenerData)) :
  tl_get l m = Some d -> map fst (tl_set l d' m) = map fst m.
Proof.
  induction m as [|[k d0] m IH]; simpl; [ discriminate | ].
  destruct (same_listener k l); simpl; [ reflexivity | ].
  intros H. rewrite IH by exact H. reflexivity.
Qed.

Lemma kept_refl (w : world) : kept w w.
Proof. repeat split. Qed.

Lemma kept_trans (w1 w2 w3 : world) : kept w1 w2 -> kept w2 w3 -> kept w1 w3.
Proof.
  intros (A1 & B1 & C1 & D1) (A2 & B2 & C2 & D2).
  repeat split; congruence.
Qed.

(** A recomputation returns unless the getter does not, and keeps the
    configuration, the wall clock and the keys. *)
Lemma recalculate_kept (l : listener) (w w' : world) (tr : list action) :
  _recalculateTimeListener l w = Returns tt w' tr -> tr = [] /\ kept w w'.
Proof.
  rewrite recalculate_unfold.
  destruct (tl_get l (_timeListeners (this w))) as [d|] eqn:Hget.
  2:{ intros H. injection H as <- <-. split; [ reflexivity | apply kept_refl ]. }
  cbv zeta.
  assert (Harm : forall run delay last,
             kept w (armed run delay l last (once d) (cleared (timeoutId d) w))).
  { intros. repeat split. simpl. apply tl_set_keys with (d := d). exact Hget. }
  assert (Hclr : kept w (cleared (timeoutId d) w)) by (repeat split).
  repeat match goal with
  | |- context [match ?b with _ => _ end] => destruct b
  end; intros H; try discriminate; injection H as <- <-; auto.
Qed.

Lemma recalculate_returns (l : listener) (w : world) :
  time (this w) (now w) <> None ->
  exists w', _recalculateTimeListener l w = Returns tt w' [].
Proof.
  intros Ht. rewrite recalculate_unfold. cbv zeta.
  destruct (time (this w) (now w)); [ | congruence ].
  repeat match goal with
  | |- context [match ?b with _ => _ end] => destruct b
  end; eauto.
Qed.

Lemma kept_time (w w' : world) :
  kept w w' -> time (this w') (now w') = time (this w) (now w).
Proof.
  intros (A & B & _). rewrite B. apply time_config. exact A.
Qed.

Lemma for_each_recalculate_returns (keys : list listener) :
  forall w, time (this w) (now w) <> None ->
    exists w', for_each _recalculateTimeListener keys w = Returns tt w' [] /\ kept w w'.
Proof.
  induction keys as [|l keys IH]; intros w Ht.
  - exists w. split; [ reflexivity | apply kept_refl ].
  - destruct (recalculate_returns l w Ht) as (w1 & H1).
    destruct (recalculate_kept _ _ H1) as (_ & K1).
    destruct (IH w1) as (w2 & H2 & K2).
    { rewrite (kept_time K1). exact Ht. }
    exists w2. split; [ | eapply kept_trans; eassumption ].
    simpl. unfold bind. rewrite H1. simpl. rewrite H2. reflexivity.
Qed.

Lemma recalculate_all_returns (w : world) :
  time (this w) (now w) <> None ->
  exists w', _recalculateTimeListeners w = Returns tt w' [Recalculated] /\ kept w w'.
Proof.
  intros Ht. unfold _recalculateTimeListeners, bind, read, record.
  destruct (for_each_recalculate_returns (map fst (_timeListeners (this w))) w Ht)
    as (w' & H & K).
  rewrite H. simpl. eauto.
Qed.

(** ** Operations: update, recompute, announce *)

Section Pipeline.
Variable behave : nat -> world -> world.

(** Announcing events in turn. *)
Lemma announce_dispatch (events : list string) (w : world) :
  for_each (trigger behave) events w =
  Returns tt (dispatch_all behave events w) (map Triggered events).
Proof.
  revert w. induction events as [|e events IH]; intros w; [ reflexivity | ].
  simpl. unfold bind. rewrite trigger_dispatch. simpl. rewrite IH. reflexivity.
Qed.

Ltac run_pipeline :=
  match goal with
  | |- context [_recalculateTimeListeners ?w0] =>
      destruct (_recalculateTimeListeners w0) as [[] ? ?| |]
  end;
  repeat (progress (simpl; rewrite ?trigger_dispatch));
  rewrite ?app_nil_r, <- ?app_assoc; reflexivity.

(** An operation that updates the state is its update, followed by the
    recomputation of the timers, followed by its events. *)
Lemma perform_unfold (op : operation) (w : world) (c1 : clock) :
  updated op (this w) (now w) = Some c1 ->
  perform behave op w =
  (_recalculateTimeListeners ;; for_each (trigger behave) (announced op))
    (with_clock c1 w).
Proof.
  intros Hup.
  destruct op; simpl in Hup |- *; unfold calibrate in Hup.
  - unfold start, bind, read, when, _now, update. simpl.
    destruct (_running (this w)); [ discriminate | ]. injection Hup as <-.
    simpl. unfold bind. simpl. unfold with_clock. simpl. run_pipeline.
  - unfold stop, bind, read, when, get_time, update. simpl.
    destruct (_running (this w)); [ | discriminate ].
    destruct (time (this w) (now w)) as [t|]; [ | discriminate ].
    injection Hup as <-.
    simpl. unfold bind. simpl. unfold with_clock. simpl. run_pipeline.
  - injection Hup as <-.
    unfold set_time, bind, read, _now, update. simpl.
    unfold with_clock. simpl. run_pipeline.
  - unfold set_rate, bind, read, when, _now, get_time, update. simpl.
    destruct (_running (this w)).
    + destruct (time (this w) (now w)) as [t|]; [ | discriminate ].
      injection Hup as <-.
      simpl. unfold bind. simpl. unfold with_clock. simpl. run_pipeline.
    + injection Hup as <-.
      simpl. unfold with_clock. simpl. run_pipeline.
  - unfold set_minimum, bind, read, _now, get_time, update. simpl.
    destruct (time (this w) (now w)) as [t|]; [ | discriminate ]. simpl.
    destruct (JS.gt minimum (_maximum (this w)) || JS.eq minimum PosInf);
      [ discriminate | ].
    injection Hup as <-.
    simpl. unfold with_clock. simpl. run_pipeline.
  - unfold set_maximum, bind, read, _now, get_time, update. simpl.
    destruct (time (this w) (now w)) as [t|]; [ | discriminate ]. simpl.
    destruct (JS.lt maximum (_minimum (this w)) || JS.eq maximum NegInf);
      [ discriminate | ].
    injection Hup as <-.
    simpl. unfold with_clock. simpl. run_pipeline.
  - unfold set_loop, bind, read, _now, get_time, update. simpl.
    destruct (time (this w) (now w)) as [t|]; [ | discriminate ].
    injection Hup as <-.
    simpl. unfold with_clock. simpl. run_pipeline.
Qed.

Lemma perform_pipeline (op : operation) (w w1 : world) (c1 : clock) :
  updated op (this w) (now w) = Some c1 ->
  _recalculateTimeListeners (with_clock c1 w) = Returns tt w1 [Recalculated] ->
  perform behave op w =
  Returns tt (dispatch_all behave (announced op) w1)
             (Recalculated :: map Triggered (announced op)).
Proof.
  intros Hup Hre. rewrite (perform_unfold _ _ Hup). unfold bind.
  rewrite Hre, announce_dispatch. reflexivity.
Qed.
End Pipeline.

(** ** Listeners at rest *)

Lemma recalculate_unreachable (l : listener) (d : listenerData) (w : world) :
  tl_get l (_timeListeners (this w)) = Some d ->
  reachable (this w) (l_time l) = false ->
  _recalculateTimeListener l w = Returns tt (cleared (timeoutId d) w) [].
Proof.
  intros Hget Hreach. rewrite recalculate_unfold, Hget. cbv zeta.
  rewrite Hreach. reflexivity.
Qed.

Lemma reachable_false (c : clock) (time : num) :
  _running c = false \/ JS.eq (_rate c) JS.zero = true \/
  JS.ge time (_minimum c) = false \/ JS.le time (_maximum c) = false ->
  reachable c time = false.
Proof.
  unfold reachable, JS.ne.
  intros [H | [H | [H | H]]]; rewrite H; simpl;
    rewrite ?andb_false_r; reflexivity.
Qed.

(** Clearing timers one by one or all at once. *)
Lemma cancel_all_nil (ts : list timer) : cancel_all [] ts = ts.
Proof.
  unfold cancel_all. simpl. induction ts as [|t ts IH]; simpl; congruence.
Qed.

Lemma filter_twice {A} (f g : A -> bool) (xs : list A) :
  filter g (filter f xs) = filter (fun x => f x && g x) xs.
Proof.
  induction xs as [|x xs IH]; simpl; [ reflexivity | ].
  destruct (f x); simpl; [ destruct (g x) | ]; rewrite IH; reflexivity.
Qed.

Lemma cancel_all_cons (id : nat) (ids : list nat) (ts : list timer) :
  cancel_all (id :: ids) ts = cancel_all ids (cancel id ts).
Proof.
  unfold cancel_all, cancel. rewrite filter_twice.
  apply filter_ext. intros t. simpl. apply negb_orb.
Qed.

Lemma in_cancel_all (ids : list nat) (ts : list timer) (t : timer) :
  In t (cancel_all ids ts) <-> In t ts /\ ~ In (t_id t) ids.
Proof.
  unfold cancel_all. rewrite filter_In, negb_true_iff.
  split; intros [H1 H2]; split; auto.
  - intros Hin. assert (E : existsb (Nat.eqb (t_id t)) ids = true).
    { apply existsb_exists. exists (t_id t). split; [ exact Hin | apply Nat.eqb_refl ]. }
    congruence.
  - destruct (existsb (Nat.eqb (t_id t)) ids) eqn:E; [ | reflexivity ].
    apply existsb_exists in E as (x & Hx & Heq). apply Nat.eqb_eq in Heq. subst. contradiction.
Qed.

Lemma in_cancel (id : nat) (ts : list timer) (t : timer) :
  In t (cancel id ts) <-> In t ts /\ t_id t <> id.
Proof.
  unfold cancel. rewrite filter_In, negb_true_iff, Nat.eqb_neq. tauto.
Qed.

(** On a clock that is not running the recomputation clears the timers the
    entries hold and arms none. *)
Lemma for_each_recalculate_stopped (keys : list listener) :
  forall w,
    _running (this w) = false ->
    for_each _recalculateTimeListener keys w =
    Returns tt (with_timers (cancel_all (held (_timeListeners (this w)) keys) (timers w)) w) [].
Proof.
  induction keys as [|l keys IH]; intros w Hrun.
  - simpl. rewrite cancel_all_nil, with_timers_same. reflexivity.
  - simpl. unfold bind.
    destruct (tl_get l (_timeListeners (this w))) as [d|] eqn:Hget.
    + rewrite (recalculate_unreachable l w Hget)
        by (apply reachable_false; left; exact Hrun).
      simpl. rewrite IH by exact Hrun. simpl. rewrite cancel_all_cons. reflexivity.
    + rewrite recalculate_unfold, Hget. simpl. rewrite IH by exact Hrun. reflexivity.
Qed.

Lemma recalculate_all_stopped (w : world) :
  _running (this w) = false ->
  _recalculateTimeListeners w =
  Returns tt (with_timers (cancel_all (held (_timeListeners (this w))
                                            (map fst (_timeListeners (this w))))
                                      (timers w)) w) [Recalculated].
Proof.
  intros Hrun. unfold _recalculateTimeListeners, bind, read, record. simpl.
  rewrite for_each_recalculate_stopped by exact Hrun. reflexivity.
Qed.

(** Look-ups go by identity. *)
Lemma tl_get_same_id (l k : listener) (m : list (listener * listenerData)) :
  l_id l = l_id k -> tl_get l m = tl_get k m.
Proof.
  intros H. induction m as [|[k0 d0] m IH]; simpl; [ reflexivity | ].
  unfold same_listener. rewrite H, IH. reflexivity.
Qed.

Lemma tl_get_key (l : listener) (d : listenerData) (m : list (listener * listenerData)) :
  tl_get l m = Some d -> exists k, In k (map fst m) /\ l_id k = l_id l.
Proof.
  induction m as [|[k0 d0] m IH]; simpl; [ discriminate | ].
  destruct (same_listener k0 l) eqn:E.
  - intros _. exists k0. split; [ left; reflexivity | apply Nat.eqb_eq; exact E ].
  - intros H. destruct (IH H) as (k & Hin & Hk). exists k. auto.
Qed.

Lemma held_in (m : list (listener * listenerData)) (keys : list listener)
      (k : listener) (d : listenerData) :
  In k keys -> tl_get k m = Some d -> In (timeoutId d) (held m keys).
Proof.
  intros Hin Hget. unfold held. apply in_flat_map. exists k.
  split; [ exact Hin | ]. rewrite Hget. left. reflexivity.
Qed.

(** After the recomputation on a stopped clock no pending timer belongs to
    a registered listener. *)
Lemma stopped_timers_dead (w : world) (t : timer) :
  owned w ->
  In t (cancel_all (held (_timeListeners (this w)) (map fst (_timeListeners (this w))))
                   (timers w)) ->
  tl_get (target (t_run t)) (_timeListeners (this w)) = None.
Proof.
  intros Hown Hin. apply in_cancel_all in Hin as [Hin Hnot].
  destruct (tl_get (target (t_run t)) (_timeListeners (this w))) as [d|] eqn:Hget;
    [ | reflexivity ].
  exfalso. apply Hnot.
  rewrite <- (Hown t d Hin Hget).
  destruct (tl_get_key _ _ Hget) as (k & Hk & Hid).
  apply held_in with (k := k); [ exact Hk | ].
  rewrite <- Hget. apply tl_get_same_id. exact Hid.
Qed.

Section Firing.
Variable behave : nat -> world -> world.

(** A timer whose listener is no longer registered fires without effect:
    it leaves the table, nothing is called, the clock is as before. *)
Lemma fire_dead (id : nat) (t : timer) (w : world) :
  find (fun t => Nat.eqb (t_id t) id) (timers w) = Some t ->
  tl_get (target (t_run t)) (_timeListeners (this w)) = None ->
  fire behave id w = Returns tt (cleared id w) [].
Proof.
  intros Hfind Hdead. unfold fire. rewrite Hfind.
  unfold bind, clearTimeout. simpl.
  destruct (t_run t) as [l|l]; simpl in *.
  - rewrite recalculate_unfold. simpl. rewrite Hdead. reflexivity.
  - unfold bind, read. simpl. rewrite Hdead. reflexivity.
Qed.

Lemma fire_absent (id : nat) (w : world) :
  find (fun t => Nat.eqb (t_id t) id) (timers w) = None ->
  fire behave id w = Returns tt w [].
Proof. intros H. unfold fire. rewrite H. reflexivity. Qed.

(** In a quiet world timers fire one after the other without effect. *)
Lemma fire_quiet (id : nat) (w : world) :
  quiet w ->
  exists w', fire behave id w = Returns tt w' [] /\ this w' = this w /\ quiet w'.
Proof.
  intros Hq.
  destruct (find (fun u => Nat.eqb (t_id u) id) (timers w)) as [u|] eqn:Hfind.
  - exists (cleared id w). split; [ | split; [ reflexivity | ] ].
    + eapply fire_dead; [ exact Hfind | ].
      apply find_some in Hfind as [Hin _]. apply Hq, Hin.
    + intros t Ht. simpl in Ht. apply in_cancel in Ht as [Ht _]. apply (Hq t Ht).
  - exists w. split; [ apply fire_absent; exact Hfind | auto ].
Qed.

Lemma fire_all_quiet (ids : list nat) :
  forall w, quiet w ->
    exists w', for_each (fire behave) ids w = Returns tt w' [] /\ this w' = this w.
Proof.
  induction ids as [|id ids IH]; intros w Hq.
  - exists w. split; reflexivity.
  - destruct (fire_quiet id Hq) as (w1 & H1 & Hc1 & Hq1).
    destruct (IH w1 Hq1) as (w2 & H2 & Hc2).
    exists w2. split; [ | congruence ].
    simpl. unfold bind. rewrite H1. simpl. rewrite H2. reflexivity.
Qed.

(** C3.  A recomputation for a registered listener on a clock that is not
    running, or whose rate is 0, or whose bounds exclude the target, clears
    the timer the entry holds and arms none.  After [stop] on a running
    clock whose timers are owned, the world handed to the event listeners
    holds no pending timer of a registered listener, and the timers that
    fire there, in any number and order, call nothing and leave the clock
    as it is. *)
Theorem unreachable_listener_rests (w : world) (l : listener) (d : listenerData) :
  (tl_get l (_timeListeners (this w)) = Some d ->
   _running (this w) = false \/ JS.eq (_rate (this w)) JS.zero = true \/
   JS.ge (l_time l) (_minimum (this w)) = false \/
   JS.le (l_time l) (_maximum (this w)) = false ->
   exists w',
     _recalculateTimeListener l w = Returns tt w' [] /\
     this w' = this w /\
     timers w' = cancel (timeoutId d) (timers w) /\
     (forall t, In t (timers w') -> In t (timers w) /\ t_id t <> timeoutId d)) /\
  (_running (this w) = true -> owned w ->
   forall now_stopped,
     time (this w) (now w) = Some now_stopped ->
     exists w1,
       stop behave w =
       Returns tt (dispatch behave "setrunning" (dispatch behave "stop" w1))
               [Recalculated; Triggered "stop"; Triggered "setrunning"] /\
       _running (this w1) = false /\
       (forall k e, tl_get k (_timeListeners (this w1)) = Some e ->
                    forall t, In t (timers w1) -> t_id t <> timeoutId e) /\
       quiet w1 /\
       (forall ids, exists w2,
           for_each (fire behave) ids w1 = Returns tt w2 [] /\ this w2 = this w1)).
Proof.
  split.
  - intros Hget Hcase. exists (cleared (timeoutId d) w).
    split; [ | split; [ reflexivity | split; [ reflexivity | ] ] ].
    + apply recalculate_unreachable; [ exact Hget | ].
      apply reachable_false. exact Hcase.
    + intros t Ht. apply in_cancel. exact Ht.
  - intros Hrun Hown t Ht.
    set (c1 := with_running false (with_previousTime t (this w))).
    set (w0 := with_clock c1 w).
    assert (Hstopped : _running (this w0) = false) by reflexivity.
    pose proof (recalculate_all_stopped w0 Hstopped) as Hre.
    set (w1 := with_timers _ w0) in Hre.
    assert (Hquiet : quiet w1).
    { intros u Hu. apply (@stopped_timers_dead w0 u); [ | exact Hu ].
      intros x e Hx He. apply (Hown x e Hx He). }
    exists w1. split; [ | split; [ reflexivity | split; [ | split ] ] ].
    + apply (@perform_pipeline behave Stop w w1 c1); [ | exact Hre ].
      simpl. rewrite Hrun, Ht. reflexivity.
    + intros k e Hget u Hu. apply in_cancel_all in Hu as [_ Hnot].
      intros Heq. apply Hnot. rewrite Heq.
      destruct (tl_get_key _ _ Hget) as (k' & Hk' & Hid).
      apply held_in with (k := k'); [ exact Hk' | ].
      rewrite <- Hget. apply tl_get_same_id. exact Hid.
    + exact Hquiet.
    + intros ids. apply fire_all_quiet. exact Hquiet.
Qed.
End Firing.

(** ** Start, stop and the order of recomputation and events *)

Lemma for_each_recalculate_kept (keys : list listener) :
  forall w w' tr,
    for_each _recalculateTimeListener keys w = Returns tt w' tr ->
    tr = [] /\ kept w w'.
Proof.
  induction keys as [|l keys IH]; intros w w' tr H.
  - injection H as <- <-. split; [ reflexivity | apply kept_refl ].
  - simpl in H. unfold bind in H.
    destruct (_recalculateTimeListener l w) as [[] w1 tr1| |] eqn:H1; try discriminate.
    destruct (recalculate_kept _ _ H1) as (-> & K1).
    rewrite after_nil in H.
    destruct (IH _ _ _ H) as (-> & K2).
    split; [ reflexivity | eapply kept_trans; eassumption ].
Qed.

Lemma recalculate_all_kept (w w' : world) (tr : list action) :
  _recalculateTimeListeners w = Returns tt w' tr -> tr = [Recalculated] /\ kept w w'.
Proof.
  unfold _recalculateTimeListeners, bind, read, record. simpl.
  destruct (for_each _ _ w) as [[] w1 tr1| |] eqn:H1; try discriminate.
  destruct (for_each_recalculate_kept _ _ H1) as (-> & K).
  simpl. intros H. injection H as <- <-. auto.
Qed.

Lemma config_fields (c c' : clock) :
  config c = config c' ->
  _previousTime c = _previousTime c' /\ _previousNow c = _previousNow c' /\
  _rate c = _rate c' /\ _running c = _running c' /\
  _minimum c = _minimum c' /\ _maximum c = _maximum c' /\ _loop c = _loop c' /\
  _eventListeners c = _eventListeners c'.
Proof.
  destruct c, c'. unfold config, with_timeListeners. simpl.
  intros H. injection H as -> -> -> -> -> -> -> ->. repeat split.
Qed.

Section StartStop.
Variable behave : nat -> world -> world.

(** Where the getter returns, [start] and [stop] do what their source
    says.  [start] on a running clock only announces [setrunning]; on a
    stopped one it stamps the reference wall-clock sample, keeps the
    reference time (its own clamp when it lies within the bounds), sets
    running, recomputes the timers and announces [start], then
    [setrunning].  [stop] on a stopped clock only announces [setrunning];
    on a running one it freezes the reference time at the displayed time,
    clears running, recomputes and announces [stop], then [setrunning].
    Each of the four announces [setrunning] once. *)
Lemma start_stop_idempotent (w : world) :
  (_running (this w) = true ->
   start behave w =
   Returns tt (dispatch behave "setrunning" w) [Triggered "setrunning"]) /\
  (_running (this w) = false ->
   time (with_running true (with_previousNow (Fin (now w)) (this w))) (now w) <> None ->
   exists w1,
     _recalculateTimeListeners
       (with_clock (with_running true (with_previousNow (Fin (now w)) (this w))) w)
     = Returns tt w1 [Recalculated] /\
     start behave w =
     Returns tt (dispatch behave "setrunning" (dispatch behave "start" w1))
             [Recalculated; Triggered "start"; Triggered "setrunning"] /\
     _running (this w1) = true /\
     _previousNow (this w1) = Fin (now w) /\
     _previousTime (this w1) = _previousTime (this w) /\
     (calibrated (this w) = true ->
      JS.same (clamp (this w) (_previousTime (this w))) (_previousTime (this w1)))) /\
  (_running (this w) = false ->
   stop behave w =
   Returns tt (dispatch behave "setrunning" w) [Triggered "setrunning"]) /\
  (_running (this w) = true ->
   forall t,
     time (this w) (now w) = Some t ->
     exists w1,
       _recalculateTimeListeners
         (with_clock (with_running false (with_previousTime t (this w))) w)
       = Returns tt w1 [Recalculated] /\
       stop behave w =
       Returns tt (dispatch behave "setrunning" (dispatch behave "stop" w1))
               [Recalculated; Triggered "stop"; Triggered "setrunning"] /\
       _running (this w1) = false /\
       _previousTime (this w1) = t).
Proof.
  split; [ | split; [ | split ] ].
  - intros Hrun. unfold start, bind, read, when. simpl. rewrite Hrun. simpl.
    rewrite trigger_dispatch. reflexivity.
  - intros Hrun Ht.
    set (c1 := with_running true (with_previousNow (Fin (now w)) (this w))) in *.
    destruct (@recalculate_all_returns (with_clock c1 w) Ht) as (w1 & Hre & K).
    exists w1. split; [ exact Hre | ]. split.
    + apply (@perform_pipeline behave Start w w1 c1); [ | exact Hre ].
      simpl. rewrite Hrun. reflexivity.
    + destruct K as (K & _). apply config_fields in K. simpl in K.
      destruct K as (Kt & Kn & _ & Kr & _).
      split; [ exact Kr | ]. split; [ exact Kn | ]. split; [ exact Kt | ].
      intros Hcal. rewrite Kt. unfold calibrated, within in Hcal.
      apply andb_prop in Hcal as [Hlo Hhi].
      apply clamp_fixed; [ apply same_refl | assumption .. ].
  - intros Hrun. unfold stop, bind, read, when. simpl. rewrite Hrun. simpl.
    rewrite trigger_dispatch. reflexivity.
  - intros Hrun t Ht.
    set (c1 := with_running false (with_previousTime t (this w))).
    destruct (_recalculateTimeListeners (with_clock c1 w)) as [[] w1 tr| |] eqn:Hre.
    + destruct (recalculate_all_kept _ Hre) as (-> & K & _).
      exists w1. split; [ reflexivity | ]. split.
      * apply (@perform_pipeline behave Stop w w1 c1); [ | exact Hre ].
        simpl. rewrite Hrun, Ht. reflexivity.
      * apply config_fields in K. simpl in K. tauto.
    + exfalso. revert Hre. unfold _recalculateTimeListeners, bind, read, record.
      simpl. rewrite for_each_recalculate_stopped by reflexivity. discriminate.
    + exfalso. revert Hre. unfold _recalculateTimeListeners, bind, read, record.
      simpl. rewrite for_each_recalculate_stopped by reflexivity. discriminate.
Qed.

(** C7, failing input.  From a new clock, [minimum = 5], [maximum = 5],
    [loop = true] and [start()] all return, and [stop()] on the running
    clock then never returns: it reads the time first, and the getter
    subtracts a span of 0 for ever.  Likewise, once a listener for time 5
    is registered on the stopped clock, [start()] never returns: the
    recomputation reads the time for the listener.  Neither call announces
    [setrunning]. *)
Theorem start_stop_never_return :
  (exists w tr,
      run_calls behave
        [Operate (SetMinimum (Fin 5)); Operate (SetMaximum (Fin 5));
         Operate (SetLoop true); Operate Start]
        (bare (constructor 0) 0) = Returns tt w tr /\
      _running (this w) = true /\
      (forall fuel, time_fuel fuel (this w) (now w) = None) /\
      stop behave w = Hangs) /\
  (exists w tr,
      run_calls behave
        [Operate (SetMinimum (Fin 5)); Operate (SetMaximum (Fin 5));
         Operate (SetLoop true); OnceAt (Fin 5) 7]
        (bare (constructor 0) 0) = Returns tt w tr /\
      _running (this w) = false /\
      (forall fuel,
          time_fuel fuel (with_running true (with_previousNow (Fin (now w)) (this w)))
                    (now w) = None) /\
      start behave w = Hangs).
Proof.
  split.
  - eexists. eexists. split; [ vm_compute; reflexivity | ].
    split; [ reflexivity | ]. split; [ | reflexivity ].
    intros fuel. unfold time_fuel, bound_time, raw_time. simpl.
    apply substract_laps_flat; [ unfold flat_span; simpl; lra | reflexivity | discriminate ].
  - eexists. eexists. split; [ vm_compute; reflexivity | ].
    split; [ reflexivity | ]. split; [ | reflexivity ].
    intros fuel. unfold time_fuel, bound_time, raw_time. simpl.
    apply substract_laps_flat; [ unfold flat_span; simpl; lra | reflexivity | discriminate ].
Qed.
End StartStop.

(** ** Removing time listeners *)

Lemma with_listeners_same (w : world) :
  with_clock (with_timeListeners (_timeListeners (this w)) (this w)) w = w.
Proof. destruct w as [[] ? ? ? ?]; reflexivity. Qed.

(** The loop of [removeAt] as one filter. *)
Lemma for_each_delete (time : num) (callback : nat) (keys : list listener) :
  forall w,
    for_each (fun listener =>
                if matches time callback listener
                then timeListeners_delete listener
                else ret tt) keys w =
    Returns tt
      (with_clock
         (with_timeListeners
            (filter (fun kd => negb (deleted time callback keys kd))
                    (_timeListeners (this w))) (this w)) w) [].
Proof.
  induction keys as [|l keys IH]; intros w.
  - simpl. unfold deleted. simpl.
    assert (E : forall A (xs : list A), filter (fun _ => true) xs = xs).
    { induction xs; simpl; congruence. }
    rewrite E, with_listeners_same. reflexivity.
  - cbn [for_each]. unfold bind.
    destruct (matches time callback l) eqn:Hm.
    + assert (E : filter (fun kd => negb (deleted time callback keys kd))
                         (tl_delete l (_timeListeners (this w))) =
                  filter (fun kd => negb (deleted time callback (l :: keys) kd))
                         (_timeListeners (this w))).
      { unfold tl_delete. rewrite filter_twice. apply filter_ext. intros kd.
        unfold deleted. simpl. rewrite Hm. simpl. rewrite negb_orb. reflexivity. }
      unfold timeListeners_delete, update at 1. rewrite IH.
      cbn -[filter deleted tl_delete]. rewrite E. reflexivity.
    + assert (E : filter (fun kd => negb (deleted time callback keys kd))
                         (_timeListeners (this w)) =
                  filter (fun kd => negb (deleted time callback (l :: keys) kd))
                         (_timeListeners (this w))).
      { apply filter_ext. intros kd. unfold deleted. simpl. rewrite Hm. reflexivity. }
      unfold ret at 1. rewrite IH. cbn -[filter deleted]. rewrite E. reflexivity.
Qed.

(** With keys of distinct identities the loop deletes the matching entries. *)
Lemma NoDup_map_eq {A B} (f : A -> B) (xs : list A) (x y : A) :
  NoDup (map f xs) -> In x xs -> In y xs -> f x = f y -> x = y.
Proof.
  induction xs as [|a xs IH]; simpl; intros Hnd Hx Hy Hf; [ contradiction | ].
  inversion Hnd as [|? ? Hnot Hnd']; subst.
  destruct Hx as [-> | Hx], Hy as [-> | Hy]; auto.
  - exfalso. apply Hnot. rewrite Hf. apply in_map. exact Hy.
  - exfalso. apply Hnot. rewrite <- Hf. apply in_map. exact Hx.
Qed.

Lemma deleted_matches (time : num) (callback : nat)
      (m : list (listener * listenerData)) (kd : listener * listenerData) :
  NoDup (map l_id (map fst m)) -> In kd m ->
  deleted time callback (map fst m) kd = matches time callback (fst kd).
Proof.
  intros Hnd Hin. unfold deleted.
  destruct (matches time callback (fst kd)) eqn:Hm.
  - apply existsb_exists. exists (fst kd). split; [ apply in_map; exact Hin | ].
    rewrite Hm. unfold same_listener. rewrite Nat.eqb_refl. reflexivity.
  - destruct (existsb _ (map fst m)) eqn:E; [ | reflexivity ].
    apply existsb_exists in E as (l & Hl & Hb).
    apply andb_prop in Hb as [Hml Hid]. apply Nat.eqb_eq in Hid.
    assert (l = fst kd).
    { apply (NoDup_map_eq l_id (map fst m)); auto. apply in_map. exact Hin. }
    subst. congruence.
Qed.

Lemma tl_get_none (l : listener) (m : list (listener * listenerData)) :
  (forall kd, In kd m -> l_id (fst kd) <> l_id l) -> tl_get l m = None.
Proof.
  induction m as [|[k d] m IH]; intros H; [ reflexivity | ].
  simpl. unfold same_listener.
  destruct (Nat.eqb (l_id k) (l_id l)) eqn:E.
  - apply Nat.eqb_eq in E. exfalso. apply (H (k, d)); [ left; reflexivity | exact E ].
  - apply IH. intros kd Hkd. apply H. right. exact Hkd.
Qed.

Section Removal.
Variable behave : nat -> world -> world.

(** C6, amended.  [removeAt] removes exactly the entries whose time and
    callback match and touches neither the configuration nor the pending
    timers; the timer of a removed entry stays armed and, when it fires,
    finds no entry: it calls nothing and leaves the clock as it is. *)
Theorem removeAt_detaches (w : world) (time : num) (callback : nat) :
  NoDup (map l_id (map fst (_timeListeners (this w)))) ->
  exists w',
    removeAt time callback w = Returns tt w' [] /\
    _timeListeners (this w') =
      filter (fun kd => negb (matches time callback (fst kd))) (_timeListeners (this w)) /\
    config (this w') = config (this w) /\
    timers w' = timers w /\
    (forall l d, In (l, d) (_timeListeners (this w)) ->
                 matches time callback l = true ->
                 tl_get l (_timeListeners (this w')) = None) /\
    (forall id t,
        find (fun t => Nat.eqb (t_id t) id) (timers w') = Some t ->
        tl_get (target (t_run t)) (_timeListeners (this w')) = None ->
        fire behave id w' = Returns tt (cleared id w') []).
Proof.
  intros Hnd.
  assert (Hfilter : filter (fun kd => negb (deleted time callback
                                              (map fst (_timeListeners (this w))) kd))
                           (_timeListeners (this w)) =
                    filter (fun kd => negb (matches time callback (fst kd)))
                           (_timeListeners (this w))).
  { apply filter_ext_in. intros kd Hkd. rewrite deleted_matches; auto. }
  eexists. split.
  { unfold removeAt, bind, read. simpl. rewrite for_each_delete. reflexivity. }
  simpl. rewrite Hfilter.
  split; [ reflexivity | split; [ reflexivity | split; [ reflexivity | split ] ] ].
  - intros l d Hin Hm. apply tl_get_none.
    intros kd Hkd Hid. apply filter_In in Hkd as [Hkd Hkeep].
    assert (fst kd = l).
    { apply (NoDup_map_eq l_id (map fst (_timeListeners (this w)))); auto.
      - apply in_map. exact Hkd.
      - change l with (fst (l, d)). apply in_map. exact Hin. }
    subst. rewrite Hm in Hkeep. discriminate.
  - intros id t Hfind Hdead. eapply fire_dead; eassumption.
Qed.
End Removal.

(** ** Bound changes *)

(** Right after a calibration at the wall-clock sample the raw time is the
    reference time. *)
Lemma raw_time_calibrated (c : clock) (wall : Q) :
  _previousNow c = Fin wall ->
  (_running c = true -> JS.is_finite (_rate c) = true) ->
  JS.same (raw_time c wall) (_previousTime c).
Proof.
  intros Hnow Hrate. unfold raw_time.
  destruct (_running c); [ | apply same_refl ].
  specialize (Hrate eq_refl). rewrite Hnow.
  destruct (_rate c) as [| |r|]; try discriminate.
  destruct (_previousTime c) as [| |p|]; simpl; auto. ring.
Qed.


(** A clock calibrated at the wall-clock sample on a time inside its range
    displays that time. *)
Lemma calibrated_displays (c : clock) (wall : Q) (t : num) :
  _previousNow c = Fin wall ->
  (_running c = true -> JS.is_finite (_rate c) = true) ->
  JS.same (_previousTime c) t ->
  inside c t = true ->
  exists t', time c wall = Some t' /\ JS.same t' t.
Proof.
  intros Hnow Hrate Hprev Hin.
  assert (Hraw : JS.same (raw_time c wall) t).
  { eapply same_trans; [ apply raw_time_calibrated; assumption | exact Hprev ]. }
  unfold time.
  assert (Hfuel : exists k, laps c (raw_time c wall) = S k).
  { unfold laps. destruct (raw_time c wall), (_minimum c), (_maximum c); eauto. }
  destruct Hfuel as (k & ->).
  apply bound_time_fixed; assumption.
Qed.

(** A clock that does not loop, calibrated at the wall-clock sample,
    displays its reference time clamped. *)
Lemma calibrated_clamps (c : clock) (wall : Q) :
  can_loop c = false ->
  _previousNow c = Fin wall ->
  (_running c = true -> JS.is_finite (_rate c) = true) ->
  exists t', time c wall = Some t' /\ JS.same t' (clamp c (_previousTime c)).
Proof.
  intros Hloop Hnow Hrate. unfold time, bound_time. rewrite Hloop.
  eexists. split; [ reflexivity | ].
  apply clamp_same, raw_time_calibrated; assumption.
Qed.

Section Bounds.
Variable behave : nat -> world -> world.

End Bounds.

(** ** The reference time *)

Lemma le_total (a b : num) :
  JS.is_nan a = false -> JS.is_nan b = false -> JS.lt b a = false -> JS.le a b = true.
Proof.
  destruct a as [| |a|], b as [| |b|]; simpl; intros Ha Hb H;
    try discriminate; auto.
  qprop. exact H.
Qed.

Lemma le_number (a b : num) :
  JS.le a b = true -> JS.is_nan a = false /\ JS.is_nan b = false.
Proof. destruct a, b; simpl; intros H; try discriminate; auto. Qed.

(** A state update given numbers leaves the reference time within the
    bounds, as long as the reading of the getter that it stores lies
    within them. *)
Lemma reference_stays_calibrated (op : operation) (c c1 : clock) (wall : Q) :
  JS.le (_minimum c) (_maximum c) = true ->
  calibrated c = true -> takes_number op = true ->
  (forall t, time c wall = Some t -> within c t = true) ->
  updated op c wall = Some c1 ->
  calibrated c1 = true.
Proof.
  intros Hle Hcal Hnum Hread Hup.
  destruct (le_number _ _ Hle) as [Hmin Hmax].
  assert (Hclamp : forall lo hi x,
             JS.le lo hi = true -> JS.is_nan x = false ->
             JS.le lo (JS.min (JS.max lo x) hi) && JS.le (JS.min (JS.max lo x) hi) hi = true).
  { intros lo hi x H1 H2. destruct (clamp_within lo hi x H1 H2) as [A B].
    rewrite A, B. reflexivity. }
  assert (Hnumber : forall t, within c t = true -> JS.is_nan t = false).
  { intros t Hin. unfold within in Hin. apply andb_prop in Hin as [Hlo _].
    apply le_number in Hlo. tauto. }
  destruct op; simpl in Hup, Hnum; unfold option_map in Hup.
  - destruct (_running c); [ discriminate | ]. injection Hup as <-. exact Hcal.
  - destruct (_running c); [ | discriminate ].
    destruct (time c wall) as [t|]; [ | discriminate ].
    injection Hup as <-. apply Hread. reflexivity.
  - injection Hup as <-. apply Hclamp; [ exact Hle | ].
    apply negb_true_iff. exact Hnum.
  - destruct (_running c); [ | injection Hup as <-; exact Hcal ].
    destruct (time c wall) as [t|]; [ | discriminate ].
    injection Hup as <-. apply Hread. reflexivity.
  - destruct (time c wall) as [t|]; [ | discriminate ].
    destruct (JS.gt minimum (_maximum c) || JS.eq minimum PosInf) eqn:E;
      [ discriminate | ].
    injection Hup as <-. apply orb_false_elim in E as [E _].
    apply negb_true_iff in Hnum.
    unfold calibrated, within. simpl. apply Hclamp; [ | apply Hnumber, Hread; reflexivity ].
    apply le_total; assumption.
  - destruct (time c wall) as [t|]; [ | discriminate ].
    destruct (JS.lt maximum (_minimum c) || JS.eq maximum NegInf) eqn:E;
      [ discriminate | ].
    injection Hup as <-. apply orb_false_elim in E as [E _].
    apply negb_true_iff in Hnum.
    unfold calibrated, within. simpl. apply Hclamp; [ | apply Hnumber, Hread; reflexivity ].
    apply le_total; assumption.
  - destruct (time c wall) as [t|]; [ | discriminate ].
    injection Hup as <-. apply Hread. reflexivity.
Qed.

Lemma constructor_calibrated (wall : Q) :
  JS.le (_minimum (constructor wall)) (_maximum (constructor wall)) = true /\
  calibrated (constructor wall) = true.
Proof. split; reflexivity. Qed.

(** ** The timer table stays tidy *)

(** Look-ups after [set]. *)
Lemma tl_get_set (k l : listener) (d : listenerData) (m : list (listener * listenerData)) :
  tl_get k (tl_set l d m) =
  if Nat.eqb (l_id l) (l_id k) then Some d else tl_get k m.
Proof.
  induction m as [|[k0 d0] m IH]; simpl; unfold same_listener in *.
  - destruct (Nat.eqb (l_id l) (l_id k)); reflexivity.
  - destruct (Nat.eqb (l_id k0) (l_id l)) eqn:E0; simpl; unfold same_listener.
    + apply Nat.eqb_eq in E0. rewrite E0.
      destruct (Nat.eqb (l_id l) (l_id k)); reflexivity.
    + destruct (Nat.eqb (l_id k0) (l_id k)) eqn:E1.
      * apply Nat.eqb_eq in E1. rewrite <- E1.
        rewrite Nat.eqb_sym, E0. reflexivity.
      * exact IH.
Qed.

Lemma tl_set_keys_in (l k : listener) (d : listenerData) (m : list (listener * listenerData)) :
  In k (map fst (tl_set l d m)) -> k = l \/ In k (map fst m).
Proof.
  induction m as [|[k0 d0] m IH]; simpl.
  - intros [<- | []]. left. reflexivity.
  - destruct (same_listener k0 l); simpl; intros [H | H]; auto.
    destruct (IH H); auto.
Qed.

(** Clearing a timer, arming one for a registered listener and recomputing
    keep the table tidy. *)
Ltac tidy_split :=
  split; [ intros t e Ht He | split; [ intros t Ht | intros k Hk ] ].

Lemma tidy_cleared (id : nat) (w : world) : tidy w -> tidy (cleared id w).
Proof.
  intros (Hown & Hids & Hkeys). tidy_split.
  - simpl in *. apply in_cancel in Ht as [Ht _]. apply (Hown t e Ht He).
  - simpl in *. apply in_cancel in Ht as [Ht _]. apply (Hids t Ht).
  - exact (Hkeys k Hk).
Qed.

Lemma tidy_armed (run : closure) (delay last : num) (one_shot : bool)
      (l : listener) (d : listenerData) (w : world) :
  tidy w ->
  tl_get l (_timeListeners (this w)) = Some d ->
  target run = l ->
  tidy (armed run delay l last one_shot (cleared (timeoutId d) w)).
Proof.
  intros (Hown & Hids & Hkeys) Hget Hrun.
  assert (Hl : (l_id l < next_object w)%nat).
  { destruct (tl_get_key _ _ Hget) as (k & Hk & Hid). rewrite <- Hid. apply Hkeys, Hk. }
  tidy_split.
  - simpl in Ht, He. rewrite tl_get_set in He.
    apply in_app_or in Ht as [Ht | [<- | []]].
    + apply in_cancel in Ht as [Ht Hne].
      destruct (Nat.eqb (l_id l) (l_id (target (t_run t)))) eqn:E.
      * exfalso. apply Hne. symmetry. apply Nat.eqb_eq in E.
        apply (Hown t d Ht). rewrite <- Hget. apply tl_get_same_id.
        symmetry. exact E.
      * apply (Hown t e Ht He).
    + simpl in *. rewrite Hrun, Nat.eqb_refl in He. injection He as <-. reflexivity.
  - simpl in Ht. apply in_app_or in Ht as [Ht | [<- | []]]; simpl.
    + apply in_cancel in Ht as [Ht _]. destruct (Hids t Ht). lia.
    + rewrite Hrun. lia.
  - simpl in Hk. apply tl_set_keys_in in Hk as [-> | Hk]; [ exact Hl | apply Hkeys, Hk ].
Qed.

Lemma recalculate_tidy (l : listener) (w w' : world) (tr : list action) :
  tidy w -> _recalculateTimeListener l w = Returns tt w' tr -> tidy w'.
Proof.
  intros Htidy. rewrite recalculate_unfold.
  destruct (tl_get l (_timeListeners (this w))) as [d|] eqn:Hget.
  2:{ intros H. injection H as <- _. exact Htidy. }
  cbv zeta.
  pose proof (tidy_cleared (timeoutId d) Htidy) as Hclr.
  assert (Harm : forall run delay last,
             target run = l ->
             tidy (armed run delay l last (once d) (cleared (timeoutId d) w))).
  { intros. apply tidy_armed; assumption. }
  repeat match goal with
  | |- context [match ?b with _ => _ end] => destruct b
  end; intros H; try discriminate; injection H as <- _; auto.
Qed.

Lemma for_each_recalculate_tidy (keys : list listener) :
  forall w w' tr,
    tidy w -> for_each _recalculateTimeListener keys w = Returns tt w' tr -> tidy w'.
Proof.
  induction keys as [|l keys IH]; intros w w' tr Htidy H.
  - injection H as <- _. exact Htidy.
  - simpl in H. unfold bind in H.
    destruct (_recalculateTimeListener l w) as [[] w1 tr1| |] eqn:H1; try discriminate.
    destruct (for_each _recalculateTimeListener keys w1) as [[] w2 tr2| |] eqn:H2;
      try discriminate.
    simpl in H. injection H as <- _.
    eapply IH; [ | exact H2 ]. eapply recalculate_tidy; eassumption.
Qed.

Lemma recalculate_all_tidy (w w' : world) (tr : list action) :
  tidy w -> _recalculateTimeListeners w = Returns tt w' tr -> tidy w'.
Proof.
  intros Htidy. unfold _recalculateTimeListeners, bind, read, record. simpl.
  destruct (for_each _ _ w) as [[] w1 tr1| |] eqn:H1; try discriminate.
  simpl. intros H. injection H as <- _.
  eapply for_each_recalculate_tidy; eassumption.
Qed.

(** A change of the configuration leaves the timer table alone. *)
Lemma tidy_config (c : clock) (w : world) :
  _timeListeners c = _timeListeners (this w) -> tidy w -> tidy (with_clock c w).
Proof.
  intros Hsame (Hown & Hids & Hkeys). tidy_split.
  - simpl in *. rewrite Hsame in He. apply (Hown t e Ht He).
  - apply (Hids t Ht).
  - simpl in Hk. rewrite Hsame in Hk. apply (Hkeys k Hk).
Qed.

Lemma updated_listeners (op : operation) (c c1 : clock) (wall : Q) :
  updated op c wall = Some c1 -> _timeListeners c1 = _timeListeners c.
Proof.
  destruct op; simpl; unfold option_map;
    repeat match goal with
    | |- context [match ?b with _ => _ end] => destruct b; simpl
    end; intros H; try discriminate; injection H as <-; reflexivity.
Qed.

Lemma tidy_bare (wall : Q) : tidy (bare (constructor wall) wall).
Proof. tidy_split; simpl in *; contradiction. Qed.

Lemma register_tidy (time : num) (callback : nat) (one_shot : bool)
      (w w' : world) (tr : list action) :
  tidy w -> register time callback one_shot w = Returns tt w' tr -> tidy w'.
Proof.
  intros (Hown & Hids & Hkeys).
  unfold register, bind, new_listener, timeListeners_set, update. simpl.
  set (l := {| l_id := next_object w; l_time := time; l_callback := callback |}).
  match goal with
  | |- context [_recalculateTimeListener l ?w0] => set (w1 := w0)
  end.
  assert (Htidy1 : tidy w1).
  { tidy_split.
    - simpl in Ht, He. rewrite tl_get_set in He. simpl in He.
      destruct (Nat.eqb (next_object w) (l_id (target (t_run t)))) eqn:E.
      + apply Nat.eqb_eq in E. destruct (Hids t Ht). lia.
      + apply (Hown t e Ht He).
    - simpl in *. destruct (Hids t Ht). lia.
    - simpl in Hk. apply tl_set_keys_in in Hk as [-> | Hk]; simpl.
      + lia.
      + specialize (Hkeys k Hk). lia. }
  destruct (_recalculateTimeListener l w1) as [[] w2 tr2| |] eqn:H2; try discriminate.
  simpl. intros H. injection H as <- _.
  eapply recalculate_tidy; eassumption.
Qed.

Lemma onceAt_tidy (time : num) (callback : nat) (w w' : world) (tr : list action) :
  tidy w -> onceAt time callback w = Returns tt w' tr -> tidy w'.
Proof. apply (@register_tidy time callback true). Qed.

Lemma alwaysAt_tidy (time : num) (callback : nat) (w w' : world) (tr : list action) :
  tidy w -> alwaysAt time callback w = Returns tt w' tr -> tidy w'.
Proof. apply (@register_tidy time callback false). Qed.

(** Entries removed with their whole identity leave the other look-ups
    as they were. *)
Lemma tl_get_filter (keep : nat -> bool) (k : listener) (e : listenerData)
      (m : list (listener * listenerData)) :
  tl_get k (filter (fun kd => keep (l_id (fst kd))) m) = Some e ->
  tl_get k m = Some e.
Proof.
  induction m as [|[k0 d0] m IH]; simpl; [ discriminate | ].
  unfold same_listener.
  destruct (keep (l_id k0)) eqn:Hk; simpl; unfold same_listener.
  - destruct (Nat.eqb (l_id k0) (l_id k)); auto.
  - destruct (Nat.eqb (l_id k0) (l_id k)) eqn:E; auto.
    apply Nat.eqb_eq in E. intros H. exfalso.
    assert (Hnone : tl_get k (filter (fun kd => keep (l_id (fst kd))) m) = None).
    { apply tl_get_none. intros kd Hkd Hid. apply filter_In in Hkd as [_ Hkeep].
      rewrite Hid, <- E in Hkeep. congruence. }
    congruence.
Qed.

Lemma removeAt_tidy (time : num) (callback : nat) (w w' : world) (tr : list action) :
  tidy w -> removeAt time callback w = Returns tt w' tr -> tidy w'.
Proof.
  intros (Hown & Hids & Hkeys).
  unfold removeAt, bind, read. simpl. rewrite for_each_delete. simpl.
  intros H. injection H as <- _.
  set (keys := map fst (_timeListeners (this w))).
  set (keep := fun id => negb (existsb (fun l => matches time callback l
                                                 && Nat.eqb id (l_id l)) keys)).
  assert (E : filter (fun kd => negb (deleted time callback keys kd))
                     (_timeListeners (this w)) =
              filter (fun kd => keep (l_id (fst kd))) (_timeListeners (this w))).
  { apply filter_ext. intros kd. reflexivity. }
  tidy_split.
  - simpl in Ht, He. rewrite E in He.
    apply tl_get_filter in He. apply (Hown t e Ht He).
  - apply (Hids t Ht).
  - simpl in Hk. apply Hkeys. apply in_map_iff in Hk as (kd & <- & Hkd).
    apply filter_In in Hkd as [Hkd _]. apply in_map. exact Hkd.
Qed.

(** The entry of a listener whose timer has just fired may be rewritten:
    no other pending timer was made for it. *)
Lemma tidy_fired (fired : timer) (d d' : listenerData) (w : world) :
  tidy w -> In fired (timers w) ->
  tl_get (target (t_run fired)) (_timeListeners (this w)) = Some d ->
  tidy (with_clock
          (with_timeListeners
             (tl_set (target (t_run fired)) d' (_timeListeners (this w))) (this w))
          (cleared (t_id fired) w)).
Proof.
  intros (Hown & Hids & Hkeys) Hin Hget. tidy_split.
  - simpl in Ht, He. apply in_cancel in Ht as [Ht Hne]. rewrite tl_get_set in He.
    destruct (Nat.eqb (l_id (target (t_run fired))) (l_id (target (t_run t)))) eqn:E.
    + exfalso. apply Hne. apply Nat.eqb_eq in E.
      rewrite <- (Hown fired d Hin Hget). symmetry. apply (Hown t d Ht).
      rewrite <- Hget. apply tl_get_same_id. symmetry. exact E.
    + apply (Hown t e Ht He).
  - simpl in Ht. apply in_cancel in Ht as [Ht _]. apply (Hids t Ht).
  - simpl in Hk. apply tl_set_keys_in in Hk as [-> | Hk]; [ | apply Hkeys, Hk ].
    destruct (tl_get_key _ _ Hget) as (k' & Hk' & Hid). rewrite <- Hid. apply Hkeys, Hk'.
Qed.

Lemma tidy_delete (l : listener) (w : world) :
  tidy w ->
  tidy (with_clock (with_timeListeners (tl_delete l (_timeListeners (this w))) (this w)) w).
Proof.
  intros (Hown & Hids & Hkeys). tidy_split.
  - simpl in Ht, He. apply (Hown t e Ht).
    apply (@tl_get_filter (fun id => negb (Nat.eqb id (l_id l)))). exact He.
  - apply (Hids t Ht).
  - simpl in Hk. apply Hkeys. apply in_map_iff in Hk as (kd & <- & Hkd).
    apply filter_In in Hkd as [Hkd _]. apply in_map. exact Hkd.
Qed.

Section Tidy.
Variable behave : nat -> world -> world.
Hypothesis behave_tidy : well_behaved behave.

Lemma dispatch_tidy (event : string) (w : world) : tidy w -> tidy (dispatch behave event w).
Proof.
  unfold dispatch. generalize (attached event (this w)). intros fs. revert w.
  induction fs as [|f fs IH]; intros w Hw; simpl; [ exact Hw | ].
  apply IH, behave_tidy, Hw.
Qed.

Lemma dispatch_all_tidy (events : list string) (w : world) :
  tidy w -> tidy (dispatch_all behave events w).
Proof.
  unfold dispatch_all. revert w.
  induction events as [|e events IH]; intros w Hw; simpl; [ exact Hw | ].
  apply IH, dispatch_tidy, Hw.
Qed.

(** Every operation that changes the state keeps the table tidy. *)
Lemma perform_tidy (op : operation) (w w' : world) (c1 : clock) (tr : list action) :
  tidy w ->
  updated op (this w) (now w) = Some c1 ->
  perform behave op w = Returns tt w' tr ->
  tidy w'.
Proof.
  intros Htidy Hup Hrun.
  assert (Htidy0 : tidy (with_clock c1 w)).
  { apply tidy_config; [ | exact Htidy ]. eapply updated_listeners; exact Hup. }
  rewrite (perform_unfold behave _ _ Hup) in Hrun. unfold bind in Hrun.
  destruct (_recalculateTimeListeners (with_clock c1 w)) as [[] w1 tr1| |] eqn:Hre;
    try discriminate.
  rewrite announce_dispatch in Hrun. simpl in Hrun. injection Hrun as <- _.
  apply dispatch_all_tidy. eapply recalculate_all_tidy; eassumption.
Qed.

(** A timer that fires keeps the table tidy. *)
Lemma fire_tidy (id : nat) (w w' : world) (tr : list action) :
  tidy w -> fire behave id w = Returns tt w' tr -> tidy w'.
Proof.
  intros Htidy. unfold fire.
  destruct (find (fun t => Nat.eqb (t_id t) id) (timers w)) as [t|] eqn:Hfind.
  2:{ intros H. injection H as <- _. exact Htidy. }
  apply find_some in Hfind as [Hin Hid]. apply Nat.eqb_eq in Hid. subst id.
  unfold bind, clearTimeout. simpl. fold (cleared (t_id t) w).
  pose proof (tidy_cleared (t_id t) Htidy) as Hclr.
  destruct (t_run t) as [l|l] eqn:Hrun; simpl.
  - rewrite after_nil. apply recalculate_tidy. exact Hclr.
  - unfold bind, read, get_time, timeListeners_set, timeListeners_delete,
      update, record, apply. simpl.
    destruct (tl_get l (_timeListeners (this w))) as [d|] eqn:Hget.
    2:{ simpl. intros H. injection H as Hw _. rewrite <- Hw. exact Hclr. }
    simpl. rewrite !after_nil.
    destruct (time (this w) (now w)) as [cur|]; [ | intros H; discriminate ].
    simpl. rewrite !after_nil.
    assert (Hset : tidy (with_clock
                           (with_timeListeners
                              (tl_set l {| timeoutId := 0; lastCalled := cur; once := once d |}
                                      (_timeListeners (this w))) (this w))
                           (cleared (t_id t) w))).
    { replace l with (target (t_run t)) by (rewrite Hrun; reflexivity).
      apply tidy_fired with (d := d); [ exact Htidy | exact Hin | ].
      rewrite Hrun. exact Hget. }
    pose proof (behave_tidy (l_callback l) Hset) as Hw2.
    match goal with
    | |- context [behave ?f ?x] => set (w2 := behave f x) in *
    end.
    clearbody w2. destruct (once d); simpl.
    + intros H. injection H as <- _. apply tidy_delete. exact Hw2.
    + destruct (_recalculateTimeListener l w2) as [[] w3 tr3| |] eqn:H3;
        simpl; intros H; try discriminate.
      injection H as <- _. eapply recalculate_tidy; eassumption.
Qed.
End Tidy.

Section TidyOperations.
Variable behave : nat -> world -> world.
Hypothesis behave_tidy : well_behaved behave.

(** Every public operation that returns keeps the table tidy, whether it
    changes the state or only announces [setrunning]. *)
Lemma operation_tidy (op : operation) (w w' : world) (tr : list action) :
  tidy w -> perform behave op w = Returns tt w' tr -> tidy w'.
Proof.
  intros Htidy Hrun.
  destruct (updated op (this w) (now w)) as [c1|] eqn:Hup.
  { eapply perform_tidy; eassumption. }
  assert (Hquiet : forall event, perform behave op w = trigger behave event w -> tidy w').
  { intros event E. rewrite E, trigger_dispatch in Hrun. injection Hrun as <- _.
    apply dispatch_tidy; assumption. }
  revert Hrun.
  destruct op; simpl in Hup |- *; unfold option_map in Hup.
  - destruct (_running (this w)) eqn:Hr; [ | discriminate Hup ].
    intros _. apply (Hquiet "setrunning"%string).
    simpl. unfold start, bind, read, when. simpl. rewrite Hr. simpl.
    rewrite !after_nil. reflexivity.
  - destruct (_running (this w)) eqn:Hr.
    + unfold stop, bind, read, when, get_time. simpl. rewrite Hr.
      destruct (time (this w) (now w)); [ discriminate Hup | discriminate ].
    + intros _. apply (Hquiet "setrunning"%string).
      simpl. unfold stop, bind, read, when. simpl. rewrite Hr. simpl.
      rewrite !after_nil. reflexivity.
  - discriminate Hup.
  - unfold set_rate, bind, read, when, get_time. simpl.
    destruct (_running (this w)); [ | discriminate Hup ].
    destruct (time (this w) (now w)); [ discriminate Hup | discriminate ].
  - unfold set_minimum, bind, read, get_time. simpl.
    destruct (time (this w) (now w)); [ | discriminate ]. simpl.
    destruct (JS.gt minimum (_maximum (this w)) || JS.eq minimum PosInf);
      [ discriminate | discriminate Hup ].
  - unfold set_maximum, bind, read, get_time. simpl.
    destruct (time (this w) (now w)); [ | discriminate ]. simpl.
    destruct (JS.lt maximum (_minimum (this w)) || JS.eq maximum NegInf);
      [ discriminate | discriminate Hup ].
  - unfold set_loop, bind, read, get_time. simpl.
    destruct (time (this w) (now w)); [ discriminate Hup | discriminate ].
Qed.

Lemma on_tidy (event : string) (callback : nat) (w w' : world) (tr : list action) :
  tidy w -> on event callback w = Returns tt w' tr -> tidy w'.
Proof.
  intros Htidy. unfold on, bind, read, update. simpl.
  destruct (el_get event (_eventListeners (this w))); simpl;
    intros H; injection H as <- _; apply tidy_config; auto.
Qed.

Lemma off_tidy (event : string) (callback : nat) (w w' : world) (tr : list action) :
  tidy w -> off event callback w = Returns tt w' tr -> tidy w'.
Proof.
  intros Htidy. unfold off, bind, read, update, throw. simpl.
  destruct (el_get event (_eventListeners (this w))) as [fs|]; simpl;
    [ destruct (indexOf callback fs); simpl | ];
    intros H; try discriminate; injection H as <- _; apply tidy_config; auto.
Qed.
End TidyOperations.

(** * Further properties of the code *)

(** ** The event bus (lines 99-146) *)

Lemma el_get_set (event other : string) (fs : list nat) (m : list (string * list nat)) :
  el_get other (el_set event fs m) =
  if String.eqb event other then Some fs else el_get other m.
Proof.
  induction m as [|[k fs0] m IH]; simpl.
  - destruct (String.eqb event other); reflexivity.
  - destruct (String.eqb k event) eqn:Hk; simpl.
    + apply String.eqb_eq in Hk. subst k.
      destruct (String.eqb event other); reflexivity.
    + destruct (String.eqb k other) eqn:Ho.
      * apply String.eqb_eq in Ho. subst k.
        rewrite String.eqb_sym, Hk. reflexivity.
      * exact IH.
Qed.

Lemma el_get_set_other (event other : string) (fs : list nat) (m : list (string * list nat)) :
  other <> event -> el_get other (el_set event fs m) = el_get other m.
Proof.
  intros Hne. rewrite el_get_set.
  destruct (String.eqb event other) eqn:E; [ | reflexivity ].
  apply String.eqb_eq in E. congruence.
Qed.

Lemma el_get_set_same (event : string) (fs : list nat) (m : list (string * list nat)) :
  el_get event (el_set event fs m) = Some fs.
Proof. rewrite el_get_set, String.eqb_refl. reflexivity. Qed.

Lemma indexOf_present (callback : nat) (fs : list nat) :
  In callback fs -> exists i, indexOf callback fs = Some i.
Proof.
  induction fs as [|f fs IH]; simpl; [ intros [] | ].
  intros H. destruct (Nat.eqb f callback) eqn:E; [ eexists; reflexivity | ].
  destruct H as [H | H]; [ subst f; rewrite Nat.eqb_refl in E; discriminate | ].
  destruct (IH H) as [i Hi]. rewrite Hi. eexists. reflexivity.
Qed.

Lemma splice1_indexOf (callback : nat) (fs : list nat) :
  forall i, indexOf callback fs = Some i -> splice1 i fs = remove_first callback fs.
Proof.
  induction fs as [|f fs IH]; simpl; [ discriminate | ].
  intros i. destruct (Nat.eqb f callback); [ intros H; injection H as <-; reflexivity | ].
  destruct (indexOf callback fs) as [j|]; simpl; [ | discriminate ].
  intros H. injection H as <-. simpl. rewrite (IH j eq_refl). reflexivity.
Qed.

Lemma remove_first_last (callback : nat) (fs : list nat) :
  ~ In callback fs -> remove_first callback (fs ++ [callback]) = fs.
Proof.
  induction fs as [|f fs IH]; simpl; intros H.
  - rewrite Nat.eqb_refl. reflexivity.
  - destruct (Nat.eqb f callback) eqn:E.
    + apply Nat.eqb_eq in E. subst f. exfalso. apply H. left. reflexivity.
    + rewrite IH; [ reflexivity | ]. intros Hin. apply H. right. exact Hin.
Qed.

Lemma on_unfold (event : string) (callback : nat) (w : world) :
  on event callback w =
  Returns tt (with_clock
                (with_eventListeners
                   (el_set event (attached event (this w) ++ [callback])
                           (_eventListeners (this w))) (this w)) w) [].
Proof.
  unfold on, bind, read, update, attached. simpl.
  destruct (el_get event (_eventListeners (this w))); reflexivity.
Qed.

Lemma off_unfold (event : string) (callback : nat) (w : world) :
  off event callback w =
  match indexOf callback (attached event (this w)) with
  | Some i =>
      Returns tt (with_clock
                    (with_eventListeners
                       (el_set event (splice1 i (attached event (this w)))
                               (_eventListeners (this w))) (this w)) w) []
  | None => Throws "Event listener not found" w []
  end.
Proof.
  unfold off, bind, read, update, throw, attached. simpl.
  destruct (el_get event (_eventListeners (this w))) as [fs|]; simpl; [ | reflexivity ].
  destruct (indexOf callback fs); reflexivity.
Qed.

Lemma attached_set (event other : string) (fs : list nat) (c : clock) :
  attached other (with_eventListeners (el_set event fs (_eventListeners c)) c) =
  if String.eqb event other then fs else attached other c.
Proof.
  unfold attached. simpl. rewrite el_get_set.
  destruct (String.eqb event other); reflexivity.
Qed.

(** X1.  [on] always returns: the callback is added after the callbacks
    already attached to the event, also when it is attached already; the
    lists of the other events and everything else in the world stay as they
    were. *)
Theorem on_appends_listener (event : string) (callback : nat) (w : world) :
  exists listeners,
    on event callback w =
      Returns tt (with_clock (with_eventListeners listeners (this w)) w) [] /\
    el_get event listeners = Some (attached event (this w) ++ [callback]) /\
    (forall other, other <> event ->
                   el_get other listeners = el_get other (_eventListeners (this w))).
Proof.
  rewrite on_unfold. eexists. split; [ reflexivity | ]. split.
  - apply el_get_set_same.
  - intros other Hne. apply el_get_set_other. exact Hne.
Qed.

(** X2.  [off] for a callback that is attached to the event returns: it
    takes the first occurrence of the callback out of the event's list and
    keeps the others in their order; the lists of the other events and
    everything else in the world stay as they were. *)
Theorem off_removes_first_occurrence (event : string) (callback : nat) (w : world) :
  In callback (attached event (this w)) ->
  exists listeners,
    off event callback w =
      Returns tt (with_clock (with_eventListeners listeners (this w)) w) [] /\
    el_get event listeners = Some (remove_first callback (attached event (this w))) /\
    (forall other, other <> event ->
                   el_get other listeners = el_get other (_eventListeners (this w))).
Proof.
  intros Hin. rewrite off_unfold.
  destruct (indexOf_present _ _ Hin) as [i Hi]. rewrite Hi.
  eexists. split; [ reflexivity | ]. split.
  - rewrite el_get_set_same, (splice1_indexOf _ _ Hi). reflexivity.
  - intros other Hne. apply el_get_set_other. exact Hne.
Qed.

(** X3.  Attaching a callback that was not attached to the event and
    detaching it again returns, and leaves every event with the callbacks
    it had; a second [off] then throws. *)
Theorem on_off_round_trip (event : string) (callback : nat) (w : world) :
  ~ In callback (attached event (this w)) ->
  exists w',
    (on event callback ;; off event callback) w = Returns tt w' [] /\
    (forall e, attached e (this w') = attached e (this w)) /\
    off event callback w' = Throws "Event listener not found" w' [].
Proof.
  intros Hout. unfold bind. rewrite on_unfold, off_unfold. simpl this.
  rewrite attached_set, String.eqb_refl.
  assert (Hin : In callback (attached event (this w) ++ [callback])).
  { apply in_or_app. right. left. reflexivity. }
  destruct (indexOf_present _ _ Hin) as [i Hi]. rewrite Hi. simpl.
  rewrite (splice1_indexOf _ _ Hi), (@remove_first_last callback _ Hout).
  eexists. split; [ reflexivity | ].
  assert (Hsame : forall e,
             attached e (with_eventListeners
                           (el_set event (attached event (this w))
                              (el_set event (attached event (this w) ++ [callback])
                                 (_eventListeners (this w)))) (this w))
             = attached e (this w)).
  { intros e. unfold attached at 1. simpl. rewrite !el_get_set.
    destruct (String.eqb event e) eqn:E; [ | reflexivity ].
    apply String.eqb_eq in E. subst e. reflexivity. }
  split; [ exact Hsame | ].
  rewrite off_unfold. simpl this. rewrite Hsame.
  rewrite (@indexOf_absent callback _ Hout). reflexivity.
Qed.

Section Trigger.
Variable behave : nat -> world -> world.

(** X4.  [trigger] always returns, having called the callbacks that were
    attached to the event when the call began, each once per attachment
    and in the order of attachment, whatever the callbacks do to the lists
    meanwhile; for an event without callbacks the world stays as it was. *)
Theorem trigger_calls_attached_in_order (event : string) (w : world) :
  trigger behave event w =
    Returns tt (fold_left (fun w f => behave f w) (attached event (this w)) w)
            [Triggered event] /\
  (attached event (this w) = [] -> trigger behave event w = Returns tt w [Triggered event]).
Proof.
  assert (H : trigger behave event w =
              Returns tt (fold_left (fun w f => behave f w) (attached event (this w)) w)
                      [Triggered event]).
  { rewrite trigger_dispatch. reflexivity. }
  split; [ exact H | ].
  intros E. rewrite H, E. reflexivity.
Qed.
End Trigger.

(** ** The time getter (lines 283-317) *)

(** The operations on numbers do not see how a rational is written. *)

Lemma lt_same (a a' b b' : num) :
  JS.same a a' -> JS.same b b' -> JS.lt a b = JS.lt a' b'.
Proof.
  destruct a, a', b, b'; simpl; try contradiction; try reflexivity.
  intros H1 H2. unfold JS.Qltb. rewrite H1, H2. reflexivity.
Qed.

Lemma le_same (a a' b b' : num) :
  JS.same a a' -> JS.same b b' -> JS.le a b = JS.le a' b'.
Proof.
  destruct a, a', b, b'; simpl; try contradiction; try reflexivity.
  intros H1 H2. rewrite H1, H2. reflexivity.
Qed.

Lemma add_same (a a' b b' : num) :
  JS.same a a' -> JS.same b b' -> JS.same (JS.add a b) (JS.add a' b').
Proof.
  destruct a, a', b, b'; simpl; try contradiction; auto.
  intros H1 H2. rewrite H1, H2. reflexivity.
Qed.

Lemma neg_same (a a' : num) : JS.same a a' -> JS.same (JS.neg a) (JS.neg a').
Proof.
  destruct a, a'; simpl; try contradiction; auto.
  intros H. rewrite H. reflexivity.
Qed.

Lemma sub_same (a a' b b' : num) :
  JS.same a a' -> JS.same b b' -> JS.same (JS.sub a b) (JS.sub a' b').
Proof. intros H1 H2. apply add_same; [ exact H1 | apply neg_same; exact H2 ]. Qed.

Lemma Qtrunc_same (x y : Q) : (x == y)%Q -> JS.Qtrunc x = JS.Qtrunc y.
Proof.
  intros H. unfold JS.Qtrunc. rewrite H.
  destruct (Qle_bool 0 y); [ apply Qfloor_comp | apply Qceiling_comp ]; exact H.
Qed.

Lemma rem_same (a a' b : num) : JS.same a a' -> JS.same (JS.rem a b) (JS.rem a' b).
Proof.
  destruct a, a', b; simpl; try contradiction; auto.
  intros H. destruct (JS.Qsign q1); simpl; auto;
    rewrite (@Qtrunc_same (q / q1) (q0 / q1)) by (rewrite H; reflexivity);
    rewrite H; reflexivity.
Qed.

Lemma append_laps_same (c : clock) (n : nat) :
  forall u v, JS.same u v -> same_reading (append_laps n c u) (append_laps n c v).
Proof.
  induction n as [|n IH]; intros u v H; simpl; [ exact I | ].
  assert (Hs : JS.same (JS.add u (span c)) (JS.add v (span c))).
  { apply add_same; [ exact H | apply same_refl ]. }
  rewrite (@lt_same _ _ _ _ Hs (same_refl (_minimum c))).
  destruct (JS.lt (JS.add v (span c)) (_minimum c)); [ apply IH; exact Hs | exact Hs ].
Qed.

Lemma substract_laps_same (c : clock) (n : nat) :
  forall u v, JS.same u v -> same_reading (substract_laps n c u) (substract_laps n c v).
Proof.
  induction n as [|n IH]; intros u v H; simpl; [ exact I | ].
  unfold JS.ge. rewrite (@le_same _ _ _ _ (same_refl (_maximum c)) H).
  destruct (JS.le (_maximum c) v); [ | exact H ].
  apply IH. apply sub_same; [ exact H | apply same_refl ].
Qed.

Lemma bound_time_same (c : clock) (n : nat) (u v : num) :
  JS.same u v -> same_reading (bound_time n c u) (bound_time n c v).
Proof.
  intros H. unfold bound_time. destruct (can_loop c).
  - rewrite (@lt_same _ _ _ _ H (same_refl (_minimum c))).
    destruct (JS.lt v (_minimum c)); [ apply append_laps_same; exact H | ].
    destruct (JS.eq (_minimum c) JS.zero);
      [ apply rem_same; exact H | apply substract_laps_same; exact H ].
  - simpl. apply clamp_same. exact H.
Qed.

Lemma laps_same (c : clock) (u v : num) : JS.same u v -> laps c u = laps c v.
Proof.
  intros H. destruct u as [| |x|], v as [| |y|]; try contradiction; auto.
  change (x == y)%Q in H. unfold laps.
  destruct (_minimum c) as [| |lo|]; auto. destruct (_maximum c) as [| |hi|]; auto.
  do 3 f_equal. apply Qceiling_comp. rewrite H. reflexivity.
Qed.

(** Two samples at which the raw time is the same read the same. *)
Lemma time_same_raw (c : clock) (wall wall' : Q) :
  JS.same (raw_time c wall) (raw_time c wall') ->
  same_reading (time c wall) (time c wall').
Proof.
  intros H. unfold time. rewrite (@laps_same c _ _ H). apply bound_time_same. exact H.
Qed.

(** X5.  A clock that is stopped, and a running clock whose rate is 0, read
    the same at every wall-clock sample. *)
Theorem time_stands_still (c : clock) (wall wall' : Q) :
  _running c = false \/
  (JS.eq (_rate c) JS.zero = true /\ JS.is_finite (_previousNow c) = true) ->
  same_reading (time c wall) (time c wall').
Proof.
  intros H. apply time_same_raw. unfold raw_time.
  destruct (_running c); [ | apply same_refl ].
  destruct H as [H | [Hr Hn]]; [ discriminate | ].
  destruct (_rate c) as [| |r|]; try discriminate.
  destruct (_previousNow c) as [| |p|]; try discriminate.
  simpl in Hr. qprop.
  destruct (_previousTime c) as [| |x|]; simpl; auto.
  rewrite Hr. ring.
Qed.

(** X27.  The getter over equal bounds.  On a clock that loops over two
    equal finite bounds the getter returns no time.  Over a bound other
    than 0 its loop adds or subtracts a span of 0 and never ends, whatever
    the raw time that is a number; over the bound 0 it returns [NaN] for a
    raw time that is not negative, and never returns for a negative one. *)
Theorem time_hangs_on_equal_bounds (c : clock) (lo hi : Q) (currentTime : num) :
  can_loop c = true -> _minimum c = Fin lo -> _maximum c = Fin hi -> (lo == hi)%Q ->
  JS.is_nan currentTime = false ->
  (~ (lo == 0)%Q \/ JS.lt currentTime (Fin lo) = true ->
   forall fuel, bound_time fuel c currentTime = None) /\
  ((lo == 0)%Q -> JS.lt currentTime (Fin lo) = false ->
   forall fuel, bound_time fuel c currentTime = Some NaN).
Proof.
  intros Hloop Hmin Hmax Heq Hnan.
  assert (Hflat : flat_span c).
  { unfold flat_span, span. rewrite Hmin, Hmax. simpl. lra. }
  split.
  - intros H fuel. unfold bound_time. rewrite Hloop, Hmin.
    destruct (JS.lt currentTime (Fin lo)) eqn:E1.
    + apply append_laps_flat; [ exact Hflat | rewrite Hmin; exact E1 ].
    + destruct H as [Hnz | Hlt]; [ | discriminate ].
      assert (E2 : JS.eq (Fin lo) JS.zero = false) by (simpl; qprop; exact Hnz).
      rewrite E2. apply substract_laps_flat; [ exact Hflat | | ].
      * rewrite Hmax. unfold JS.ge.
        destruct currentTime as [| |x|]; try discriminate; try reflexivity.
        simpl in E1 |- *. qprop. lra.
      * intros ->. discriminate.
  - intros Hz E1 fuel. unfold bound_time. rewrite Hloop, Hmin, Hmax, E1.
    assert (E2 : JS.eq (Fin lo) JS.zero = true) by (simpl; qprop; exact Hz).
    rewrite E2. f_equal.
    destruct currentTime as [| |x|]; try discriminate; try reflexivity.
    unfold JS.rem, JS.Qsign.
    assert (E3 : (hi ?= 0)%Q = Eq) by (apply Qeq_alt; lra).
    rewrite E3. reflexivity.
Qed.

(** ** The operations and the displayed time (lines 55-92, 358-466) *)



(** The reading of a clock whose reference time is not a number. *)
Lemma time_reference_NaN (c : clock) (wall : Q) :
  _previousTime c = NaN -> time c wall = Some NaN.
Proof.
  intros H. unfold time, raw_time. rewrite H.
  assert (E : (if _running c
               then JS.add NaN (JS.mul (_rate c) (JS.sub (Fin wall) (_previousNow c)))
               else NaN) = NaN) by (destruct (_running c); reflexivity).
  rewrite E. unfold bound_time. destruct (can_loop c); [ | ].
  - simpl JS.lt. destruct (JS.eq (_minimum c) JS.zero); [ reflexivity | ].
    simpl. unfold JS.ge. destruct (_maximum c); reflexivity.
  - destruct (_minimum c), (_maximum c); reflexivity.
Qed.


(** On a clock that loops from 0 to a positive maximum, the maximum folds
    into 0. *)
Lemma maximum_wraps (c : clock) (lo hi : Q) (u : num) (n : nat) :
  can_loop c = true -> _minimum c = Fin lo -> (lo == 0)%Q ->
  _maximum c = Fin hi -> (0 < hi)%Q ->
  JS.same u (Fin hi) ->
  exists t', bound_time n c u = Some t' /\ JS.same t' (Fin 0).
Proof.
  intros Hloop Hmin Hz Hmax Hpos Hu.
  assert (Hhi : exists t', bound_time n c (Fin hi) = Some t' /\ JS.same t' (Fin 0)).
  { unfold bound_time. rewrite Hloop, Hmin. simpl JS.lt.
    assert (E1 : JS.Qltb hi lo = false) by (qprop; lra). rewrite E1.
    simpl JS.eq. assert (E2 : Qeq_bool lo 0 = true) by (qprop; exact Hz). rewrite E2.
    rewrite Hmax. simpl. rewrite (Qsign_pos Hpos). eexists. split; [ reflexivity | ].
    simpl.
    assert (E : JS.Qtrunc (hi / hi) = 1%Z).
    { rewrite (@Qtrunc_same (hi / hi) 1); [ reflexivity | field; lra ]. }
    rewrite E. change (inject_Z 1) with 1%Q. lra. }
  destruct Hhi as (t1 & Ht1 & Hs1).
  pose proof (@bound_time_same c n u (Fin hi) Hu) as Hb. rewrite Ht1 in Hb.
  destruct (bound_time n c u) as [t'|]; [ | contradiction ].
  exists t'. split; [ reflexivity | ]. eapply same_trans; eassumption.
Qed.

Section Setters.
Variable behave : nat -> world -> world.


(** An operation whose state update leaves a clock that reads [t] returns,
    and the world it hands to the event listeners reads [t]. *)
Lemma perform_shows (op : operation) (w : world) (c1 : clock) (t : num) :
  updated op (this w) (now w) = Some c1 ->
  time c1 (now w) = Some t ->
  exists w1,
    _recalculateTimeListeners (with_clock c1 w) = Returns tt w1 [Recalculated] /\
    perform behave op w =
    Returns tt (dispatch_all behave (announced op) w1)
               (Recalculated :: map Triggered (announced op)) /\
    kept (with_clock c1 w) w1 /\
    time (this w1) (now w1) = Some t.
Proof.
  intros Hup Ht.
  destruct (@recalculate_all_returns (with_clock c1 w)) as (w1 & Hre & K).
  { simpl. congruence. }
  exists w1. split; [ exact Hre | ]. split; [ eapply perform_pipeline; eassumption | ].
  split; [ exact K | ]. rewrite (kept_time K). exact Ht.
Qed.

(** X8.  The setters of the time and of the two bounds do not reject
    [NaN]: given [NaN] they return, and from then on the reference time is
    [NaN] and the clock reads [NaN] at every wall-clock sample; a bound
    given as [NaN] is stored. *)
Theorem NaN_is_not_rejected (w : world) (op : operation) :
  op = SetTime NaN \/ op = SetMinimum NaN \/ op = SetMaximum NaN ->
  time (this w) (now w) <> None ->
  exists w1,
    perform behave op w =
    Returns tt (dispatch_all behave (announced op) w1)
               (Recalculated :: map Triggered (announced op)) /\
    _previousTime (this w1) = NaN /\
    (op = SetMinimum NaN -> _minimum (this w1) = NaN) /\
    (op = SetMaximum NaN -> _maximum (this w1) = NaN) /\
    (forall wall, time (this w1) wall = Some NaN).
Proof.
  intros Hop Hret.
  destruct (time (this w) (now w)) as [t|] eqn:Ht; [ clear Hret | congruence ].
  assert (Hup : exists c1, updated op (this w) (now w) = Some c1 /\
                           _previousTime c1 = NaN /\
                           (op = SetMinimum NaN -> _minimum c1 = NaN) /\
                           (op = SetMaximum NaN -> _maximum c1 = NaN)).
  { destruct Hop as [-> | [-> | ->]]; simpl; rewrite ?Ht; simpl.
    - eexists. split; [ reflexivity | ]. simpl. unfold clamp.
      split; [ destruct (_minimum (this w)), (_maximum (this w)); reflexivity | ].
      split; discriminate.
    - assert (E : JS.gt NaN (_maximum (this w)) = false)
        by (unfold JS.gt; destruct (_maximum (this w)); reflexivity).
      rewrite E. simpl. eexists. split; [ reflexivity | ]. simpl. unfold clamp. simpl.
      split; [ reflexivity | ]. split; [ reflexivity | discriminate ].
    - eexists. split; [ reflexivity | ]. simpl. unfold clamp. simpl.
      split; [ destruct (JS.max (_minimum (this w)) t); reflexivity | ].
      split; [ discriminate | reflexivity ]. }
  destruct Hup as (c1 & Hup & Hprev & Hmin & Hmax).
  destruct (@perform_shows op w c1 NaN Hup (time_reference_NaN c1 (now w) Hprev))
    as (w1 & _ & Hrun & K & _).
  destruct K as (Hcfg & _). apply config_fields in Hcfg. simpl in Hcfg.
  destruct Hcfg as (Hp & _ & _ & _ & Hlo & Hhi & _).
  exists w1. split; [ exact Hrun | ]. split; [ congruence | ].
  split; [ intros E; rewrite Hlo; auto | ].
  split; [ intros E; rewrite Hhi; auto | ].
  intros wall. apply time_reference_NaN. congruence.
Qed.

(** X10.  Setting the time returns with the reference pair set to the
    given time clamped and the present wall-clock sample.  The clock then
    reads the given time clamped, when it does not loop or when the clamped
    time lies inside the range of the getter. *)
Theorem set_time_round_trip (w : world) (t : num) :
  (_running (this w) = true -> JS.is_finite (_rate (this w)) = true) ->
  can_loop (this w) = false \/ inside (this w) (clamp (this w) t) = true ->
  exists w1 t',
    set_time behave t w =
      Returns tt (dispatch behave "settime" w1) [Recalculated; Triggered "settime"] /\
    _previousTime (this w1) = clamp (this w) t /\
    _previousNow (this w1) = Fin (now w) /\
    time (this w1) (now w1) = Some t' /\ JS.same t' (clamp (this w) t).
Proof.
  intros Hrate Hcase.
  set (c1 := calibrate (clamp (this w) t) (now w) (this w)).
  assert (Hshow : exists t', time c1 (now w) = Some t' /\ JS.same t' (clamp (this w) t)).
  { destruct Hcase as [Hloop | Hin].
    - destruct (@calibrated_clamps c1 (now w) Hloop eq_refl Hrate) as (t' & Ht' & Hs).
      exists t'. split; [ exact Ht' | ].
      eapply same_trans; [ exact Hs | apply clamp_twice ].
    - apply (@calibrated_displays c1 (now w) (clamp (this w) t) eq_refl Hrate).
      + apply same_refl.
      + exact Hin. }
  destruct Hshow as (t' & Ht' & Hs).
  destruct (@perform_shows (SetTime t) w c1 t' eq_refl Ht') as (w1 & _ & Hrun & K & Hw1).
  destruct K as (Hcfg & _). apply config_fields in Hcfg. simpl in Hcfg.
  destruct Hcfg as (Hp & Hn & _).
  exists w1, t'. split; [ exact Hrun | ]. repeat split; assumption.
Qed.

(** X12.  An operation that updates the state stores what it is given:
    read back through the getters from the world handed to the event
    listeners, the running flag is true after [start] and false after
    [stop], and the rate, a bound and the loop flag are the values set.
    No operation changes another of these five than its own, the event
    listeners, or which time listeners are registered. *)
Theorem setters_read_back (w : world) (op : operation) (c1 : clock) :
  updated op (this w) (now w) = Some c1 ->
  time c1 (now w) <> None ->
  exists w1,
    perform behave op w =
    Returns tt (dispatch_all behave (announced op) w1)
               (Recalculated :: map Triggered (announced op)) /\
    get_running w1 =
      Returns (match op with
               | Start => true | Stop => false | _ => _running (this w)
               end) w1 [] /\
    get_rate w1 =
      Returns (match op with SetRate r => r | _ => _rate (this w) end) w1 [] /\
    get_minimum w1 =
      Returns (match op with SetMinimum m => m | _ => _minimum (this w) end) w1 [] /\
    get_maximum w1 =
      Returns (match op with SetMaximum m => m | _ => _maximum (this w) end) w1 [] /\
    get_loop w1 =
      Returns (match op with SetLoop b => b | _ => _loop (this w) end) w1 [] /\
    _eventListeners (this w1) = _eventListeners (this w) /\
    map fst (_timeListeners (this w1)) = map fst (_timeListeners (this w)).
Proof.
  intros Hup Hret.
  destruct (time c1 (now w)) as [t1|] eqn:Ht1; [ clear Hret | congruence ].
  destruct (@perform_shows op w c1 t1 Hup Ht1) as (w1 & _ & Hrun & K & _).
  destruct K as (Hcfg & _ & Hkeys & _). apply config_fields in Hcfg.
  simpl in Hcfg, Hkeys.
  destruct Hcfg as (_ & _ & Hr & Hg & Hlo & Hhi & Hl & He).
  exists w1. split; [ exact Hrun | ].
  unfold get_running, get_rate, get_minimum, get_maximum, get_loop, read.
  rewrite Hr, Hg, Hlo, Hhi, Hl, He, Hkeys.
  rewrite (updated_listeners _ _ _ Hup).
  destruct op; simpl in Hup; unfold option_map in Hup;
    repeat match type of Hup with
           | context [time ?c ?v] => destruct (time c v)
           | context [if ?g then _ else _] => destruct g eqn:?
           end;
    try discriminate; injection Hup as <-; simpl; repeat split; congruence.
Qed.

(** X28.  On a clock that loops from 0 to a positive maximum, setting the
    time to the maximum or beyond makes the clock read 0: the setter clamps
    the reference time to the maximum, and the getter takes its remainder
    by the maximum. *)
Theorem set_time_wraps_at_maximum (w : world) (t : num) (lo hi : Q) :
  can_loop (this w) = true ->
  _minimum (this w) = Fin lo -> (lo == 0)%Q ->
  _maximum (this w) = Fin hi -> (0 < hi)%Q ->
  (_running (this w) = true -> JS.is_finite (_rate (this w)) = true) ->
  JS.ge t (Fin hi) = true ->
  exists w1 t',
    set_time behave t w =
      Returns tt (dispatch behave "settime" w1) [Recalculated; Triggered "settime"] /\
    JS.same (_previousTime (this w1)) (Fin hi) /\
    time (this w1) (now w1) = Some t' /\ JS.same t' (Fin 0).
Proof.
  intros Hloop Hmin Hz Hmax Hpos Hrate Hge.
  set (c1 := calibrate (clamp (this w) t) (now w) (this w)).
  assert (Hprev : JS.same (_previousTime c1) (Fin hi)).
  { simpl. unfold clamp. rewrite Hmin, Hmax. unfold JS.ge in Hge.
    destruct t as [| |x|]; try discriminate; simpl in Hge |- *;
      qcases; qprop; simpl; try lra; try reflexivity. }
  assert (Hraw : JS.same (raw_time c1 (now w)) (Fin hi)).
  { eapply same_trans; [ apply raw_time_calibrated; [ reflexivity | exact Hrate ] | ].
    exact Hprev. }
  destruct (@maximum_wraps c1 lo hi (raw_time c1 (now w)) (laps c1 (raw_time c1 (now w)))
              Hloop Hmin Hz Hmax Hpos Hraw)
    as (t' & Htime & Hs).
  destruct (@perform_shows (SetTime t) w c1 t' eq_refl Htime) as (w1 & _ & Hrun & K & Hw1).
  destruct K as (Hcfg & _). apply config_fields in Hcfg. simpl in Hcfg.
  destruct Hcfg as (Hp & _).
  exists w1, t'. split; [ exact Hrun | ]. split; [ rewrite Hp; exact Hprev | ].
  split; assumption.
Qed.
End Setters.

(** ** Time listeners: registration and firing (lines 160-277) *)

Lemma tl_get_delete (l : listener) (m : list (listener * listenerData)) :
  tl_get l (tl_delete l m) = None.
Proof.
  apply tl_get_none. intros kd Hkd. unfold tl_delete in Hkd.
  apply filter_In in Hkd as [_ Hk]. unfold same_listener in Hk.
  intros E. rewrite E, Nat.eqb_refl in Hk. discriminate.
Qed.

Section Fired.
Variable behave : nat -> world -> world.

(** What the host's firing of a timer amounts to. *)
Lemma fire_unfold (id : nat) (w : world) :
  fire behave id w =
  match find (fun t => Nat.eqb (t_id t) id) (timers w) with
  | None => Returns tt w []
  | Some tm =>
      match t_run tm with
      | Retry l => _recalculateTimeListener l (cleared id w)
      | Fire l =>
          match tl_get l (_timeListeners (this w)) with
          | None => Returns tt (cleared id w) []
          | Some d =>
              match time (this w) (now w) with
              | None => Hangs
              | Some t =>
                  let called := behave (l_callback l) (stamped id l t (once d) w) in
                  if once d
                  then Returns tt (unregistered l called) [Called (l_callback l)]
                  else after [Called (l_callback l)] (_recalculateTimeListener l called)
              end
          end
      end
  end.
Proof.
  unfold fire.
  destruct (find (fun t => Nat.eqb (t_id t) id) (timers w)) as [tm|]; [ | reflexivity ].
  unfold bind, clearTimeout. simpl. fold (cleared id w).
  destruct (t_run tm) as [l|l]; simpl.
  - rewrite after_nil. reflexivity.
  - unfold bind, read, get_time, timeListeners_set, timeListeners_delete,
      update, record, apply. simpl.
    destruct (tl_get l (_timeListeners (this w))) as [d|]; [ | reflexivity ].
    simpl. rewrite !after_nil.
    destruct (time (this w) (now w)) as [t|]; [ | reflexivity ].
    simpl. rewrite !after_nil. fold (stamped id l t (once d) w).
    destruct (once d); simpl; [ reflexivity | ].
    destruct (_recalculateTimeListener l (behave (l_callback l) (stamped id l t false w)));
      reflexivity.
Qed.

(** X13.  When the timer of a listener registered with [onceAt] fires, the
    callback is called once, in a world where the timer is out of the table
    and the entry holds the time of the call; after the callback, whatever
    it did, the listener is no longer registered, and a timer still pending
    for it fires without calling anything. *)
Theorem once_listener_fires_once (w : world) (id : nat) (tm : timer) (l : listener)
        (d : listenerData) (t : num) :
  find (fun t => Nat.eqb (t_id t) id) (timers w) = Some tm ->
  t_run tm = Fire l ->
  tl_get l (_timeListeners (this w)) = Some d ->
  once d = true ->
  time (this w) (now w) = Some t ->
  exists w',
    fire behave id w = Returns tt w' [Called (l_callback l)] /\
    w' = unregistered l (behave (l_callback l) (stamped id l t true w)) /\
    tl_get l (_timeListeners (this w')) = None /\
    (forall id' tm',
        find (fun t => Nat.eqb (t_id t) id') (timers w') = Some tm' ->
        l_id (target (t_run tm')) = l_id l ->
        fire behave id' w' = Returns tt (cleared id' w') []).
Proof.
  intros Hfind Hrun Hget Honce Ht.
  eexists. split; [ | split; [ reflexivity | ] ].
  - rewrite fire_unfold, Hfind, Hrun, Hget, Ht, Honce. reflexivity.
  - assert (Hgone : forall k, l_id k = l_id l ->
                      tl_get k (_timeListeners
                                  (this (unregistered l
                                           (behave (l_callback l) (stamped id l t true w)))))
                      = None).
    { intros k Hk. rewrite (@tl_get_same_id k l _ Hk). apply tl_get_delete. }
    split; [ apply Hgone; reflexivity | ].
    intros id' tm' Hfind' Hid. apply fire_dead with (t := tm'); [ exact Hfind' | ].
    apply Hgone. exact Hid.
Qed.

End Fired.

(** *** Registration *)

Lemma register_unfold (due : num) (callback : nat) (one_shot : bool) (w : world) :
  (if one_shot then onceAt due callback else alwaysAt due callback) w =
  _recalculateTimeListener (newcomer due callback w) (entered due callback one_shot w).
Proof.
  destruct one_shot; unfold onceAt, alwaysAt, bind, new_listener, timeListeners_set, update;
    simpl; rewrite !after_nil; reflexivity.
Qed.

(** A recomputation clears the timer the entry holds and then either
    leaves it at that or arms one timer for the listener. *)
Lemma recalculate_cases (l : listener) (d : listenerData) (w w' : world)
      (tr : list action) :
  tl_get l (_timeListeners (this w)) = Some d ->
  _recalculateTimeListener l w = Returns tt w' tr ->
  w' = cleared (timeoutId d) w \/
  exists run delay last,
    target run = l /\
    w' = armed run delay l last (once d) (cleared (timeoutId d) w).
Proof.
  intros Hget. rewrite recalculate_unfold, Hget. cbv zeta.
  destruct (reachable (this w) (l_time l)).
  2:{ intros H. injection H as <- _. left. reflexivity. }
  destruct (time (this w) (now w)) as [cur|]; [ | discriminate ].
  destruct (JS.eq cur (lastCalled d)).
  - destruct (_loop (this w) || _); intros H; injection H as <- _;
      [ right; do 3 eexists; split; [ | reflexivity ]; reflexivity | left; reflexivity ].
  - destruct (JS.ge _ _ || _); intros H; injection H as <- _;
      [ right; do 3 eexists; split; [ | reflexivity ]; reflexivity | left; reflexivity ].
Qed.

Lemma tl_set_fresh (l : listener) (d : listenerData) (m : list (listener * listenerData)) :
  (forall k, In k (map fst m) -> l_id k <> l_id l) -> tl_set l d m = m ++ [(l, d)].
Proof.
  induction m as [|[k0 d0] m IH]; simpl; intros H; [ reflexivity | ].
  unfold same_listener.
  destruct (Nat.eqb (l_id k0) (l_id l)) eqn:E.
  - apply Nat.eqb_eq in E. exfalso. apply (H k0); auto.
  - rewrite IH; [ reflexivity | ]. intros k Hk. apply H. right. exact Hk.
Qed.

(** X16.  A listener registered for the time [NaN] is inert: registration
    returns with the entry in the table and no timer armed, in no state of
    the clock can [NaN] be reached, so that no recomputation ever arms a
    timer for the entry, and [removeAt] given [NaN] removes nothing,
    whatever the table holds. *)
Theorem NaN_listener_is_inert (w : world) (callback : nat) (one_shot : bool) :
  (exists w',
      (if one_shot then onceAt NaN callback else alwaysAt NaN callback) w
        = Returns tt w' [] /\
      tl_get (newcomer NaN callback w) (_timeListeners (this w'))
        = Some {| timeoutId := 0; lastCalled := NaN; once := one_shot |} /\
      timers w' = cancel 0 (timers w)) /\
  (forall c, reachable c NaN = false) /\
  (forall w2 l d,
      l_time l = NaN -> tl_get l (_timeListeners (this w2)) = Some d ->
      _recalculateTimeListener l w2 = Returns tt (cleared (timeoutId d) w2) []) /\
  (forall w2, removeAt NaN callback w2 = Returns tt w2 []).
Proof.
  assert (Hnever : forall c, reachable c NaN = false).
  { intros c. unfold reachable, JS.ge.
    destruct (_minimum c); simpl; rewrite ?andb_false_r; reflexivity. }
  assert (Hrest : forall w2 l d,
             l_time l = NaN -> tl_get l (_timeListeners (this w2)) = Some d ->
             _recalculateTimeListener l w2 = Returns tt (cleared (timeoutId d) w2) []).
  { intros w2 l d Hl Hget. apply recalculate_unreachable; [ exact Hget | ].
    rewrite Hl. apply Hnever. }
  split; [ | split; [ exact Hnever | split; [ exact Hrest | ] ] ].
  - assert (Hget : tl_get (newcomer NaN callback w)
                          (_timeListeners (this (entered NaN callback one_shot w)))
                   = Some {| timeoutId := 0; lastCalled := NaN; once := one_shot |}).
    { simpl. rewrite tl_get_set, Nat.eqb_refl. reflexivity. }
    eexists. split; [ rewrite register_unfold;
                      apply (Hrest (entered NaN callback one_shot w)
                                   (newcomer NaN callback w) _ eq_refl Hget) | ].
    split; [ exact Hget | reflexivity ].
  - intros w2. unfold removeAt, bind, read. simpl.
    rewrite for_each_skip; [ reflexivity | ].
    intros l _. unfold matches.
    assert (E : JS.eq (l_time l) NaN = false) by (destruct (l_time l); reflexivity).
    rewrite E. reflexivity.
Qed.

(** X20.  Registering a listener on a world whose timer table is in order
    returns, as long as the getter does.  The new entry comes last in the
    table, under an identity of its own, also when the same time and
    callback are registered already; the other entries, the configuration
    of the clock and the timers with identifiers other than 0 are as
    before. *)
Theorem registration_is_separate (w : world) (due : num) (callback : nat)
        (one_shot : bool) :
  tidy w -> time (this w) (now w) <> None ->
  exists w' d,
    (if one_shot then onceAt due callback else alwaysAt due callback) w
      = Returns tt w' [] /\
    map fst (_timeListeners (this w'))
      = map fst (_timeListeners (this w)) ++ [newcomer due callback w] /\
    tl_get (newcomer due callback w) (_timeListeners (this w')) = Some d /\
    once d = one_shot /\
    (forall k, l_id k <> next_object w ->
               tl_get k (_timeListeners (this w')) = tl_get k (_timeListeners (this w))) /\
    config (this w') = config (this w) /\
    (forall t, In t (timers w) -> t_id t <> 0%nat -> In t (timers w')).
Proof.
  intros (_ & _ & Hkeys) Hret.
  set (l := newcomer due callback w). set (w0 := entered due callback one_shot w).
  set (d0 := {| timeoutId := 0; lastCalled := NaN; once := one_shot |}).
  assert (Hfresh : forall k, In k (map fst (_timeListeners (this w))) -> l_id k <> l_id l).
  { intros k Hk. specialize (Hkeys k Hk). simpl. lia. }
  assert (Hget : tl_get l (_timeListeners (this w0)) = Some d0).
  { simpl. rewrite tl_get_set, Nat.eqb_refl. reflexivity. }
  assert (Hkeys0 : map fst (_timeListeners (this w0))
                   = map fst (_timeListeners (this w)) ++ [l]).
  { change (map fst (tl_set l d0 (_timeListeners (this w)))
            = map fst (_timeListeners (this w)) ++ [l]).
    rewrite (@tl_set_fresh l d0 _ Hfresh), map_app. reflexivity. }
  assert (Hother0 : forall k, l_id k <> next_object w ->
                      tl_get k (_timeListeners (this w0))
                      = tl_get k (_timeListeners (this w))).
  { intros k Hk. simpl. rewrite tl_get_set. simpl.
    destruct (Nat.eqb (next_object w) (l_id k)) eqn:E; [ | reflexivity ].
    apply Nat.eqb_eq in E. congruence. }
  destruct (@recalculate_returns l w0) as (w' & Hrun).
  { replace (time (this w0) (now w0)) with (time (this w) (now w));
      [ exact Hret | apply time_config; reflexivity ]. }
  rewrite register_unfold. fold l w0.
  destruct (@recalculate_kept l w0 w' [] Hrun) as (_ & Hcfg & _ & Hk & _).
  destruct (@recalculate_cases l d0 w0 w' [] Hget Hrun) as [-> | (run & delay & last & _ & ->)].
  - exists (cleared 0 w0), d0. split; [ exact Hrun | ].
    split; [ exact Hkeys0 | ]. split; [ exact Hget | ]. split; [ reflexivity | ].
    split; [ exact Hother0 | ]. split; [ reflexivity | ].
    intros t Ht Hid. simpl. apply in_cancel. auto.
  - eexists. eexists. split; [ exact Hrun | ].
    split; [ rewrite Hk; exact Hkeys0 | ].
    split; [ simpl; rewrite tl_get_set, Nat.eqb_refl; reflexivity | ].
    split; [ reflexivity | ].
    split; [ | split; [ exact Hcfg | ] ].
    + intros k Hne. simpl. rewrite !tl_get_set. simpl.
      destruct (Nat.eqb (next_object w) (l_id k)) eqn:E; [ | reflexivity ].
      apply Nat.eqb_eq in E. congruence.
    + intros t Ht Hid. simpl. apply in_or_app. left. apply in_cancel. auto.
Qed.

Lemma tl_set_last (l : listener) (d e : listenerData) (m : list (listener * listenerData)) :
  (forall k, In k (map fst m) -> l_id k <> l_id l) ->
  tl_set l e (m ++ [(l, d)]) = m ++ [(l, e)].
Proof.
  induction m as [|[k0 d0] m IH]; simpl; intros H; unfold same_listener.
  - rewrite Nat.eqb_refl. reflexivity.
  - destruct (Nat.eqb (l_id k0) (l_id l)) eqn:E.
    + apply Nat.eqb_eq in E. exfalso. apply (H k0); auto.
    + rewrite IH; [ reflexivity | ]. intros k Hk. apply H. right. exact Hk.
Qed.

Lemma filter_all {A} (p : A -> bool) (xs : list A) :
  (forall x, In x xs -> p x = true) -> filter p xs = xs.
Proof.
  induction xs as [|x xs IH]; simpl; intros H; [ reflexivity | ].
  rewrite (H x (or_introl eq_refl)), IH; [ reflexivity | ].
  intros y Hy. apply H. right. exact Hy.
Qed.

Lemma existsb_none {A} (p : A -> bool) (xs : list A) :
  (forall x, In x xs -> p x = false) -> existsb p xs = false.
Proof.
  induction xs as [|x xs IH]; simpl; intros H; [ reflexivity | ].
  rewrite (H x (or_introl eq_refl)), IH; [ reflexivity | ].
  intros y Hy. apply H. right. exact Hy.
Qed.

(** X22.  Registering a listener and removing it again with [removeAt]
    gives the table of time listeners back as it was, when the time is a
    number and no listener with the same time and callback was registered
    before; the configuration of the clock is as before, and [removeAt]
    leaves every pending timer in place. *)
Theorem register_remove_round_trip (w : world) (due : num) (callback : nat)
        (one_shot : bool) :
  tidy w -> time (this w) (now w) <> None ->
  JS.is_nan due = false ->
  (forall k, In k (map fst (_timeListeners (this w))) -> matches due callback k = false) ->
  exists w1 w2,
    (if one_shot then onceAt due callback else alwaysAt due callback) w
      = Returns tt w1 [] /\
    removeAt due callback w1 = Returns tt w2 [] /\
    _timeListeners (this w2) = _timeListeners (this w) /\
    config (this w2) = config (this w) /\
    timers w2 = timers w1.
Proof.
  intros (_ & _ & Hkeys) Hret Hnan Hnone.
  set (l := newcomer due callback w). set (w0 := entered due callback one_shot w).
  set (d0 := {| timeoutId := 0; lastCalled := NaN; once := one_shot |}).
  set (m := _timeListeners (this w)).
  assert (Hfresh : forall k, In k (map fst m) -> l_id k <> l_id l).
  { intros k Hk. specialize (Hkeys k Hk). simpl. lia. }
  assert (Hm0 : _timeListeners (this w0) = m ++ [(l, d0)]).
  { apply (@tl_set_fresh l d0 m Hfresh). }
  assert (Hget : tl_get l (_timeListeners (this w0)) = Some d0).
  { simpl. rewrite tl_get_set, Nat.eqb_refl. reflexivity. }
  destruct (@recalculate_returns l w0) as (w1 & Hrun).
  { replace (time (this w0) (now w0)) with (time (this w) (now w));
      [ exact Hret | apply time_config; reflexivity ]. }
  destruct (@recalculate_kept l w0 w1 [] Hrun) as (_ & Hcfg & _).
  assert (Hm1 : exists e, _timeListeners (this w1) = m ++ [(l, e)]).
  { destruct (@recalculate_cases l d0 w0 w1 [] Hget Hrun)
      as [-> | (run & delay & last & _ & ->)].
    - exists d0. exact Hm0.
    - exists {| timeoutId := next_timeout w0; lastCalled := last; once := once d0 |}.
      rewrite <- (@tl_set_last l d0 _ m Hfresh), <- Hm0. reflexivity. }
  destruct Hm1 as (e & Hm1).
  assert (Hmatch : matches due callback l = true).
  { unfold matches. simpl. rewrite Nat.eqb_refl, andb_true_r.
    destruct due as [| |x|]; try discriminate; try reflexivity.
    simpl. apply Qeq_bool_iff. reflexivity. }
  exists w1. eexists. split; [ rewrite register_unfold; exact Hrun | ].
  split; [ unfold removeAt, bind, read; simpl; rewrite for_each_delete; reflexivity | ].
  split; [ | split; [ | reflexivity ] ].
  - simpl. rewrite Hm1, map_app, filter_app. simpl.
    assert (Hl : deleted due callback (map fst m ++ [l]) (l, e) = true).
    { unfold deleted. rewrite existsb_app. simpl.
      unfold same_listener. rewrite Hmatch, Nat.eqb_refl. simpl.
      apply orb_true_r. }
    rewrite Hl. simpl. rewrite app_nil_r.
    apply filter_all. intros kd Hkd. apply negb_true_iff.
    unfold deleted. rewrite existsb_app. simpl. apply orb_false_iff. split.
    + apply existsb_none. intros k Hk. rewrite (Hnone k Hk). reflexivity.
    + unfold same_listener.
      destruct (Nat.eqb (l_id (fst kd)) (l_id l)) eqn:E;
        [ | rewrite andb_false_r; reflexivity ].
      apply Nat.eqb_eq in E. exfalso. apply (Hfresh (fst kd)); [ | exact E ].
      apply in_map. exact Hkd.
  - transitivity (config (this w1)); [ reflexivity | ]. rewrite Hcfg. reflexivity.
Qed.

(** ** The timer table over the life of a clock *)

Lemma NoDup_map_filter {A B} (f : A -> B) (p : A -> bool) (xs : list A) :
  NoDup (map f xs) -> NoDup (map f (filter p xs)).
Proof.
  induction xs as [|x xs IH]; simpl; intros H; [ constructor | ].
  inversion H as [|? ? Hx Hxs]; subst.
  destruct (p x); simpl; [ constructor | ]; auto.
  intros Hin. apply Hx. apply in_map_iff in Hin as (y & Hy & Hin).
  apply filter_In in Hin as [Hin _]. apply in_map_iff. exists y. auto.
Qed.

Lemma NoDup_snoc {A} (xs : list A) (a : A) :
  NoDup xs -> ~ In a xs -> NoDup (xs ++ [a]).
Proof.
  induction xs as [|x xs IH]; simpl; intros H Ha.
  - constructor; [ intros [] | constructor ].
  - inversion H as [|? ? Hx Hxs]; subst. constructor.
    + intros Hin. apply in_app_or in Hin as [Hin | [<- | []]]; auto.
    + apply IH; auto.
Qed.

Lemma tl_set_in (l : listener) (e : listenerData) (m : list (listener * listenerData))
      (k : listener) (d : listenerData) :
  In (k, d) (tl_set l e m) -> In (k, d) m \/ (d = e /\ l_id k = l_id l).
Proof.
  induction m as [|[k0 d0] m IH]; simpl.
  - intros [H | []]. injection H as <- <-. right. auto.
  - unfold same_listener. destruct (Nat.eqb (l_id k0) (l_id l)) eqn:E; simpl.
    + intros [H | H]; [ | auto ]. injection H as <- <-.
      right. apply Nat.eqb_eq in E. auto.
    + intros [H | H]; [ auto | ]. destruct (IH H) as [? | ?]; auto.
Qed.



Ltac numbered_split :=
  split; [ | split; [ | split; [ intros t Ht | split; [ | split;
    [ intros k e Hk | intros t k e Ht Hk Heq ] ] ] ] ].

Lemma numbered_cleared (id : nat) (w : world) : numbered w -> numbered (cleared id w).
Proof.
  intros (Hpos & Hts & Hnz & Hks & Hheld & Hfor). numbered_split; simpl in *.
  - exact Hpos.
  - apply NoDup_map_filter. exact Hts.
  - apply in_cancel in Ht as [Ht _]. auto.
  - exact Hks.
  - eauto.
  - apply in_cancel in Ht as [Ht _]. eauto.
Qed.

Lemma numbered_armed (run : closure) (delay last : num) (one_shot : bool)
      (l : listener) (d : listenerData) (w : world) :
  tidy w -> numbered w ->
  tl_get l (_timeListeners (this w)) = Some d ->
  target run = l ->
  numbered (armed run delay l last one_shot (cleared (timeoutId d) w)).
Proof.
  intros (_ & Hids & _) (Hpos & Hts & Hnz & Hks & Hheld & Hfor) Hget Hrun.
  assert (Hold : forall t, In t (cancel (timeoutId d) (timers w)) ->
                           In t (timers w) /\ (t_id t < next_timeout w)%nat).
  { intros t Ht. apply in_cancel in Ht as [Ht _]. split; [ exact Ht | apply Hids, Ht ]. }
  numbered_split; simpl in *.
  - lia.
  - rewrite map_app. simpl. apply NoDup_snoc.
    + apply NoDup_map_filter. exact Hts.
    + intros Hin. apply in_map_iff in Hin as (t & Hid & Ht).
      destruct (Hold t Ht). lia.
  - apply in_app_or in Ht as [Ht | [<- | []]]; simpl.
    + apply Hnz. apply (Hold t Ht).
    + lia.
  - rewrite (@tl_set_keys l d _ _ Hget). exact Hks.
  - apply tl_set_in in Hk as [Hk | [-> _]]; simpl.
    + specialize (Hheld k e Hk). lia.
    + lia.
  - apply in_app_or in Ht as [Ht | [<- | []]]; simpl in *.
    + destruct (Hold t Ht) as [Hin Hlt].
      apply tl_set_in in Hk as [Hk | [-> Hid]]; [ eauto | ].
      simpl in Heq. lia.
    + apply tl_set_in in Hk as [Hk | [_ Hid]].
      * specialize (Hheld k e Hk). lia.
      * rewrite Hrun. symmetry. exact Hid.
Qed.

(** A change of the configuration leaves the numbering alone. *)
Lemma numbered_config (c : clock) (w : world) :
  _timeListeners c = _timeListeners (this w) -> numbered w -> numbered (with_clock c w).
Proof.
  intros Hsame (Hpos & Hts & Hnz & Hks & Hheld & Hfor).
  numbered_split; simpl in *; rewrite ?Hsame in *; eauto.
Qed.

(** Entries taken out of the table leave the numbering alone. *)
Lemma numbered_fewer (m : list (listener * listenerData)) (w : world) :
  (forall kd, In kd m -> In kd (_timeListeners (this w))) ->
  NoDup (map l_id (map fst m)) ->
  numbered w ->
  numbered (with_clock (with_timeListeners m (this w)) w).
Proof.
  intros Hsub Hnd (Hpos & Hts & Hnz & Hks & Hheld & Hfor).
  numbered_split; simpl in *; eauto.
Qed.

Lemma filter_listeners_fewer (p : listener * listenerData -> bool) (w : world) :
  numbered w ->
  numbered (with_clock (with_timeListeners (filter p (_timeListeners (this w))) (this w)) w).
Proof.
  intros Hn. apply numbered_fewer; [ | | exact Hn ].
  - intros kd Hkd. apply filter_In in Hkd as [Hkd _]. exact Hkd.
  - destruct Hn as (_ & _ & _ & Hks & _). rewrite map_map in *.
    apply NoDup_map_filter. exact Hks.
Qed.

Lemma tidy_entered (due : num) (callback : nat) (one_shot : bool) (w : world) :
  tidy w -> tidy (entered due callback one_shot w).
Proof.
  intros (Hown & Hids & Hkeys). tidy_split.
  - simpl in Ht, He. rewrite tl_get_set in He. simpl in He.
    destruct (Nat.eqb (next_object w) (l_id (target (t_run t)))) eqn:E.
    + apply Nat.eqb_eq in E. destruct (Hids t Ht). lia.
    + apply (Hown t e Ht He).
  - simpl in *. destruct (Hids t Ht). lia.
  - simpl in Hk. apply tl_set_keys_in in Hk as [-> | Hk]; simpl.
    + lia.
    + specialize (Hkeys k Hk). lia.
Qed.

Lemma numbered_entered (due : num) (callback : nat) (one_shot : bool) (w : world) :
  tidy w -> numbered w -> numbered (entered due callback one_shot w).
Proof.
  intros (_ & _ & Hkeys) (Hpos & Hts & Hnz & Hks & Hheld & Hfor).
  assert (Hfresh : forall k, In k (map fst (_timeListeners (this w))) ->
                             l_id k <> l_id (newcomer due callback w)).
  { intros k Hk. specialize (Hkeys k Hk). simpl. lia. }
  numbered_split; simpl in *; auto.
  - rewrite (@tl_set_fresh (newcomer due callback w) _ _ Hfresh), !map_app. simpl.
    apply NoDup_snoc; [ exact Hks | ].
    intros Hin. apply in_map_iff in Hin as (k & Hid & Hk).
    apply (Hfresh k Hk). exact Hid.
  - apply tl_set_in in Hk as [Hk | [-> _]]; [ eauto | exact Hpos ].
  - apply tl_set_in in Hk as [Hk | [-> _]]; [ eauto | ].
    simpl in Heq. exfalso. apply (Hnz t Ht). symmetry. exact Heq.
Qed.

Lemma numbered_stamped (id : nat) (l : listener) (d : listenerData) (stamp : num)
      (one_shot : bool) (w : world) :
  numbered w -> tl_get l (_timeListeners (this w)) = Some d ->
  numbered (stamped id l stamp one_shot w).
Proof.
  intros (Hpos & Hts & Hnz & Hks & Hheld & Hfor) Hget.
  numbered_split; simpl in *; auto.
  - apply NoDup_map_filter. exact Hts.
  - apply in_cancel in Ht as [Ht _]. auto.
  - rewrite (@tl_set_keys l d _ _ Hget). exact Hks.
  - apply tl_set_in in Hk as [Hk | [-> _]]; [ eauto | exact Hpos ].
  - apply in_cancel in Ht as [Ht _].
    apply tl_set_in in Hk as [Hk | [-> _]]; [ eauto | ].
    simpl in Heq. exfalso. apply (Hnz t Ht). symmetry. exact Heq.
Qed.

Lemma recalculate_numbered (l : listener) (w w' : world) (tr : list action) :
  tidy w -> numbered w -> _recalculateTimeListener l w = Returns tt w' tr -> numbered w'.
Proof.
  intros Htidy Hn Hrun.
  destruct (tl_get l (_timeListeners (this w))) as [d|] eqn:Hget.
  - destruct (@recalculate_cases l d w w' tr Hget Hrun)
      as [-> | (run & delay & last & Ht & ->)].
    + apply numbered_cleared. exact Hn.
    + apply numbered_armed; assumption.
  - rewrite recalculate_unfold, Hget in Hrun. injection Hrun as <- _. exact Hn.
Qed.

Lemma recalculate_orderly (l : listener) (w w' : world) (tr : list action) :
  orderly w -> _recalculateTimeListener l w = Returns tt w' tr -> orderly w'.
Proof.
  intros [Ht Hn] Hrun. split;
    [ eapply recalculate_tidy | eapply recalculate_numbered ]; eassumption.
Qed.

Lemma for_each_recalculate_orderly (keys : list listener) :
  forall w w' tr,
    orderly w -> for_each _recalculateTimeListener keys w = Returns tt w' tr -> orderly w'.
Proof.
  induction keys as [|l keys IH]; intros w w' tr Ho H.
  - injection H as <- _. exact Ho.
  - simpl in H. unfold bind in H.
    destruct (_recalculateTimeListener l w) as [[] w1 tr1| |] eqn:H1; try discriminate.
    destruct (for_each _recalculateTimeListener keys w1) as [[] w2 tr2| |] eqn:H2;
      try discriminate.
    simpl in H. injection H as <- _.
    eapply IH; [ | exact H2 ]. eapply recalculate_orderly; eassumption.
Qed.

Lemma recalculate_all_orderly (w w' : world) (tr : list action) :
  orderly w -> _recalculateTimeListeners w = Returns tt w' tr -> orderly w'.
Proof.
  intros Ho. unfold _recalculateTimeListeners, bind, read, record. simpl.
  destruct (for_each _ _ w) as [[] w1 tr1| |] eqn:H1; try discriminate.
  simpl. intros H. injection H as <- _.
  eapply for_each_recalculate_orderly; eassumption.
Qed.

Lemma orderly_config (c : clock) (w : world) :
  _timeListeners c = _timeListeners (this w) -> orderly w -> orderly (with_clock c w).
Proof.
  intros Hsame [Ht Hn]. split; [ apply tidy_config | apply numbered_config ]; assumption.
Qed.

Lemma orderly_bare (wall : Q) : orderly (bare (constructor wall) wall).
Proof.
  split; [ apply tidy_bare | ].
  numbered_split; simpl in *; try contradiction; try constructor. 
Qed.

Section Orderly.
Variable behave : nat -> world -> world.

(** An operation that returns has updated the state, recomputed the timers
    and announced its events, or has only announced [setrunning]. *)
Lemma perform_shape (op : operation) (w w' : world) (tr : list action) :
  perform behave op w = Returns tt w' tr ->
  (exists c1 w1,
      updated op (this w) (now w) = Some c1 /\
      _recalculateTimeListeners (with_clock c1 w) = Returns tt w1 [Recalculated] /\
      w' = dispatch_all behave (announced op) w1 /\
      tr = Recalculated :: map Triggered (announced op)) \/
  (updated op (this w) (now w) = None /\
   w' = dispatch behave "setrunning" w /\ tr = [Triggered "setrunning"]).
Proof.
  intros Hrun.
  destruct (updated op (this w) (now w)) as [c1|] eqn:Hup.
  { left. rewrite (perform_unfold behave _ _ Hup) in Hrun. unfold bind in Hrun.
    destruct (_recalculateTimeListeners (with_clock c1 w)) as [[] w1 tr1| |] eqn:Hre;
      try discriminate.
    destruct (recalculate_all_kept _ Hre) as [-> _].
    rewrite announce_dispatch in Hrun. simpl in Hrun. injection Hrun as <- <-.
    exists c1, w1. auto. }
  right. split; [ reflexivity | ].
  assert (Hquiet : forall event, perform behave op w = trigger behave event w ->
                                 w' = dispatch behave event w /\ tr = [Triggered event]).
  { intros event E. rewrite E, trigger_dispatch in Hrun. injection Hrun as <- <-.
    split; reflexivity. }
  revert Hrun.
  destruct op; simpl in Hup |- *; unfold option_map in Hup.
  - destruct (_running (this w)) eqn:Hr; [ | discriminate Hup ].
    intros _. apply (Hquiet "setrunning"%string).
    simpl. unfold start, bind, read, when. simpl. rewrite Hr. simpl.
    rewrite !after_nil. reflexivity.
  - destruct (_running (this w)) eqn:Hr.
    + unfold stop, bind, read, when, get_time. simpl. rewrite Hr.
      destruct (time (this w) (now w)); [ discriminate Hup | discriminate ].
    + intros _. apply (Hquiet "setrunning"%string).
      simpl. unfold stop, bind, read, when. simpl. rewrite Hr. simpl.
      rewrite !after_nil. reflexivity.
  - discriminate Hup.
  - unfold set_rate, bind, read, when, get_time. simpl.
    destruct (_running (this w)); [ | discriminate Hup ].
    destruct (time (this w) (now w)); [ discriminate Hup | discriminate ].
  - unfold set_minimum, bind, read, get_time. simpl.
    destruct (time (this w) (now w)); [ | discriminate ]. simpl.
    destruct (JS.gt minimum (_maximum (this w)) || JS.eq minimum PosInf);
      [ discriminate | discriminate Hup ].
  - unfold set_maximum, bind, read, get_time. simpl.
    destruct (time (this w) (now w)); [ | discriminate ]. simpl.
    destruct (JS.lt maximum (_minimum (this w)) || JS.eq maximum NegInf);
      [ discriminate | discriminate Hup ].
  - unfold set_loop, bind, read, get_time. simpl.
    destruct (time (this w) (now w)); [ discriminate Hup | discriminate ].
Qed.

Hypothesis behave_orderly : considerate behave.

Lemma dispatch_orderly (event : string) (w : world) :
  orderly w -> orderly (dispatch behave event w).
Proof.
  unfold dispatch. generalize (attached event (this w)). intros fs. revert w.
  induction fs as [|f fs IH]; intros w Hw; simpl; [ exact Hw | ].
  apply IH, behave_orderly, Hw.
Qed.

Lemma dispatch_all_orderly (events : list string) (w : world) :
  orderly w -> orderly (dispatch_all behave events w).
Proof.
  unfold dispatch_all. revert w.
  induction events as [|e events IH]; intros w Hw; simpl; [ exact Hw | ].
  apply IH, dispatch_orderly, Hw.
Qed.

Lemma perform_orderly (op : operation) (w w' : world) (tr : list action) :
  orderly w -> perform behave op w = Returns tt w' tr -> orderly w'.
Proof.
  intros Ho Hrun.
  destruct (perform_shape _ _ Hrun) as [(c1 & w1 & Hup & Hre & -> & _) | (_ & -> & _)].
  - apply dispatch_all_orderly. eapply recalculate_all_orderly; [ | exact Hre ].
    apply orderly_config; [ | exact Ho ]. eapply updated_listeners; exact Hup.
  - apply dispatch_orderly. exact Ho.
Qed.

Lemma fire_orderly (id : nat) (w w' : world) (tr : list action) :
  orderly w -> fire behave id w = Returns tt w' tr -> orderly w'.
Proof.
  intros [Ht Hn]. rewrite fire_unfold.
  destruct (find (fun t => Nat.eqb (t_id t) id) (timers w)) as [tm|] eqn:Hfind.
  2:{ intros H. injection H as <- _. split; assumption. }
  apply find_some in Hfind as [Hin Hid]. apply Nat.eqb_eq in Hid. subst id.
  assert (Hclr : orderly (cleared (t_id tm) w)).
  { split; [ apply tidy_cleared | apply numbered_cleared ]; assumption. }
  destruct (t_run tm) as [l|l] eqn:Hrun.
  - apply recalculate_orderly. exact Hclr.
  - destruct (tl_get l (_timeListeners (this w))) as [d|] eqn:Hget.
    2:{ intros H. injection H as <- _. exact Hclr. }
    destruct (time (this w) (now w)) as [cur|]; [ | discriminate ].
    cbv zeta.
    assert (Hst : orderly (stamped (t_id tm) l cur (once d) w)).
    { split.
      - replace l with (target (t_run tm)) by (rewrite Hrun; reflexivity).
        apply tidy_fired with (d := d); [ exact Ht | exact Hin | ].
        rewrite Hrun. exact Hget.
      - eapply numbered_stamped; eassumption. }
    pose proof (behave_orderly (l_callback l) Hst) as Hcalled.
    destruct (once d).
    + intros H. injection H as <- _. destruct Hcalled as [Ht' Hn'].
      split; [ apply tidy_delete; exact Ht' | apply filter_listeners_fewer; exact Hn' ].
    + destruct (_recalculateTimeListener l _) as [[] w3 tr3| |] eqn:H3;
        simpl; intros H; try discriminate.
      injection H as <- _. eapply recalculate_orderly; eassumption.
Qed.

Lemma register_orderly (due : num) (callback : nat) (one_shot : bool)
      (w w' : world) (tr : list action) :
  orderly w ->
  (if one_shot then onceAt due callback else alwaysAt due callback) w = Returns tt w' tr ->
  orderly w'.
Proof.
  intros [Ht Hn]. rewrite register_unfold. apply recalculate_orderly.
  split; [ apply tidy_entered | apply numbered_entered ]; assumption.
Qed.

Lemma removeAt_orderly (due : num) (callback : nat) (w w' : world) (tr : list action) :
  orderly w -> removeAt due callback w = Returns tt w' tr -> orderly w'.
Proof.
  intros [Ht Hn] Hrun. split; [ eapply removeAt_tidy; eassumption | ].
  revert Hrun. unfold removeAt, bind, read. simpl. rewrite for_each_delete. simpl.
  intros H. injection H as <- _. apply filter_listeners_fewer. exact Hn.
Qed.

Lemma run_call_orderly (c : call) (w w' : world) (tr : list action) :
  orderly w -> run_call behave c w = Returns tt w' tr -> orderly w'.
Proof.
  intros Ho. destruct c as [op|b|e f|e f|due f|due f|due f|id|wall]; simpl.
  - apply perform_orderly. exact Ho.
  - destruct b; [ apply (@perform_orderly Start) | apply (@perform_orderly Stop) ];
      exact Ho.
  - rewrite on_unfold. intros H. injection H as <- _.
    apply orderly_config; [ reflexivity | exact Ho ].
  - rewrite off_unfold. destruct (indexOf f (attached e (this w))); [ | discriminate ].
    intros H. injection H as <- _. apply orderly_config; [ reflexivity | exact Ho ].
  - apply (@register_orderly due f true). exact Ho.
  - apply (@register_orderly due f false). exact Ho.
  - apply removeAt_orderly. exact Ho.
  - apply fire_orderly. exact Ho.
  - unfold elapse. intros H. injection H as <- _.
    destruct Ho as [(Hown & Hids & Hkeys) (Hpos & Hts & Hnz & Hks & Hheld & Hfor)].
    split; [ tidy_split | numbered_split ]; simpl in *; eauto.
Qed.

Lemma run_calls_orderly (cs : list call) :
  forall w w' tr, orderly w -> run_calls behave cs w = Returns tt w' tr -> orderly w'.
Proof.
  induction cs as [|c cs IH]; intros w w' tr Ho; simpl.
  - intros H. injection H as <- _. exact Ho.
  - unfold bind. destruct (run_call behave c w) as [[] w1 tr1| |] eqn:H1; try discriminate.
    destruct (run_calls behave cs w1) as [[] w2 tr2| |] eqn:H2; simpl; try discriminate.
    intros H. injection H as <- _.
    eapply IH; [ | exact H2 ]. eapply run_call_orderly; eassumption.
Qed.
End Orderly.

(** In a table in order every registered listener has one pending timer at
    most. *)
Lemma orderly_single (w : world) : orderly w -> single_timers w.
Proof.
  intros [(Hown & _) (_ & Hts & _)] t d Ht Hget.
  pose proof (Hown t d Ht Hget) as Hid. split; [ exact Hid | ].
  intros t' Ht' Hsame.
  apply (@NoDup_map_eq _ _ t_id (timers w)); auto.
  rewrite <- Hid. symmetry. apply (Hown t' d Ht').
  rewrite <- Hget. apply tl_get_same_id. exact Hsame.
Qed.

Section Lifetime.
Variable behave : nat -> world -> world.
Hypothesis behave_orderly : considerate behave.

(** X17.  Over the whole life of a clock the timer table stays in order:
    after any history of calls of the interface, timers firing and
    wall-clock time passing, from construction on and with callbacks that
    keep this order themselves, every pending timer made for a registered
    listener is the one the listener's entry holds, no registered listener
    has two pending timers, and no two pending timers or two entries share
    an identity. *)
Theorem timers_stay_single (created : Q) (history : list call) (w : world)
        (tr : list action) :
  run_calls behave history (bare (constructor created) created) = Returns tt w tr ->
  orderly w /\ single_timers w.
Proof.
  intros Hrun.
  assert (Ho : orderly w).
  { eapply run_calls_orderly; [ exact behave_orderly | apply orderly_bare | exact Hrun ]. }
  split; [ exact Ho | apply orderly_single; exact Ho ].
Qed.
End Lifetime.

(** ** The recomputation of all timers (lines 151-155) *)









Section Settled.
Variable behave : nat -> world -> world.


End Settled.

(** ** The errors of the interface *)

Lemma bind_never_throws {A B} (m : M A) (f : A -> M B) :
  never_throws m -> (forall a, never_throws (f a)) -> never_throws (bind m f).
Proof.
  intros Hm Hf w message w' tr. unfold bind.
  destruct (m w) as [a w1 tr1| |] eqn:E; [ | apply Hm in E; contradiction | discriminate ].
  destruct (f a w1) as [b w2 tr2| |] eqn:E2; simpl; try discriminate.
  apply Hf in E2. contradiction.
Qed.

Lemma returns_never_throws {A} (m : M A) :
  (forall w, exists a w' tr, m w = Returns a w' tr) -> never_throws m.
Proof. intros H w message w' tr. destruct (H w) as (a & w1 & tr1 & ->). discriminate. Qed.

Lemma for_each_never_throws {A} (f : A -> M unit) (xs : list A) :
  (forall x, never_throws (f x)) -> never_throws (for_each f xs).
Proof.
  intros Hf. induction xs as [|x xs IH]; simpl.
  - intros w message w' tr. discriminate.
  - apply bind_never_throws; [ apply Hf | intros _; exact IH ].
Qed.

Lemma recalculate_never_throws (l : listener) : never_throws (_recalculateTimeListener l).
Proof.
  intros w message w' tr. rewrite recalculate_unfold. cbv zeta.
  repeat match goal with
         | |- context [match ?b with _ => _ end] => destruct b
         end; discriminate.
Qed.

Lemma recalculate_all_never_throws : never_throws _recalculateTimeListeners.
Proof.
  unfold _recalculateTimeListeners.
  apply bind_never_throws; [ apply returns_never_throws; intros w; do 3 eexists; reflexivity | ].
  intros keys. apply bind_never_throws.
  - apply for_each_never_throws. apply recalculate_never_throws.
  - intros _. apply returns_never_throws. intros w. do 3 eexists. reflexivity.
Qed.

Section Errors.
Variable behave : nat -> world -> world.

Lemma trigger_never_throws (event : string) : never_throws (trigger behave event).
Proof.
  apply returns_never_throws. intros w. rewrite trigger_dispatch. do 3 eexists. reflexivity.
Qed.

Lemma get_time_never_throws : never_throws get_time.
Proof.
  intros w message w' tr. unfold get_time. destruct (time (this w) (now w)); discriminate.
Qed.

Ltac absurd_throw H :=
  exfalso;
  match type of H with
  | ?m ?x = Throws _ _ _ =>
      let N := fresh in assert (N : never_throws m); [ | exact (N _ _ _ _ H) ]
  end.

Ltac safe :=
  repeat first
    [ apply trigger_never_throws
    | apply get_time_never_throws
    | apply recalculate_all_never_throws
    | apply recalculate_never_throws
    | apply bind_never_throws; [ | intros ? ]
    | apply for_each_never_throws; intros ?
    | apply returns_never_throws; intros ?; do 3 eexists; reflexivity ].

(** X23.  The only errors the calls of the interface throw are the one of
    [off] for a callback that is not attached and the two of the bound
    setters for a bound beyond the other; a call that throws leaves the
    world as it was.  Every other call returns or never returns. *)
Theorem only_off_and_bounds_throw (c : call) (w w' : world) (message : string)
        (tr : list action) :
  run_call behave c w = Throws message w' tr ->
  w' = w /\ tr = [] /\
  ((exists event callback,
       c = Off event callback /\ ~ In callback (attached event (this w)) /\
       message = "Event listener not found"%string) \/
   (exists minimum,
       c = Operate (SetMinimum minimum) /\
       (JS.gt minimum (_maximum (this w)) = true \/ minimum = PosInf) /\
       message = "Cannot set minimum above maximum"%string) \/
   (exists maximum,
       c = Operate (SetMaximum maximum) /\
       (JS.lt maximum (_minimum (this w)) = true \/ maximum = NegInf) /\
       message = "Cannot set maximum below minimum"%string)).
Proof.
  assert (Hstart : never_throws (start behave)).
  { unfold start. safe. unfold when. destruct (negb a); safe. }
  assert (Hstop : never_throws (stop behave)).
  { unfold stop. safe. unfold when. destruct a; safe. }
  destruct c as [op|b|e f|e f|due f|due f|due f|id|wall]; simpl; intros Hrun.
  - destruct op; simpl in Hrun.
    + absurd_throw Hrun. exact Hstart.
    + absurd_throw Hrun. exact Hstop.
    + absurd_throw Hrun. unfold set_time. safe.
    + absurd_throw Hrun. unfold set_rate. safe. unfold when. destruct a; safe.
    + revert Hrun. unfold set_minimum, bind, get_time, read.
      destruct (time (this w) (now w)) as [t|]; [ | discriminate ]. simpl.
      destruct (JS.gt minimum (_maximum (this w)) || JS.eq minimum PosInf) eqn:Hbad.
      * unfold throw. simpl. intros H. injection H as <- <- <-.
        split; [ reflexivity | ]. split; [ reflexivity | ]. right. left.
        exists minimum. split; [ reflexivity | ]. split; [ | reflexivity ].
        apply orb_prop in Hbad as [H | H]; [ left; exact H | right ].
        destruct minimum; try discriminate; reflexivity.
      * rewrite !after_nil. intros H. exfalso.
        destruct (_recalculateTimeListeners _) eqn:E;
          [ rewrite trigger_dispatch in H; discriminate
          | apply recalculate_all_never_throws in E; contradiction
          | discriminate ].
    + revert Hrun. unfold set_maximum, bind, get_time, read.
      destruct (time (this w) (now w)) as [t|]; [ | discriminate ]. simpl.
      destruct (JS.lt maximum (_minimum (this w)) || JS.eq maximum NegInf) eqn:Hbad.
      * unfold throw. simpl. intros H. injection H as <- <- <-.
        split; [ reflexivity | ]. split; [ reflexivity | ]. right. right.
        exists maximum. split; [ reflexivity | ]. split; [ | reflexivity ].
        apply orb_prop in Hbad as [H | H]; [ left; exact H | right ].
        destruct maximum; try discriminate; reflexivity.
      * rewrite !after_nil. intros H. exfalso.
        destruct (_recalculateTimeListeners _) eqn:E;
          [ rewrite trigger_dispatch in H; discriminate
          | apply recalculate_all_never_throws in E; contradiction
          | discriminate ].
    + absurd_throw Hrun. unfold set_loop. safe.
  - absurd_throw Hrun. destruct b; [ exact Hstart | exact Hstop ].
  - rewrite on_unfold in Hrun. discriminate.
  - rewrite off_unfold in Hrun.
    destruct (indexOf f (attached e (this w))) eqn:Hi; [ discriminate | ].
    injection Hrun as <- <- <-. split; [ reflexivity | ]. split; [ reflexivity | ].
    left. exists e, f. split; [ reflexivity | ]. split; [ | reflexivity ].
    intros Hin. destruct (indexOf_present _ _ Hin) as [i Hi']. congruence.
  - absurd_throw Hrun. unfold onceAt. safe.
  - absurd_throw Hrun. unfold alwaysAt. safe.
  - absurd_throw Hrun. unfold removeAt. safe.
    match goal with
    | |- context [matches ?a ?b ?x] => destruct (matches a b x)
    end; safe.
  - exfalso. revert Hrun. rewrite fire_unfold.
    destruct (find _ _) as [tm|]; [ | discriminate ].
    destruct (t_run tm) as [l|l]; [ apply recalculate_never_throws | ].
    destruct (tl_get _ _) as [d|]; [ | discriminate ].
    destruct (time _ _) as [cur|]; [ | discriminate ].
    cbv zeta. destruct (once d); [ discriminate | ].
    match goal with
    | |- after _ (?m ?x) = _ -> False => destruct (m x) eqn:E
    end; simpl; try discriminate.
    apply recalculate_never_throws in E. contradiction.
  - discriminate.
Qed.
End Errors.

(** * Counterexamples and instances *)


(** C6, as stated, fails: after [removeAt] the timer of the removed entry
    is still pending. *)
Lemma removeAt_leaves_timer_armed : ~ removal_cancels lap_world_armed (Fin 5) 7.
Proof.
  intros H. 
  apply (H (with_clock (with_timeListeners [] lap_clock) lap_world_armed) eq_refl
           at_five {| timeoutId := 1; lastCalled := NaN; once := false |}
           {| t_id := 1; t_delay := Fin 2; t_run := Fire at_five |}).
  - left. reflexivity.
  - reflexivity.
  - left. reflexivity.
  - reflexivity.
Qed.

(** The loops of the getter on doubles.  Over [[0.1, 1)] the raw time 1,
    which the getter of the numbers folds to the minimum, is folded to a
    double below the minimum: the span subtracted from 1 is not 0.1. *)
Lemma getter_leaves_range_on_doubles :
  let c := stopped_clock tenth (Fin 1) true (Fin 1) in
  JS.lt (_minimum c) (_maximum c) = true /\
  (exists t, bound_time64 2 c (Fin 1) = Some t /\ JS.lt t (_minimum c) = true) /\
  (exists t, bound_time 2 c (Fin 1) = Some t /\ JS.same t (_minimum c)).
Proof.
  cbv zeta. split; [ reflexivity | ]. split.
  - eexists. split; [ vm_compute; reflexivity | reflexivity ].
  - eexists. split; [ vm_compute; reflexivity | reflexivity ].
Qed.

(** Over [[1, 3)] the raw time [2 ^ 60] is left where it is by the
    subtraction of the span, so the loop never ends on doubles. *)
Lemma getter_never_returns_on_doubles :
  let c := stopped_clock (Fin 1) (Fin 3) true (Fin 1) in
  JS.lt (_minimum c) (_maximum c) = true /\
  forall fuel, bound_time64 fuel c (Fin 1152921504606846976) = None.
Proof.
  cbv zeta. split; [ reflexivity | ]. intros fuel.
  unfold bound_time64, bound_time_with.
  change (can_loop (stopped_clock (Fin 1) (Fin 3) true (Fin 1))) with true.
  cbv iota.
  change (JS.lt (Fin 1152921504606846976)
                (_minimum (stopped_clock (Fin 1) (Fin 3) true (Fin 1)))) with false.
  change (JS.eq (_minimum (stopped_clock (Fin 1) (Fin 3) true (Fin 1))) JS.zero) with false.
  cbv iota.
  apply (@substract_laps_with_diverges Double.sub _ (fun u => u = Fin 1152921504606846976));
    [ | reflexivity ].
  intros u ->. split; [ reflexivity | vm_compute; reflexivity ].
Qed.


(** The product can also fall below the quotient: at rate 3 a listener for
    the double next above 3, registered while the clock reads 0, gets a
    delay of 1, and 1 ms later the clock reads 3, short of the target. *)
Lemma delay_falls_short :
  exists w tr t,
    run_calls idle [Operate (SetRate (Fin 3)); Operate Start; OnceAt above_three 7]
              (bare (constructor 0) 0) = Returns tt w tr /\
    timers w = [{| t_id := 1; t_delay := Fin 1; t_run := Fire at_above_three |}] /\
    time (this w) 1 = Some t /\ JS.same t (Fin 3) /\ JS.lt t above_three = true.
Proof.
  eexists. eexists. eexists. split; [ vm_compute; reflexivity | ].
  split; [ reflexivity | ]. split; [ vm_compute; reflexivity | ].
  split; reflexivity.
Qed.

Section ReferenceTime.
Variable behave : nat -> world -> world.

(** C10, failing input.  From a new clock, [minimum = 0], [maximum = 0],
    [loop = true], [loop = false] all return, and leave the reference time
    at [NaN], outside the bounds. *)
Theorem reference_escapes_bounds :
  exists w' tr,
    perform_all behave
      [SetMinimum (Fin 0); SetMaximum (Fin 0); SetLoop true; SetLoop false]
      (bare (constructor 0) 0) = Returns tt w' tr /\
    _previousTime (this w') = NaN /\
    calibrated (this w') = false.
Proof.
  eexists. eexists. split; [ vm_compute; reflexivity | ]. split; reflexivity.
Qed.
End ReferenceTime.

(** Instances of the theorems on the sample worlds. *)



Lemma invalid_bound_rejected_instance :
  set_minimum idle (Fin 20) lap_world =
    Throws "Cannot set minimum above maximum" lap_world [] /\
  set_maximum idle NegInf lap_world =
    Throws "Cannot set maximum below minimum" lap_world [].
Proof.
  destruct (@invalid_bound_rejected idle lap_world (Fin 2) (Fin 20) eq_refl) as [H1 _].
  destruct (@invalid_bound_rejected idle lap_world (Fin 2) NegInf eq_refl) as [_ H2].
  split; [ apply H1; left; reflexivity | apply H2; right; reflexivity ].
Defined.

Lemma unreachable_listener_rests_witness :
  (exists w',
      _recalculateTimeListener at_five lap_world_parked = Returns tt w' [] /\
      this w' = this lap_world_parked /\
      timers w' = cancel 1 (timers lap_world_parked) /\
      (forall t, In t (timers w') -> In t (timers lap_world_parked) /\ t_id t <> 1%nat)) /\
  (exists w1,
      stop idle lap_world_armed =
      Returns tt (dispatch idle "setrunning" (dispatch idle "stop" w1))
              [Recalculated; Triggered "stop"; Triggered "setrunning"] /\
      _running (this w1) = false /\
      (forall k e, tl_get k (_timeListeners (this w1)) = Some e ->
                   forall t, In t (timers w1) -> t_id t <> timeoutId e) /\
      (forall ids, exists w2,
          for_each (fire idle) ids w1 = Returns tt w2 [] /\ this w2 = this w1)).
Proof.
  split.
  - destruct (@unreachable_listener_rests idle lap_world_parked at_five
                {| timeoutId := 1; lastCalled := NaN; once := false |}) as [H _].
    apply H; [ reflexivity | left; reflexivity ].
  - destruct (@unreachable_listener_rests idle lap_world_armed at_five
                (fresh_entry false)) as [_ H].
    assert (Hown : owned lap_world_armed).
    { intros t d [<- | []] Hget. simpl in Hget. injection Hget as <-. reflexivity. }
    destruct (H eq_refl Hown (Fin 2) eq_refl) as (w1 & Hs & Hr & Hh & _ & Hf).
    exists w1. auto.
Defined.


Lemma removeAt_detaches_witness :
  exists w',
    removeAt (Fin 5) 7 lap_world_armed = Returns tt w' [] /\
    _timeListeners (this w') = [] /\
    timers w' = timers lap_world_armed /\
    fire idle 1 w' = Returns tt (cleared 1 w') [].
Proof.
  destruct (@removeAt_detaches idle lap_world_armed (Fin 5) 7)
    as (w' & Hrun & Hleft & _ & Htimers & Hgone & Hfire).
  { simpl. constructor; [ intros [] | constructor ]. }
  exists w'. split; [ exact Hrun | ]. split; [ exact Hleft | ].
  split; [ exact Htimers | ].
  apply (Hfire 1%nat {| t_id := 1; t_delay := Fin 2; t_run := Fire at_five |}).
  - rewrite Htimers. reflexivity.
  - rewrite Hleft. reflexivity.
Defined.

Lemma start_stop_idempotent_instance :
  start idle lap_world_armed =
    Returns tt (dispatch idle "setrunning" lap_world_armed) [Triggered "setrunning"] /\
  (exists w1,
      start idle lap_world_parked =
      Returns tt (dispatch idle "setrunning" (dispatch idle "start" w1))
              [Recalculated; Triggered "start"; Triggered "setrunning"] /\
      _running (this w1) = true /\ _previousNow (this w1) = Fin 1) /\
  stop idle lap_world_parked =
    Returns tt (dispatch idle "setrunning" lap_world_parked) [Triggered "setrunning"] /\
  (exists w1,
      stop idle lap_world_armed =
      Returns tt (dispatch idle "setrunning" (dispatch idle "stop" w1))
              [Recalculated; Triggered "stop"; Triggered "setrunning"] /\
      _running (this w1) = false /\ _previousTime (this w1) = Fin 2).
Proof.
  destruct (start_stop_idempotent idle lap_world_armed) as (H1 & _ & _ & H4).
  destruct (start_stop_idempotent idle lap_world_parked) as (_ & H2 & H3 & _).
  split; [ apply H1; reflexivity | ].
  split.
  { destruct H2 as (w1 & _ & Hs & Hr & Hn & _); [ reflexivity | discriminate | ].
    exists w1. auto. }
  split; [ apply H3; reflexivity | ].
  destruct (H4 eq_refl (Fin 2) eq_refl) as (w1 & _ & Hs & Hr & Hp).
  exists w1. auto.
Defined.

Lemma off_throws_removeAt_silent_witness :
  off "start" 3 lap_world = Throws "Event listener not found" lap_world [] /\
  off "stop" 4 lap_world = Throws "Event listener not found" lap_world [] /\
  removeAt (Fin 6) 7 lap_world = Returns tt lap_world [].
Proof.
  destruct (off_throws_removeAt_silent lap_world "start" (Fin 6) 3) as [H1 _].
  destruct (off_throws_removeAt_silent lap_world "stop" (Fin 6) 4) as [H2 _].
  destruct (off_throws_removeAt_silent lap_world "stop" (Fin 6) 7) as [_ H3].
  split; [ apply H1; intros [] | ].
  split; [ apply H2; intros [H | []]; discriminate | ].
  apply H3. intros l d [H | []]. injection H as <- <-. reflexivity.
Defined.

(** ** Instances of the further properties *)

Ltac sample_case :=
  repeat match goal with
         | H : In _ _ |- _ => cbv in H
         | H : False |- _ => contradiction
         | H : _ \/ _ |- _ => destruct H
         | H : (_, _) = (_, _) |- _ => injection H as <- <-
         | H : _ = ?x |- _ => is_var x; subst x
         end;
  simpl in *;
  repeat match goal with
         | H : Some _ = Some _ |- _ => injection H as <-
         | |- NoDup _ => constructor
         | |- ~ In _ _ => simpl; intros ?
         | H : _ \/ _ |- _ => destruct H
         end;
  simpl in *; try lia; try discriminate; try contradiction; auto.

Ltac sample_tidy := tidy_split; sample_case.


Lemma off_removes_first_occurrence_witness :
  exists listeners,
    off "stop" 3 lap_world =
      Returns tt (with_clock (with_eventListeners listeners lap_clock) lap_world) [] /\
    el_get "stop" listeners = Some [] /\
    (forall other, other <> "stop"%string ->
                   el_get other listeners = el_get other (_eventListeners lap_clock)).
Proof.
  apply (@off_removes_first_occurrence "stop" 3 lap_world). simpl. left. reflexivity.
Defined.

Lemma on_off_round_trip_witness :
  exists w',
    (on "start" 4 ;; off "start" 4) lap_world = Returns tt w' [] /\
    (forall e, attached e (this w') = attached e lap_clock) /\
    off "start" 4 w' = Throws "Event listener not found" w' [].
Proof.
  apply (@on_off_round_trip "start" 4 lap_world). simpl. intros [].
Defined.

Lemma time_stands_still_witness :
  same_reading (time (stopped_clock (Fin 0) (Fin 10) false (Fin 3)) 0)
               (time (stopped_clock (Fin 0) (Fin 10) false (Fin 3)) 7).
Proof.
  apply (@time_stands_still (stopped_clock (Fin 0) (Fin 10) false (Fin 3)) 0 7).
  left. reflexivity.
Defined.

Lemma NaN_is_not_rejected_witness :
  exists w1,
    perform idle (SetMinimum NaN) lap_world =
    Returns tt (dispatch_all idle ["setminimum"%string] w1)
               [Recalculated; Triggered "setminimum"] /\
    _previousTime (this w1) = NaN /\
    _minimum (this w1) = NaN /\
    (forall wall, time (this w1) wall = Some NaN).
Proof.
  destruct (@NaN_is_not_rejected idle lap_world (SetMinimum NaN))
    as (w1 & Hrun & Hprev & Hmin & _ & Hall).
  - right. left. reflexivity.
  - vm_compute. discriminate.
  - exists w1. auto.
Defined.

Lemma set_time_round_trip_witness :
  exists w1 t',
    set_time idle (Fin 4) lap_world =
      Returns tt (dispatch idle "settime" w1) [Recalculated; Triggered "settime"] /\
    _previousTime (this w1) = Fin 4 /\
    _previousNow (this w1) = Fin 1 /\
    time (this w1) (now w1) = Some t' /\ JS.same t' (Fin 4).
Proof.
  apply (@set_time_round_trip idle lap_world (Fin 4)).
  - intros _. reflexivity.
  - right. reflexivity.
Defined.


Lemma setters_read_back_witness :
  exists w1,
    perform idle (SetRate (Fin 3)) lap_world =
    Returns tt (dispatch_all idle ["setrate"%string] w1)
               [Recalculated; Triggered "setrate"] /\
    get_running w1 = Returns true w1 [] /\
    get_rate w1 = Returns (Fin 3) w1 [] /\
    get_minimum w1 = Returns (Fin 0) w1 [] /\
    get_maximum w1 = Returns (Fin 10) w1 [] /\
    get_loop w1 = Returns true w1 [] /\
    _eventListeners (this w1) = _eventListeners lap_clock /\
    map fst (_timeListeners (this w1)) = [at_five].
Proof.
  apply (@setters_read_back idle lap_world (SetRate (Fin 3))
           (with_rate (Fin 3) (calibrate (Fin 2) 1 lap_clock))).
  - reflexivity.
  - vm_compute. discriminate.
Defined.

Lemma once_listener_fires_once_witness :
  exists w',
    fire idle 1 lap_world_once = Returns tt w' [Called 7] /\
    w' = unregistered at_five (idle 7 (stamped 1 at_five (Fin 2) true lap_world_once)) /\
    tl_get at_five (_timeListeners (this w')) = None /\
    (forall id' tm',
        find (fun t => Nat.eqb (t_id t) id') (timers w') = Some tm' ->
        l_id (target (t_run tm')) = l_id at_five ->
        fire idle id' w' = Returns tt (cleared id' w') []).
Proof.
  apply (@once_listener_fires_once idle lap_world_once 1
           {| t_id := 1; t_delay := Fin 2; t_run := Fire at_five |} at_five
           {| timeoutId := 1; lastCalled := NaN; once := true |} (Fin 2));
    reflexivity.
Defined.


Lemma registration_is_separate_witness :
  exists w' d,
    onceAt (Fin 6) 8 lap_world = Returns tt w' [] /\
    map fst (_timeListeners (this w'))
      = [at_five; newcomer (Fin 6) 8 lap_world] /\
    tl_get (newcomer (Fin 6) 8 lap_world) (_timeListeners (this w')) = Some d /\
    once d = true /\
    (forall k, l_id k <> 1%nat ->
               tl_get k (_timeListeners (this w')) = tl_get k (_timeListeners lap_clock)) /\
    config (this w') = config lap_clock /\
    (forall t, In t (timers lap_world) -> t_id t <> 0%nat -> In t (timers w')).
Proof.
  apply (@registration_is_separate lap_world (Fin 6) 8 true).
  - sample_tidy.
  - vm_compute. discriminate.
Defined.

Lemma register_remove_round_trip_witness :
  exists w1 w2,
    alwaysAt (Fin 6) 8 lap_world = Returns tt w1 [] /\
    removeAt (Fin 6) 8 w1 = Returns tt w2 [] /\
    _timeListeners (this w2) = _timeListeners lap_clock /\
    config (this w2) = config lap_clock /\
    timers w2 = timers w1.
Proof.
  apply (@register_remove_round_trip lap_world (Fin 6) 8 false).
  - sample_tidy.
  - vm_compute. discriminate.
  - reflexivity.
  - simpl. intros k [<- | []]. reflexivity.
Defined.

Lemma timers_stay_single_witness :
  exists w tr,
    run_calls idle sample_history (bare (constructor 0) 0) = Returns tt w tr /\
    orderly w /\ single_timers w.
Proof.
  eexists. eexists. split; [ vm_compute; reflexivity | ].
  eapply (@timers_stay_single idle (fun f w H => H) 0 sample_history).
  vm_compute. reflexivity.
Defined.



Lemma only_off_and_bounds_throw_witness :
  lap_world = lap_world /\ @nil action = [] /\
  ((exists event callback,
       Off "stop" 4 = Off event callback /\ ~ In callback (attached event lap_clock) /\
       "Event listener not found"%string = "Event listener not found"%string) \/
   (exists minimum,
       Off "stop" 4 = Operate (SetMinimum minimum) /\
       (JS.gt minimum (_maximum lap_clock) = true \/ minimum = PosInf) /\
       "Event listener not found"%string = "Cannot set minimum above maximum"%string) \/
   (exists maximum,
       Off "stop" 4 = Operate (SetMaximum maximum) /\
       (JS.lt maximum (_minimum lap_clock) = true \/ maximum = NegInf) /\
       "Event listener not found"%string = "Cannot set maximum below minimum"%string)).
Proof.
  apply (@only_off_and_bounds_throw idle (Off "stop" 4) lap_world lap_world
           "Event listener not found" []).
  reflexivity.
Defined.


Lemma time_hangs_on_equal_bounds_witness :
  (forall fuel, bound_time fuel (stopped_clock (Fin 3) (Fin 3) true (Fin 1)) (Fin 1) = None) /\
  (forall fuel, bound_time fuel (stopped_clock (Fin 0) (Fin 0) true (Fin 1)) (Fin 1) = Some NaN).
Proof.
  split.
  - apply (@time_hangs_on_equal_bounds (stopped_clock (Fin 3) (Fin 3) true (Fin 1)) 3 3 (Fin 1));
      try reflexivity.
    left. intros H. discriminate H.
  - apply (@time_hangs_on_equal_bounds (stopped_clock (Fin 0) (Fin 0) true (Fin 1)) 0 0 (Fin 1));
      reflexivity.
Defined.


Lemma set_time_wraps_at_maximum_witness :
  exists w1 t',
    set_time idle (Fin 12) lap_world =
      Returns tt (dispatch idle "settime" w1) [Recalculated; Triggered "settime"] /\
    JS.same (_previousTime (this w1)) (Fin 10) /\
    time (this w1) (now w1) = Some t' /\ JS.same t' (Fin 0).
Proof.
  apply (@set_time_wraps_at_maximum idle lap_world (Fin 12) 0 10); reflexivity.
Defined.
